(** * Incident-Response-Tool: the dashboard logic of static/js/main.js

    A shallow embedding of the classification code of [main.js]
    ([renderLogCard], the [EXPLANATIONS] and [MITIGATION_MATRIC] rule
    tables, [updateAnomalyList], [updateLevelChart], [sendAlert],
    [simulateContainment], [startSchedule]) and the properties the
    specification states about it.

    Conventions.
    - A JavaScript string is the list of its UTF-16 code units.
    - A regular expression literal is a value of [regex]; [exec] and [test]
      follow the backtracking order of the ECMAScript matcher (leftmost
      start position, alternatives left to right, quantifiers greedy).
    - A number decoded from JSON is a finite double.  Every finite double is
      a rational and two doubles compare as their values do, so numbers are
      embedded in [Q]; a numeric literal stands for the double it denotes.
    - The functions build markup from template literals.  The text of a
      template is fixed; the embedding keeps the interpolated values. *)

From Stdlib Require Import String Ascii DecimalString.
From Stdlib Require Import List NArith ZArith QArith Bool Lia.
Import ListNotations.
Close Scope Q_scope.

Set Implicit Arguments.

(** ** JavaScript strings *)

Module JsString.

Definition jsstring := list N.

(** The code units of an ASCII literal. *)
Definition str (s : string) : jsstring :=
  map N_of_ascii (list_ascii_of_string s).

Definition in_range (lo hi c : N) : bool := ((lo <=? c) && (c <=? hi))%N.

(** LineTerminator: LF, CR, LS, PS. *)
Definition is_line_terminator (c : N) : bool :=
  existsb (N.eqb c) [10; 13; 8232; 8233]%N.

(** WhiteSpace: TAB, VT, FF, ZWNBSP and the space separators. *)
Definition is_white_space (c : N) : bool :=
  existsb (N.eqb c) [9; 11; 12; 32; 160; 5760; 8239; 8287; 12288; 65279]%N
  || in_range 8192 8202 c.

(** What [String.prototype.trim] strips and what [\s] matches. *)
Definition is_space (c : N) : bool := is_white_space c || is_line_terminator c.

Definition is_digit (c : N) : bool := in_range 48 57 c.
Definition is_upper (c : N) : bool := in_range 65 90 c.
Definition is_lower (c : N) : bool := in_range 97 122 c.

Fixpoint trimStart (s : jsstring) : jsstring :=
  match s with
  | c :: s' => if is_space c then trimStart s' else s
  | [] => []
  end.

Definition trimEnd (s : jsstring) : jsstring := rev (trimStart (rev s)).

Definition trim (s : jsstring) : jsstring := trimEnd (trimStart s).

Fixpoint startsWith (s p : jsstring) : bool :=
  match p, s with
  | [], _ => true
  | c :: p', d :: s' => (c =? d)%N && startsWith s' p'
  | _ :: _, [] => false
  end.

Fixpoint includes (s p : jsstring) : bool :=
  startsWith s p ||
  match s with
  | [] => false
  | _ :: s' => includes s' p
  end.

(** [s.split(sep)] for a one-character separator. *)
Fixpoint split (sep : N) (s : jsstring) : list jsstring :=
  match s with
  | [] => [[]]
  | c :: s' =>
      if (c =? sep)%N then [] :: split sep s'
      else match split sep s' with
           | t :: ts => (c :: t) :: ts
           | [] => [[c]]
           end
  end.

(** [s.substring(0, n)]. *)
Definition substring0 (n : nat) (s : jsstring) : jsstring := firstn n s.

Fixpoint stripPrefix (p s : jsstring) : option jsstring :=
  match p, s with
  | [], _ => Some s
  | c :: p', d :: s' => if (c =? d)%N then stripPrefix p' s' else None
  | _ :: _, [] => None
  end.

(** [s.replace(/pat/g, rep)] for a pattern that is a literal, non-empty
    sequence of characters: occurrences are replaced left to right and do
    not overlap.  [fuel] bounds the number of steps; [length s] is enough. *)
Fixpoint replaceAll_aux (fuel : nat) (pat rep s : jsstring) : jsstring :=
  match fuel with
  | O => s
  | S fuel' =>
      match stripPrefix pat s with
      | Some rest => rep ++ replaceAll_aux fuel' pat rep rest
      | None =>
          match s with
          | [] => []
          | c :: s' => c :: replaceAll_aux fuel' pat rep s'
          end
      end
  end.

Definition replaceAll (pat rep s : jsstring) : jsstring :=
  replaceAll_aux (length s) pat rep s.

(** JavaScript truthiness of a possibly undefined string. *)
Definition truthy (o : option jsstring) : bool :=
  match o with
  | Some (_ :: _) => true
  | _ => false
  end.

End JsString.

Import JsString.

(** ** Regular expressions *)

Module Regex.

(** The fragment of the ECMAScript pattern language that [main.js] uses.
    Quantifiers are applied to character classes only; a quantified group
    [(r){n}] is [times n r]. *)
Inductive regex : Type :=
| Eps
| Bol                                   (* ^ *)
| Eol                                   (* $ *)
| Chr (p : N -> bool)                   (* one code unit of a class *)
| Cat (r1 r2 : regex)
| Alt (r1 r2 : regex)                   (* r1|r2 *)
| Rep (p : N -> bool) (lo : nat) (hi : option nat)  (* greedy p{lo,hi} *)
| Cap (r : regex).                      (* capture group 1 *)

Definition more (hi : option nat) : bool :=
  match hi with
  | Some O => false
  | _ => true
  end.

(** Greedy repetition: take one more character when possible, and give it
    back when the continuation fails. *)
Fixpoint rep (A : Type) (p : N -> bool) (lo : nat) (hi : option nat)
    (bol : bool) (s : jsstring) (k : bool -> jsstring -> option A) : option A :=
  let stop := match lo with O => k bol s | S _ => None end in
  match s with
  | c :: s' =>
      if p c && more hi then
        match rep p (pred lo) (option_map pred hi) false s' k with
        | Some a => Some a
        | None => stop
        end
      else stop
  | [] => stop
  end.

(** The backtracking matcher, in continuation-passing style.  [bol] tells
    whether the current position is the start of the input, [s] is the rest
    of the input and [cap] the current value of capture group 1. *)
Fixpoint rmatch (A : Type) (r : regex) (bol : bool) (s : jsstring)
    (cap : option jsstring)
    (k : bool -> jsstring -> option jsstring -> option A) : option A :=
  match r with
  | Eps => k bol s cap
  | Bol => if bol then k bol s cap else None
  | Eol => match s with [] => k bol s cap | _ :: _ => None end
  | Chr p =>
      match s with
      | c :: s' => if p c then k false s' cap else None
      | [] => None
      end
  | Cat r1 r2 => rmatch r1 bol s cap (fun b s' c => rmatch r2 b s' c k)
  | Alt r1 r2 =>
      match rmatch r1 bol s cap k with
      | Some a => Some a
      | None => rmatch r2 bol s cap k
      end
  | Rep p lo hi => rep p lo hi bol s (fun b s' => k b s' cap)
  | Cap r =>
      rmatch r bol s cap
        (fun b s' _ => k b s' (Some (firstn (length s - length s') s)))
  end.

(** The result of a successful match: the matched text and group 1. *)
Record match_result : Type := MatchResult {
  matched : jsstring;                   (* m[0] *)
  group1 : option jsstring              (* m[1] *)
}.

Definition match_at (r : regex) (bol : bool) (s : jsstring) : option match_result :=
  rmatch r bol s None
    (fun _ s' cap => Some (MatchResult (firstn (length s - length s') s) cap)).

Fixpoint search (r : regex) (bol : bool) (s : jsstring) : option match_result :=
  match match_at r bol s with
  | Some m => Some m
  | None =>
      match s with
      | [] => None
      | _ :: s' => search r false s'
      end
  end.

(** [s.match(r)] and [r.exec(s)] for a regex without the [g] flag. *)
Definition exec (r : regex) (s : jsstring) : option match_result := search r true s.

(** [r.test(s)]. *)
Definition test (r : regex) (s : jsstring) : bool :=
  match exec r s with
  | Some _ => true
  | None => false
  end.

(** *** Writing patterns *)

Definition seq (rs : list regex) : regex := fold_right Cat Eps rs.

Fixpoint times (n : nat) (r : regex) : regex :=
  match n with
  | O => Eps
  | S n' => Cat r (times n' r)
  end.

(** Canonicalisation of the [i] flag.  Without the [u] flag a code unit
    above 127 never canonicalises to an ASCII one, so against the ASCII
    patterns of [main.js] only the ASCII letters fold. *)
Definition canonicalize (c : N) : N := if is_lower c then (c - 32)%N else c.

Definition chr (c : N) : regex := Chr (N.eqb c).
Definition chri (c : N) : regex := Chr (fun x => (canonicalize x =? canonicalize c)%N).

(** A literal run of characters, case-sensitive and under the [i] flag. *)
Definition lit (s : string) : regex := seq (map chr (str s)).
Definition liti (s : string) : regex := seq (map chri (str s)).

Definition is_dot (c : N) : bool := negb (is_line_terminator c).   (* . *)

Definition star (p : N -> bool) : regex := Rep p 0 None.            (* p* *)
Definition plus (p : N -> bool) : regex := Rep p 1 None.            (* p+ *)

End Regex.

Import Regex.

Infix "<|>" := Alt (at level 51, right associativity).

(** ** The field normalizer: [renderLogCard] *)

Module Normalizer.

Definition ch (a : ascii) : regex := chr (N_of_ascii a).

(** [/^\d{1,3}(\.\d{1,3}){3}$/] *)
Definition re_ip_token : regex :=
  seq [Bol; Rep is_digit 1 (Some 3);
       times 3 (seq [ch "."; Rep is_digit 1 (Some 3)]); Eol].

(** [/^(GET|POST|PUT|DELETE|HEAD)$/i] *)
Definition re_method_token : regex :=
  seq [Bol;
       Cap (liti "GET" <|> liti "POST" <|> liti "PUT" <|> liti "DELETE" <|> liti "HEAD");
       Eol].

(** [/^[1-5]\d{2}$/] *)
Definition re_status_token : regex :=
  seq [Bol; Chr (in_range 49 53); Rep is_digit 2 (Some 2); Eol].

(** [/^[A-Z][a-z]+$/] *)
Definition re_country_token : regex :=
  seq [Bol; Chr is_upper; plus is_lower; Eol].

Definition not_quote (c : N) : bool := negb (c =? 39)%N.             (* [^'] *)

(** [/'Event ID':\s*'(\d+)'/] *)
Definition re_event_id : regex :=
  seq [lit "'Event ID':"; star is_space; ch "'"; Cap (plus is_digit); ch "'"].

(** [/'Source':\s*'(\d+)'/] *)
Definition re_source : regex :=
  seq [lit "'Source':"; star is_space; ch "'"; Cap (plus is_digit); ch "'"].

(** [/'Message':\s*'(Q)'/] where [Q] is the class [^'] starred *)
Definition re_message : regex :=
  seq [lit "'Message':"; star is_space; ch "'"; Cap (star not_quote); ch "'"].

(** [/'Task Category':\s*'(Q)'/], with the same [Q] *)
Definition re_task_category : regex :=
  seq [lit "'Task Category':"; star is_space; ch "'"; Cap (star not_quote); ch "'"].

(** The structured view a card shows.  [WebAccess] keeps the four tokens
    found by [parts.find] (which returns the token as it stands between the
    commas, untrimmed) and the colour of the status badge. *)
Inductive view : Type :=
| WebAccess (country ip method status : option jsstring)
    (statusColor : jsstring) (message : jsstring)
| WindowsEvent (eventId summary realText : jsstring)
| Generic (message : jsstring).

Definition WIN_EVENT_DESCRIPTIONS : list (jsstring * jsstring) :=
  [ (str "4624", str "Successful Logon");
    (str "4625", str "Failed Logon (Invalid Credentials)");
    (str "4634", str "Account Logged Off");
    (str "4648", str "Logon using explicit credentials");
    (str "4672", str "Special Privileges Assigned (Admin Login)");
    (str "4720", str "New User Account Created");
    (str "4722", str "User Account Enabled");
    (str "4723", str "User Account Password Change Attempt");
    (str "4724", str "User Account Password Reset Attempt");
    (str "4725", str "User Account Disabled");
    (str "4726", str "User Account Deleted");
    (str "4728", str "User added to Security-enabled Global Group");
    (str "4732", str "User added to Security-enabled Local Group") ].

Definition jsstring_eqb (a b : jsstring) : bool :=
  if list_eq_dec N.eq_dec a b then true else false.

(** Property lookup [table[key]]; [None] is [undefined]. *)
Fixpoint lookup (table : list (jsstring * jsstring)) (key : jsstring) : option jsstring :=
  match table with
  | [] => None
  | (k, v) :: table' => if jsstring_eqb k key then Some v else lookup table' key
  end.

(** [o || d] on strings. *)
Definition or_else (o : option jsstring) (d : jsstring) : jsstring :=
  match o with
  | Some (c :: s) => c :: s
  | _ => d
  end.

(** How template literals and [+] print a possibly undefined string. *)
Definition show (o : option jsstring) : jsstring :=
  match o with
  | Some s => s
  | None => str "undefined"
  end.

Inductive exn : Type := TypeError.

Inductive result (A : Type) : Type :=
| Ok (a : A)
| Throw (e : exn).
Arguments Ok {A} a.
Arguments Throw {A} e.

Definition find_ip (parts : list jsstring) : option jsstring :=
  find (fun p => test re_ip_token (trim p)) parts.

Definition find_method (parts : list jsstring) : option jsstring :=
  find (fun p => test re_method_token (trim p)) parts.

Definition find_status (parts : list jsstring) : option jsstring :=
  find (fun p => test re_status_token (trim p)) parts.

Definition is_country (p : jsstring) : bool :=
  test re_country_token (trim p) && (3 <? length p)%nat
  && negb (includes p (str "Chrome")) && negb (includes p (str "Safari")).

Definition find_country (parts : list jsstring) : option jsstring :=
  find is_country parts.

Definition status_color (status : option jsstring) : jsstring :=
  let c0 := str "secondary" in
  if truthy status then
    let s := show status in
    let c1 := if startsWith s (str "2") then str "success" else c0 in
    let c2 := if startsWith s (str "4") then str "warning" else c1 in
    if startsWith s (str "5") then str "danger" else c2
  else c0.

(** Lines 183-218: the comma branch.  [None] when control leaves the [if]
    without returning. *)
Definition web_access (message : jsstring) : option view :=
  if includes message (str ",") then
    let parts := split 44 message in
    let ip := find_ip parts in
    let method := find_method parts in
    let status := find_status parts in
    let country := find_country parts in
    if truthy ip || truthy method || truthy status then
      Some (WebAccess country ip method status (status_color status) message)
    else None
  else None.

(** Line 236: the guard of the Windows branch. *)
Definition windows_shaped (message : jsstring) : bool :=
  startsWith (trim message) (str "{'")
  && (includes message (str "Event ID") || includes message (str "'Source':")).

(** [taskRaw.replace(/\\r\\n/g, '\n').replace(/\\t/g, '    ').replace(/\\'/g, "'")];
    each pattern is a backslash followed by letters or a quote. *)
Definition unescape (taskRaw : jsstring) : jsstring :=
  replaceAll (92 :: str "'")%N (str "'")
    (replaceAll (92 :: str "t")%N (str "    ")
       (replaceAll ([92] ++ str "r" ++ [92] ++ str "n")%N [10%N] taskRaw)).

(** Lines 249-252: the description when the table has none. *)
Definition synthesize (eventId : option jsstring) (realText : jsstring) : jsstring :=
  let summary :=
    substring0 80 (hd [] (split 10 realText))
    ++ (if (80 <? length realText)%nat then str "..." else []) in
  match summary with
  | [] => str "Windows Event " ++ show eventId
  | _ :: _ =>
      if (length (trim summary) <? 5)%nat then str "Windows Event " ++ show eventId
      else summary
  end.

(** Lines 238-271: the body of the [try].  Calling [replace] on an
    undefined [taskRaw] is the one operation that can throw. *)
Definition windows_event (message : jsstring) : result view :=
  let eventIdMatch :=
    match exec re_event_id message with
    | Some m => Some m
    | None => exec re_source message
    end in
  let eventId :=
    match eventIdMatch with
    | Some m => group1 m
    | None => Some (str "Unknown")
    end in
  let taskMatch :=
    match exec re_message message with
    | Some m => Some m
    | None => exec re_task_category message
    end in
  let taskRaw :=
    match taskMatch with
    | Some m => group1 m
    | None => Some []
    end in
  let summary := or_else (lookup WIN_EVENT_DESCRIPTIONS (show eventId)) [] in
  match taskRaw with
  | None => Throw TypeError
  | Some raw =>
      let realText := unescape raw in
      let summary :=
        match summary with
        | [] => synthesize eventId realText
        | _ :: _ => summary
        end in
      Ok (WindowsEvent (show eventId) summary realText)
  end.

(** [try { ...; return v; } catch (e) { }] followed by [next]: an
    exception thrown by the body is swallowed and control goes on. *)
Definition try_return (body : result view) (next : view) : view :=
  match body with
  | Ok v => v
  | Throw _ => next
  end.

(** Lines 179-282. *)
Definition renderLogCard (message : jsstring) : view :=
  match web_access message with
  | Some v => v
  | None =>
      let generic := Generic message in
      if windows_shaped message
      then try_return (windows_event message) generic
      else generic
  end.

End Normalizer.

Import Normalizer.


(** ** The explanation and mitigation engines *)

Module Rules.

Record explanation_rule : Type := ExplanationRule {
  exp_regex : regex;
  exp_text : jsstring
}.

Record mitigation_rule : Type := MitigationRule {
  mit_regex : regex;
  mit_action : jsstring;
  mit_command : jsstring
}.

Definition ws : regex := star is_space.                              (* \s* *)

(** [/failed password|authentication failure|bad credentials/i] *)
Definition re_credentials : regex :=
  liti "failed password" <|> liti "authentication failure" <|> liti "bad credentials".

(** [/code\s*404|status\s*404/i] *)
Definition re_404 : regex :=
  seq [liti "code"; ws; liti "404"] <|> seq [liti "status"; ws; liti "404"].

(** [/user add|group add/i] *)
Definition re_account : regex := liti "user add" <|> liti "group add".

(** [/sudo|admin/i] *)
Definition re_sudo_admin : regex := liti "sudo" <|> liti "admin".

(** [/sql injection|union select|script>/i] *)
Definition re_injection : regex :=
  liti "sql injection" <|> liti "union select" <|> liti "script>".

(** The firewall command templates: [netsh advfirewall firewall add rule
    name=] the rule name between double quotes (code unit 34)
    [ dir=in action=block remoteip=]. *)
Definition netsh (name : string) : jsstring :=
  str "netsh advfirewall firewall add rule name=" ++ [34%N] ++ str name
  ++ [34%N] ++ str " dir=in action=block remoteip=".

Definition MITIGATION_MATRIC : list mitigation_rule :=
  [ MitigationRule re_credentials (str "Block IP") (netsh "Block IP");
    MitigationRule re_404 (str "Block Scanning IP") (netsh "Block Scanner");
    MitigationRule re_account (str "Review Privileges") (str "netplwiz");
    MitigationRule re_sudo_admin (str "Audit Session") (str "query user");
    MitigationRule re_injection (str "Block Web Attack") (netsh "Block SQLi") ].

(** [/code\s*404|status\s*404|http\/1\.\dQ\s*404/i], [Q] the double quote *)
Definition re_scan : regex :=
  seq [liti "code"; ws; liti "404"] <|> seq [liti "status"; ws; liti "404"]
  <|> seq [liti "http/1."; Chr is_digit; chr 34; ws; liti "404"].

(** [/code\s*500|status\s*500/i] *)
Definition re_500 : regex :=
  seq [liti "code"; ws; liti "500"] <|> seq [liti "status"; ws; liti "500"].

(** [/segmentation fault|segfault/i] *)
Definition re_segfault : regex := liti "segmentation fault" <|> liti "segfault".

(** [/connection refused|connection timed out/i] *)
Definition re_network : regex :=
  liti "connection refused" <|> liti "connection timed out".

(** [/usb.*scan/i] *)
Definition re_usb : regex := seq [liti "usb"; star is_dot; liti "scan"].

(** [/sudo/i] *)
Definition re_sudo : regex := liti "sudo".

Definition EXPLANATIONS : list explanation_rule :=
  [ ExplanationRule re_scan
      ([55357; 56589]%N ++ str " Web Scanning: The visitor is looking for files that do not exist (e.g., trying to find admin pages).");
    ExplanationRule re_500 (str "Internal Server Error (Crash or Bug).");
    ExplanationRule re_credentials
      ([55357; 56481]%N ++ str " Possible Brute Force Attempt: Someone is failing to login.");
    ExplanationRule re_segfault
      ([55357; 56485]%N ++ str " Critical Error: A program crashed due to memory issues.");
    ExplanationRule re_network (str "Network Error: Server is blocking requests or is down.");
    ExplanationRule re_usb (str "Hardware Event: USB Device scanning.");
    ExplanationRule re_account
      ([9888; 65039]%N ++ str " Account Change: A new user or group was created.");
    ExplanationRule re_sudo (str "Admin Action: Someone executed a Super-User command.") ].

(** Lines 349-355: [for (const exp of rules) if (exp.regex.test(message)) { ...; break; }].
    [None] is the initial empty string. *)
Fixpoint find_explanation (rules : list explanation_rule) (message : jsstring)
  : option jsstring :=
  match rules with
  | [] => None
  | exp :: rules' =>
      if test (exp_regex exp) message then Some (exp_text exp)
      else find_explanation rules' message
  end.

(** [/\d{1,3}(\.\d{1,3}){3}/] *)
Definition re_ip : regex :=
  seq [Rep is_digit 1 (Some 3); times 3 (seq [ch "."; Rep is_digit 1 (Some 3)])].

(** What a mitigation block shows: the action and the command. *)
Record mitigation : Type := Mitigation {
  action : jsstring;
  command : jsstring
}.

(** Lines 361-364: the command of a matched rule. *)
Definition build_command (mit : mitigation_rule) (message : jsstring) : jsstring :=
  let cmd := mit_command mit in
  match exec re_ip message with
  | Some ipMatch => cmd ++ matched ipMatch
  | None => cmd
  end.

(** Lines 357-379. *)
Fixpoint find_mitigation (rules : list mitigation_rule) (message : jsstring)
  : option mitigation :=
  match rules with
  | [] => None
  | mit :: rules' =>
      if test (mit_regex mit) message
      then Some (Mitigation (mit_action mit) (build_command mit message))
      else find_mitigation rules' message
  end.

Definition explain (message : jsstring) : option jsstring :=
  find_explanation EXPLANATIONS message.

Definition mitigate (message : jsstring) : option mitigation :=
  find_mitigation MITIGATION_MATRIC message.

End Rules.

Import Rules.


(** ** Scores and severity *)

Module Severity.

(** A score field as JSON decodes it: missing, [null] or a number. *)
Inductive jsval : Type :=
| JUndefined
| JNull
| JNum (q : Q).

(** The double that the literal [0.8] denotes, and [0.5], which is exact. *)
Definition lit_0_8 : Q := 3602879701896397 # 4503599627370496.
Definition lit_0_5 : Q := 1 # 2.

(** ToNumber; [None] is NaN. *)
Definition to_number (v : jsval) : option Q :=
  match v with
  | JUndefined => None
  | JNull => Some 0%Q
  | JNum q => Some q
  end.

Definition Qltb (a b : Q) : bool := negb (Qle_bool b a).

(** [v > c] for a numeric literal [c]; a comparison with NaN is false. *)
Definition gt (v : jsval) (c : Q) : bool :=
  match to_number v with
  | Some q => Qltb c q
  | None => false
  end.

Definition is_undefined (v : jsval) : bool :=
  match v with JUndefined => true | _ => false end.

Definition is_null (v : jsval) : bool :=
  match v with JNull => true | _ => false end.

Inductive severity : Type := High | Medium | Low | Pending.

(** Lines 404-408 of [updateLevelChart]: the band a score is counted in. *)
Definition classify (score : jsval) : severity :=
  if negb (is_null score) && negb (is_undefined score) then
    if gt score lit_0_8 then High
    else if gt score lit_0_5 then Medium
    else Low
  else Pending.

Record log : Type := Log {
  anomaly_score : jsval;
  log_score : jsval                                   (* l.score *)
}.

(** Line 403: [l.anomaly_score !== undefined ? l.anomaly_score : l.score]. *)
Definition score_of (l : log) : jsval :=
  if negb (is_undefined (anomaly_score l)) then anomaly_score l else log_score l.

Record counts : Type := Counts {
  nHigh : nat;
  nMedium : nat;
  nLow : nat;
  nPending : nat
}.

Definition bump (c : counts) (s : severity) : counts :=
  match s with
  | High => Counts (S (nHigh c)) (nMedium c) (nLow c) (nPending c)
  | Medium => Counts (nHigh c) (S (nMedium c)) (nLow c) (nPending c)
  | Low => Counts (nHigh c) (nMedium c) (S (nLow c)) (nPending c)
  | Pending => Counts (nHigh c) (nMedium c) (nLow c) (S (nPending c))
  end.

(** Lines 397-409, the array branch of [updateLevelChart]. *)
Definition level_counts (logs : list log) : counts :=
  fold_left (fun c l => bump c (classify (score_of l))) logs (Counts 0 0 0 0).

(** Lines 341-344 of [updateAnomalyList]: colour and label of the badge. *)
Definition sev_badge (score : jsval) : jsstring * jsstring :=
  if gt score lit_0_8 then (str "danger", str "HIGH")
  else if gt score lit_0_5 then (str "warning", str "MEDIUM")
  else (str "info", str "Low").

Definition sevColor (score : jsval) : jsstring := fst (sev_badge score).
Definition sevLabel (score : jsval) : jsstring := snd (sev_badge score).

End Severity.

Import Severity.

(** ** The page: alerts and the anomaly list *)

Module Page.

Record notification : Type := Notification {
  title : jsstring;
  body : jsstring
}.

(** One [<li>] of the anomaly list. *)
Record item : Type := Item {
  item_color : jsstring;                 (* ${sevColor} *)
  item_label : jsstring;                 (* ${sevLabel} *)
  item_score : Q;                        (* the number shown with toFixed(2) *)
  item_card : view;                      (* ${displayMsg} *)
  item_explanation : option jsstring;    (* ${explanation} *)
  item_mitigation : option mitigation    (* ${mitigation} *)
}.

(** What the handlers read and write: the [alertsEnabled] flag, the
    notifications shown so far (oldest first), and the children of the
    element with id [anomalyList] ([None] when the page has no such
    element). *)
Record page : Type := PageState {
  alertsEnabled : bool;
  notifications : list notification;
  anomalyList : option (list item)
}.

(** A computation on the page that returns or throws; what it did to the
    page before throwing stays done. *)
Definition M (A : Type) : Type := page -> result A * page.

Definition ret (A : Type) (a : A) : M A := fun p => (Ok a, p).

Definition bind (A B : Type) (m : M A) (f : A -> M B) : M B :=
  fun p =>
    match m p with
    | (Ok a, p') => f a p'
    | (Throw e, p') => (Throw e, p')
    end.

Definition throw (A : Type) (e : exn) : M A := fun p => (Throw e, p).
Arguments throw {A} e.

Notation "x <- m ;; f" := (bind m (fun x => f))
  (at level 61, m at next level, right associativity).
Notation "m ;; f" := (bind m (fun _ => f))
  (at level 61, right associativity).

(** Lines 30-34. *)
Definition sendAlert (title message : jsstring) : M unit :=
  fun p =>
    if alertsEnabled p then
      (Ok tt, PageState (alertsEnabled p)
                (notifications p ++ [Notification title message])
                (anomalyList p))
    else (Ok tt, p).

(** [array.forEach(f)]. *)
Fixpoint forEach (A : Type) (f : A -> M unit) (l : list A) : M unit :=
  match l with
  | [] => ret tt
  | a :: l' => f a ;; forEach f l'
  end.

Record anomaly : Type := Anomaly {
  id : N;
  message : jsstring;
  score : jsval
}.

Definition set_children (items : list item) : M unit :=
  fun p => (Ok tt, PageState (alertsEnabled p) (notifications p) (Some items)).

Definition children (p : page) : list item :=
  match anomalyList p with
  | Some l => l
  | None => []
  end.

(** [ul.appendChild(li)]; [ul] is known to exist where it is called. *)
Definition appendChild (li : item) : M unit :=
  fun p =>
    (Ok tt, PageState (alertsEnabled p) (notifications p) (Some (children p ++ [li]))).

(** [a.score.toFixed(2)]: a property access on [null] or [undefined] throws. *)
Definition toFixed_receiver (v : jsval) : result Q :=
  match v with
  | JNum q => Ok q
  | _ => Throw TypeError
  end.

(** The [<li>] built for an anomaly whose score is the number [q]. *)
Definition item_of (a : anomaly) (q : Q) : item :=
  let displayMsg := renderLogCard (message a) in
  let explanation := explain (message a) in
  let mitigation := mitigate (message a) in
  Item (sevColor (score a)) (sevLabel (score a)) q displayMsg explanation mitigation.

(** Lines 339-392: the body of the [forEach] callback.  The template of
    [li.innerHTML] is evaluated before [appendChild] is reached. *)
Definition render_item (a : anomaly) : M unit :=
  match toFixed_receiver (score a) with
  | Ok q => appendChild (item_of a q)
  | Throw e => throw e
  end.

Definition decimal (n : nat) : jsstring :=
  str (NilEmpty.string_of_uint (Nat.to_uint n)).

Definition high_title : jsstring := str "High Severity Detected".

Definition high_body (n : nat) : jsstring :=
  str "Found " ++ decimal n ++ str " critical anomalies in the latest analysis.".

Definition criticals (anoms : list anomaly) : list anomaly :=
  filter (fun a => gt (score a) lit_0_8) anoms.

(** [anoms.slice(0, 50)]. *)
Definition slice_0_50 (anoms : list anomaly) : list anomaly := firstn 50 anoms.

(** Lines 327-394. *)
Definition updateAnomalyList (anoms : list anomaly) : M unit :=
  fun p =>
    match anomalyList p with
    | None => (Ok tt, p)                               (* if (!ul) return; *)
    | Some _ =>
        (set_children [] ;;
         (if (0 <? length (criticals anoms))%nat
          then sendAlert high_title (high_body (length (criticals anoms)))
          else ret tt) ;;
         forEach render_item (slice_0_50 anoms)) p
    end.

(** The button a mitigation block carries. *)
Record button : Type := Button {
  textContent : jsstring;
  disabled : bool;
  className : jsstring
}.

Definition containment_title : jsstring := str "Containment Action Success".

Definition containment_body (action : jsstring) : jsstring :=
  str "Successfully executed: " ++ action.

(** Lines 305-325, the [onclick] handler of the Execute button, run to
    completion: the final state of the button and the alert it raises.
    The check mark of the final caption is U+2714. *)
Definition simulateContainment (action : jsstring) (btn : button) : M button :=
  sendAlert containment_title (containment_body action) ;;
  ret (Button ([10004%N] ++ str " Applied") true (str "btn btn-xs btn-success shadow-sm")).

End Page.

Import Page.

(** ** The scheduler form: [startSchedule] *)

Module Schedule.

(** A JavaScript number: what [Number(field.value)] can be. *)
Inductive jsnumber : Type :=
| NaN
| PosInf
| NegInf
| Fin (q : Q).

(** [n || d]: zero and NaN are falsy. *)
Definition or_number (n d : jsnumber) : jsnumber :=
  match n with
  | NaN => d
  | Fin q => if Qeq_bool q 0 then d else n
  | _ => n
  end.

(** [n < c] for a finite literal [c]. *)
Definition lt (n : jsnumber) (c : Q) : bool :=
  match n with
  | NaN => false
  | PosInf => false
  | NegInf => true
  | Fin q => Qltb q c
  end.

(** [JSON.stringify] of a number: a non-finite number is written [null]. *)
Inductive json : Type :=
| JsonNumber (q : Q)
| JsonNull.

Definition stringify (n : jsnumber) : json :=
  match n with
  | Fin q => JsonNumber q
  | _ => JsonNull
  end.

(** Lines 508-510: the interval after the default and the clamp. *)
Definition effective_interval (schedInterval : jsnumber) : jsnumber :=
  let interval := or_number schedInterval (Fin 300) in
  if lt interval 30 then Fin 30 else interval.

Record start_request : Type := StartRequest {
  interval_sec : json;
  max_items : json
}.

(** Line 511: the body posted to [/api/schedule/start].  The arguments are
    the numeric readings [Number(...)] of the two form fields. *)
Definition startSchedule (schedInterval schedMaxItems : jsnumber) : start_request :=
  StartRequest (stringify (effective_interval schedInterval))
               (stringify (or_number schedMaxItems (Fin 1000))).

End Schedule.

Import Schedule.

(** ** What the properties are stated with *)

Module Spec.

(** *** Lists and options *)

Definition is_nil (s : jsstring) : bool :=
  match s with
  | [] => true
  | _ :: _ => false
  end.

Definition is_some (T : Type) (o : option T) : bool :=
  match o with
  | Some _ => true
  | None => false
  end.

(** [x] is the first element of [l] that satisfies [f]. *)
Definition first_such (T : Type) (f : T -> bool) (l : list T) (x : T) : Prop :=
  exists pre post, l = pre ++ x :: post
    /\ Forall (fun y => f y = false) pre /\ f x = true.

(** *** What a pattern matches *)

(** [matches r bol s1 s2]: the pattern [r] can match the text [s1] when
    [s2] is what follows it in the input and [bol] tells whether [s1]
    begins at the start of the input. *)
Fixpoint matches (r : regex) (bol : bool) (s1 s2 : jsstring) : Prop :=
  match r with
  | Eps => s1 = []
  | Bol => s1 = [] /\ bol = true
  | Eol => s1 = [] /\ s2 = []
  | Chr p => exists c, s1 = [c] /\ p c = true
  | Cat r1 r2 =>
      exists a b, s1 = a ++ b /\ matches r1 bol a (b ++ s2)
                  /\ matches r2 (bol && is_nil a) b s2
  | Alt r1 r2 => matches r1 bol s1 s2 \/ matches r2 bol s1 s2
  | Rep p lo hi =>
      forallb p s1 = true /\ lo <= length s1
      /\ (forall h, hi = Some h -> length s1 <= h)
  | Cap r => matches r bol s1 s2
  end.

(** A pattern in which every successful match goes through the group. *)
Fixpoint sets_cap (r : regex) : bool :=
  match r with
  | Cap _ => true
  | Cat r1 r2 => sets_cap r1 || sets_cap r2
  | Alt r1 r2 => sets_cap r1 && sets_cap r2
  | _ => false
  end.

(** *** Dotted quads *)

Definition octet_re : regex := Rep is_digit 1 (Some 3).       (* \d{1,3} *)

(** One to three decimal digits. *)
Definition octet (s : jsstring) : Prop :=
  forallb is_digit s = true /\ 1 <= length s <= 3.

(** A dotted quad: four groups of one to three digits separated by dots. *)
Definition dotted_quad (s : jsstring) : Prop :=
  exists a b c d,
    s = a ++ [46%N] ++ b ++ [46%N] ++ c ++ [46%N] ++ d
    /\ octet a /\ octet b /\ octet c /\ octet d.

Definition has_dotted_quad (m : jsstring) : Prop :=
  exists before q after, m = before ++ q ++ after /\ dotted_quad q.

(** [q] is the first dotted quad of [m]: no dotted quad of [m] starts
    further left, and none that starts at the same place is longer. *)
Definition first_dotted_quad (m before q after : jsstring) : Prop :=
  m = before ++ q ++ after /\ dotted_quad q
  /\ forall before' q' after',
       m = before' ++ q' ++ after' -> dotted_quad q' ->
       length before <= length before'
       /\ (length before' = length before -> length q' <= length q).

(** *** Descriptions and tokens *)

(** The first line of the text, cut at 80 characters. *)
Definition first_line_80 (realText : jsstring) : jsstring :=
  substring0 80 (hd [] (split 10 realText)).

(** The first line was cut: it is longer than 80 characters. *)
Definition first_line_truncated (realText : jsstring) : bool :=
  (80 <? length (hd [] (split 10 realText)))%nat.

(** A capital letter followed by one or more small letters. *)
Definition capitalized_word (t : jsstring) : Prop :=
  exists u rest, t = u :: rest /\ is_upper u = true
    /\ rest <> [] /\ forallb is_lower rest = true.

(** *** The page *)

(** The item [it] shows the anomaly [a]. *)
Definition shown_as (a : anomaly) (it : item) : Prop :=
  exists q, score a = JNum q /\ it = item_of a q.

(** The alert that an analysis of [anoms] raises on the page [p]. *)
Definition high_alerts (p : page) (anoms : list anomaly) : list notification :=
  if alertsEnabled p && (0 <? length (criticals anoms))%nat
  then [Notification high_title (high_body (length (criticals anoms)))]
  else [].

Definition severity_eqb (a b : severity) : bool :=
  match a, b with
  | High, High | Medium, Medium | Low, Low | Pending, Pending => true
  | _, _ => false
  end.

(** The number of logs that fall in the band [s]. *)
Definition in_band (s : severity) (logs : list log) : nat :=
  length (filter (fun l => severity_eqb (classify (score_of l)) s) logs).

(** *** Inputs of the examples *)

Definition msg_4625 : jsstring := str "{'Event ID': '4625', 'Message': 'bad login'}".

(** A Windows event whose text has two lines; the message holds the line
    break as the escape backslash r backslash n. *)
Definition msg_two_lines : jsstring :=
  str "{'Event ID': '9999', 'Message': 'Logon failed\r\nSubject: the account name and the domain of the workstation that sent the request'}".

Definition text_two_lines : jsstring :=
  str "Logon failed" ++ [10%N]
  ++ str "Subject: the account name and the domain of the workstation that sent the request".

Definition msg_padded_country : jsstring := str "10.0.0.1, GET, 200, Usa".

Definition msg_sudo_user_add : jsstring := str "sudo user add bob".

Definition page_alerts_on : page := PageState true [] (Some []).

Definition batch_sudo : list anomaly :=
  [Anomaly 1 (str "sudo rm -rf /tmp/x") (JNum (6 # 10))].

(** Fifty anomalies of medium severity followed by one of high severity. *)
Definition batch_51 : list anomaly :=
  repeat (Anomaly 1 (str "disk quota warning") (JNum (6 # 10))) 50
  ++ [Anomaly 2 (str "failed password for root") (JNum (9 # 10))].

End Spec.

Import Spec.

(** ** The severity chart: the rest of [updateLevelChart] *)

Module Chart.

(** What [updateLevelChart] is given: the logs of the page, the counts
    computed by the server (an object, its keys in order), or neither. *)
Inductive chart_arg : Type :=
| ArgLogs (logs : list log)
| ArgStats (stats : list (jsstring * nat))
| ArgOther.

Definition counts_object (c : counts) : list (jsstring * nat) :=
  [ (str "High", nHigh c); (str "Medium", nMedium c);
    (str "Low", nLow c); (str "Pending", nPending c) ].

(** [counts[k]]; [None] is [undefined]. *)
Fixpoint get (o : list (jsstring * nat)) (k : jsstring) : option nat :=
  match o with
  | [] => None
  | (k', n) :: o' => if jsstring_eqb k' k then Some n else get o' k
  end.

(** [counts[k] || 0]. *)
Definition get0 (o : list (jsstring * nat)) (k : jsstring) : nat :=
  match get o k with
  | Some n => n
  | None => 0
  end.

Definition colorMap : list (jsstring * jsstring) :=
  [ (str "High", str "#dc3545"); (str "Medium", str "#ffc107");
    (str "Low", str "#0dcaf0"); (str "Pending", str "#adb5bd") ].

(** What the card shows: the no-data text, or the three badges of the
    summary and the doughnut described by its labels, data and colours. *)
Inductive level_view : Type :=
| NoData
| Doughnut (high medium low : nat)
    (labels : list jsstring) (data : list nat) (colors : list jsstring).

(** Lines 396-470.  Every write is guarded by the presence of its element;
    the values are those written when the elements are there. *)
Definition updateLevelChart (statsOrLogs : chart_arg) : level_view :=
  let counts :=
    match statsOrLogs with
    | ArgLogs logs => counts_object (level_counts logs)
    | ArgStats stats => stats
    | ArgOther => counts_object (Counts 0 0 0 0)
    end in
  let total :=
    get0 counts (str "High") + get0 counts (str "Medium")
    + get0 counts (str "Low") + get0 counts (str "Pending") in
  if (total =? 0)%nat then NoData
  else
    let labels :=
      filter (fun k => (0 <? get0 counts k)%nat || negb (jsstring_eqb k (str "Pending")))
        (map fst counts) in
    let data := map (get0 counts) labels in
    Doughnut (get0 counts (str "High")) (get0 counts (str "Medium"))
      (get0 counts (str "Low")) labels data
      (map (fun l => or_else (lookup colorMap l) (str "#000")) labels).

End Chart.

Import Chart.

(** ** The scheduler panel: [startSchedule], [stopSchedule], [getScheduleStatus] *)

Module Poller.

(** [r.last_result] of a status reply. *)
Record last_result : Type := LastResult {
  collected : jsval;
  trained : jsval;
  elapsed_sec : jsval
}.

(** The text of [schedLastResult], by its interpolated values; the
    elapsed time is shown with [toFixed(1)]. *)
Record shown_result : Type := ShownResult {
  shown_collected : jsval;
  shown_trained : jsval;
  shown_elapsed : Q
}.

(** The panel: the text of [schedStatus] and of [schedLastResult]
    ([None] when the page has no such element), the variable
    [schedulePoller], the intervals that the panel has started and not
    cleared, the next timer id, and the messages shown by [alert]. *)
Record panel : Type := Panel {
  schedStatus : option jsstring;
  schedLastResult : option (option shown_result);
  schedulePoller : option nat;
  timers : list nat;
  next_timer : nat;
  alerts : list jsstring
}.

(** Truthiness of [schedulePoller]: [null] and 0 are falsy. *)
Definition polling (p : panel) : bool :=
  match schedulePoller p with
  | Some (S _) => true
  | _ => false
  end.

Definition set_status (text : jsstring) (p : panel) : panel :=
  Panel (match schedStatus p with Some _ => Some text | None => None end)
    (schedLastResult p) (schedulePoller p) (timers p) (next_timer p) (alerts p).

(** [schedulePoller = setInterval(getScheduleStatus, 30000)]. *)
Definition start_polling (p : panel) : panel :=
  Panel (schedStatus p) (schedLastResult p) (Some (next_timer p))
    (timers p ++ [next_timer p]) (S (next_timer p)) (alerts p).

(** [clearInterval(schedulePoller); schedulePoller = null]. *)
Definition stop_polling (p : panel) : panel :=
  match schedulePoller p with
  | Some i =>
      Panel (schedStatus p) (schedLastResult p) None
        (filter (fun j => negb (j =? i)%nat) (timers p)) (next_timer p) (alerts p)
  | None => p
  end.

Definition alert (text : jsstring) (p : panel) : panel :=
  Panel (schedStatus p) (schedLastResult p) (schedulePoller p) (timers p)
    (next_timer p) (alerts p ++ [text]).

(** Line 540, [pollScheduleStatus]: the status request it sends is
    answered later, by a [StatusReply]. *)
Definition pollScheduleStatus (p : panel) : panel :=
  if negb (polling p) then start_polling p else p.

(** Lines 512-515: [startSchedule] after the reply [r] of the server. *)
Definition start_reply (started running : bool) (p : panel) : panel :=
  if started || running then pollScheduleStatus (set_status (str "Running") p)
  else alert (str "Failed to start scheduler") p.

(** Lines 520-523: [stopSchedule] after the reply. *)
Definition stop_reply (stopped : bool) (p : panel) : panel :=
  if stopped then
    let p1 := set_status (str "Stopped") p in
    if polling p1 then stop_polling p1 else p1
  else p.

(** Lines 531-535: the line of the last result.  It is written when the
    element and the result are there; [toFixed] throws when the result has
    no numeric [elapsed_sec]. *)
Definition show_last_result (lr : option last_result) (p : panel) : result panel :=
  match schedLastResult p, lr with
  | Some _, Some r =>
      match elapsed_sec r with
      | JNum q =>
          Ok (Panel (schedStatus p)
                (Some (Some (ShownResult (collected r) (trained r) q)))
                (schedulePoller p) (timers p) (next_timer p) (alerts p))
      | _ => Throw TypeError
      end
  | _, _ => Ok p
  end.

(** Lines 528-538: [getScheduleStatus] after the reply; an exception
    leaves the function through the empty [catch]. *)
Definition status_reply (running : bool) (lr : option last_result) (p : panel) : panel :=
  let p1 := set_status (if running then str "Running" else str "Stopped") p in
  match show_last_result lr p1 with
  | Ok p2 => if running && negb (polling p2) then start_polling p2 else p2
  | Throw _ => p1
  end.

(** What happens to the panel: a reply to one of the three requests, or
    a status request that fails, which the [catch] swallows. *)
Inductive event : Type :=
| StartReply (started running : bool)
| StopReply (stopped : bool)
| StatusReply (running : bool) (lr : option last_result)
| StatusFailed.

Definition step (p : panel) (e : event) : panel :=
  match e with
  | StartReply started running => start_reply started running p
  | StopReply stopped => stop_reply stopped p
  | StatusReply running lr => status_reply running lr p
  | StatusFailed => p
  end.

Definition run (es : list event) (p : panel) : panel := fold_left step es p.

(** The panel when the page is loaded: nothing polls; timer ids are
    positive. *)
Definition fresh (p : panel) : Prop :=
  schedulePoller p = None /\ timers p = [] /\ 1 <= next_timer p.

(** The form of [startSchedule], line 510: the field after the click.  The
    field is rewritten, to 30, only when the interval was clamped. *)
Definition schedInterval_after (schedInterval : jsnumber) : jsnumber :=
  let interval := or_number schedInterval (Fin 300) in
  if lt interval 30 then Fin 30 else schedInterval.

End Poller.

Import Poller.

(** ** The incident table: [loadIncidents] *)

Module Workflow.

(** The button of the last column of an incident row, by its class, the
    stage that its [advanceIncident(id, stage)] asks for and its caption. *)
Record action_button : Type := ActionButton {
  btn_class : jsstring;
  btn_target : jsstring;
  btn_caption : jsstring
}.

(** Lines 641-649: the button for an incident whose [current_stage] is
    [stage]; [None] is the empty text.  A [current_stage] that is not a
    string is strictly equal to none of the three literals, as a string
    that is none of them. *)
Definition actionBtn (stage : jsstring) : option action_button :=
  if jsstring_eqb stage (str "Detection")
  then Some (ActionButton (str "btn-info") (str "Analysis") (str "Start Analysis"))
  else if jsstring_eqb stage (str "Analysis")
  then Some (ActionButton (str "btn-warning") (str "Containment") (str "Contain"))
  else if jsstring_eqb stage (str "Containment")
  then Some (ActionButton (str "btn-primary") (str "Recovery") (str "Recover"))
  else None.

(** The lifecycle, in order. *)
Definition STAGES : list jsstring :=
  [str "Detection"; str "Analysis"; str "Containment"; str "Recovery"].

(** The stage that follows [s] in a list of stages. *)
Fixpoint successor (stages : list jsstring) (s : jsstring) : option jsstring :=
  match stages with
  | a :: ((b :: _) as rest) => if jsstring_eqb a s then Some b else successor rest s
  | _ => None
  end.

(** The stage an incident is in after [n] clicks on the button offered,
    the server setting the stage asked for; [None] once no button is
    offered. *)
Fixpoint follow (n : nat) (stage : jsstring) : option jsstring :=
  match n with
  | O => Some stage
  | S n' =>
      match actionBtn stage with
      | Some b => follow n' (btn_target b)
      | None => None
      end
  end.

End Workflow.

Import Workflow.

(** ** The alerts button, lines 8-28 *)

Module Alerts.

(** [classList.replace(old, new)] on an ordered set of tokens: nothing
    when [old] is absent; otherwise the first of [old] and [new] becomes
    [new] and their other instances go. *)
Fixpoint replace_within (placed : bool) (old new : jsstring) (l : list jsstring)
  : list jsstring :=
  match l with
  | [] => []
  | t :: l' =>
      if jsstring_eqb t old || jsstring_eqb t new then
        if placed then replace_within true old new l'
        else new :: replace_within true old new l'
      else t :: replace_within placed old new l'
  end.

Definition classList_replace (old new : jsstring) (l : list jsstring) : list jsstring :=
  if existsb (jsstring_eqb old) l then replace_within false old new l else l.

Record alerts_button : Type := AlertsButton {
  caption : jsstring;
  classList : list jsstring
}.

Definition caption_enabled : jsstring := [55357; 56596]%N ++ str " Alerts Enabled".
Definition caption_disabled : jsstring := [55357; 56597]%N ++ str " Enable Alerts".

Definition alerts_active : notification :=
  Notification (str "Alerts Active")
    (str "You will now receive notifications for high-severity anomalies.").

(** The click handler; [permission] is what [Notification.requestPermission]
    resolves to, asked only when alerts are off. *)
Definition enableAlerts_click (permission : jsstring) (st : page * alerts_button)
  : page * alerts_button :=
  let (p, btn) := st in
  if negb (alertsEnabled p) then
    if jsstring_eqb permission (str "granted") then
      let p1 := PageState true (notifications p) (anomalyList p) in
      let btn1 :=
        AlertsButton caption_enabled
          (classList_replace (str "btn-outline-primary") (str "btn-success") (classList btn)) in
      (snd (sendAlert (title alerts_active) (body alerts_active) p1), btn1)
    else (p, btn)
  else
    (PageState false (notifications p) (anomalyList p),
     AlertsButton caption_disabled
       (classList_replace (str "btn-success") (str "btn-outline-primary") (classList btn))).

Definition clicks (permissions : list jsstring) (st : page * alerts_button)
  : page * alerts_button :=
  fold_left (fun st perm => enableAlerts_click perm st) permissions st.

End Alerts.

Import Alerts.

(** ** The details toggle: [toggleDetails] *)

Module Details.

(** [classList.contains], [classList.add] and [classList.remove] on an
    ordered set of tokens. *)
Definition classList_contains (t : jsstring) (l : list jsstring) : bool :=
  existsb (jsstring_eqb t) l.

Definition classList_add (t : jsstring) (l : list jsstring) : list jsstring :=
  if classList_contains t l then l else l ++ [t].

Definition classList_remove (t : jsstring) (l : list jsstring) : list jsstring :=
  filter (fun u => negb (jsstring_eqb t u)) l.

(** What [toggleDetails(btn)] reads and writes: the text and the classes
    of [btn], and the classes of [detailsDiv], the first element of class
    [raw-details] in the list item around [btn].  The list item is built
    from the message by [innerHTML], so that element need not be the block
    the card ends with: it can be any element that the message carries,
    and there may be none.
    - [NoDetails]: no list item around the button, or no such element in it;
    - [Same t c]: the element is the button, of text [t] and classes [c];
    - [Nested d t b next]: the element, of classes [d], is inside the
      button, of text [t] and classes [b]; [next] holds the classes of the
      first such element of the item outside the button, if any;
    - [Distinct d t b]: the element, of classes [d], is neither the button
      nor inside it. *)
Inductive details_state : Type :=
| NoDetails
| Same (btnText : jsstring) (classes : list jsstring)
| Nested (detailsClasses : list jsstring) (btnText : jsstring)
    (btnClasses : list jsstring) (next : option (list jsstring))
| Distinct (detailsClasses : list jsstring) (btnText : jsstring)
    (btnClasses : list jsstring).

(** Lines 161-176.  On [NoDetails] the property access on [null] throws
    (line 163 or 165) before anything is written.  Writing [textContent]
    replaces the children of the button: a details element inside it
    leaves the list item. *)
Definition toggleDetails (st : details_state) : result details_state :=
  match st with
  | NoDetails => Throw TypeError
  | Same t c =>
      if classList_contains (str "d-none") c then
        Ok (Same (str "Hide Details")
              (classList_add (str "btn-secondary")
                 (classList_remove (str "btn-outline-secondary")
                    (classList_remove (str "d-none") c))))
      else
        Ok (Same (str "Details")
              (classList_remove (str "btn-secondary")
                 (classList_add (str "btn-outline-secondary")
                    (classList_add (str "d-none") c))))
  | Nested d t b next =>
      let t' := if classList_contains (str "d-none") d
                then str "Hide Details" else str "Details" in
      let b' := if classList_contains (str "d-none") d
                then classList_add (str "btn-secondary")
                       (classList_remove (str "btn-outline-secondary") b)
                else classList_remove (str "btn-secondary")
                       (classList_add (str "btn-outline-secondary") b) in
      match next with
      | Some d' => Ok (Distinct d' t' b')
      | None => Ok NoDetails
      end
  | Distinct d t b =>
      if classList_contains (str "d-none") d then
        Ok (Distinct (classList_remove (str "d-none") d)
              (str "Hide Details")
              (classList_add (str "btn-secondary")
                 (classList_remove (str "btn-outline-secondary") b)))
      else
        Ok (Distinct (classList_add (str "d-none") d)
              (str "Details")
              (classList_remove (str "btn-secondary")
                 (classList_add (str "btn-outline-secondary") b)))
  end.

(** [n] clicks on the button; a click that throws changes nothing, and
    so do the clicks after it. *)
Fixpoint toggles (n : nat) (st : details_state) : result details_state :=
  match n with
  | O => Ok st
  | S n' =>
      match toggleDetails st with
      | Ok st' => toggles n' st'
      | Throw e => Throw e
      end
  end.

(** The classes of the details element, the classes and the text of the
    button. *)
Definition details_classes (st : details_state) : list jsstring :=
  match st with
  | NoDetails => []
  | Same _ c => c
  | Nested d _ _ _ => d
  | Distinct d _ _ => d
  end.

Definition button_classes (st : details_state) : list jsstring :=
  match st with
  | NoDetails => []
  | Same _ c => c
  | Nested _ _ b _ => b
  | Distinct _ _ b => b
  end.

Definition button_text (st : details_state) : jsstring :=
  match st with
  | NoDetails => []
  | Same t _ => t
  | Nested _ t _ _ => t
  | Distinct _ t _ => t
  end.

(** The item has a details element, and it is not inside the button: a
    click leaves it in the item. *)
Definition settled (st : details_state) : bool :=
  match st with
  | Same _ _ | Distinct _ _ _ => true
  | NoDetails | Nested _ _ _ _ => false
  end.

(** The details element is not shown. *)
Definition hidden (st : details_state) : bool :=
  classList_contains (str "d-none") (details_classes st).

(** One of the three classes that [toggleDetails] adds and removes. *)
Definition toggled_class (t : jsstring) : Prop :=
  t = str "d-none" \/ t = str "btn-outline-secondary" \/ t = str "btn-secondary".

End Details.

Import Details.

(** ** The log pane: [loadLogs] and the level filter *)

Module LogPane.

Record log_line : Type := LogLine {
  ts : option jsstring;
  level : option jsstring;
  line_message : jsstring;
  scores : log
}.

(** [(l.ts || '') + ' ' + (l.level || '') + ' ' + l.message] *)
Definition format_line (l : log_line) : jsstring :=
  or_else (ts l) [] ++ str " " ++ or_else (level l) [] ++ str " " ++ line_message l.

(** [lines.join(sep)]. *)
Fixpoint join (sep : jsstring) (lines : list jsstring) : jsstring :=
  match lines with
  | [] => []
  | [l] => l
  | l :: ls => l ++ sep ++ join sep ls
  end.

(** Line 151: the text of [logsPre]. *)
Definition pane_text (logs : list log_line) : jsstring :=
  join [10%N] (map format_line logs).

(** [l.level === lvl]. *)
Definition has_level (lvl : jsstring) (l : log_line) : bool :=
  match level l with
  | Some s => jsstring_eqb s lvl
  | None => false
  end.

(** Lines 494-503, the [change] handler of the level filter: the text of
    the pane and the chart. *)
Definition levelFilter_change (lvl : jsstring) (logs : list log_line)
  : jsstring * level_view :=
  let filtered :=
    match lvl with
    | [] => logs
    | _ :: _ => filter (has_level lvl) logs
    end in
  (pane_text filtered, updateLevelChart (ArgLogs (map scores logs))).

End LogPane.

Import LogPane.

(** ** More of what the properties are stated with *)

Module Shapes.

(** [matchc r bol s1 s2 cap cap']: as [matches], and group 1 is [cap']
    after the match when it was [cap] before. *)
Fixpoint matchc (r : regex) (bol : bool) (s1 s2 : jsstring)
    (cap cap' : option jsstring) : Prop :=
  match r with
  | Eps => s1 = [] /\ cap' = cap
  | Bol => s1 = [] /\ bol = true /\ cap' = cap
  | Eol => s1 = [] /\ s2 = [] /\ cap' = cap
  | Chr p => (exists c, s1 = [c] /\ p c = true) /\ cap' = cap
  | Cat r1 r2 =>
      exists a b c1, s1 = a ++ b /\ matchc r1 bol a (b ++ s2) cap c1
                     /\ matchc r2 (bol && is_nil a) b s2 c1 cap'
  | Alt r1 r2 => matchc r1 bol s1 s2 cap cap' \/ matchc r2 bol s1 s2 cap cap'
  | Rep p lo hi =>
      (forallb p s1 = true /\ lo <= length s1
       /\ (forall h, hi = Some h -> length s1 <= h)) /\ cap' = cap
  | Cap r => (exists c0, matchc r bol s1 s2 cap c0) /\ cap' = Some s1
  end.

(** The shape of the four patterns of the Windows branch: a key, white
    space, and a quoted value made of characters of a class. *)
Definition field_re (key : string) (body : N -> bool) (lo : nat) : regex :=
  seq [lit key; star is_space; ch "'"; Cap (Rep body lo None); ch "'"].

(** [m] holds, after [before], the key followed by white space and by the
    value [d] between quotes. *)
Definition field_at (key : string) (body : N -> bool) (lo : nat)
    (m before d : jsstring) : Prop :=
  exists w after,
    m = before ++ str key ++ w ++ [39%N] ++ d ++ [39%N] ++ after
    /\ forallb is_space w = true /\ forallb body d = true /\ lo <= length d.

Definition has_field (key : string) (body : N -> bool) (lo : nat) (m : jsstring) : Prop :=
  exists before d, field_at key body lo m before d.

(** [d] is the value of the first such field of [m]. *)
Definition first_field (key : string) (body : N -> bool) (lo : nat)
    (m d : jsstring) : Prop :=
  exists before,
    field_at key body lo m before d
    /\ forall before' d', field_at key body lo m before' d' ->
         length before <= length before'.

(** [x] is the first element of [l] that has the property [P]. *)
Definition first_where (T : Type) (P : T -> Prop) (l : list T) (x : T) : Prop :=
  exists pre post, l = pre ++ x :: post /\ Forall (fun y => ~ P y) pre /\ P x.

(** One of the five methods, in any case. *)
Definition method_word (t : jsstring) : Prop :=
  In (map canonicalize t) [str "GET"; str "POST"; str "PUT"; str "DELETE"; str "HEAD"].

(** Three digits, the first from 1 to 5. *)
Definition status_code (t : jsstring) : Prop :=
  exists a b c, t = [a; b; c] /\ in_range 49 53 a = true
    /\ is_digit b = true /\ is_digit c = true.

(** The colour of a status whose first character is [a]. *)
Definition color_of_class (a : N) : jsstring :=
  if (a =? 50)%N then str "success"
  else if (a =? 52)%N then str "warning"
  else if (a =? 53)%N then str "danger"
  else str "secondary".

(** A pattern whose character classes do not tell the case of a letter. *)
Fixpoint case_blind (r : regex) : Prop :=
  match r with
  | Chr p => forall c, p (canonicalize c) = p c
  | Rep p _ _ => forall c, p (canonicalize c) = p c
  | Cat r1 r2 | Alt r1 r2 => case_blind r1 /\ case_blind r2
  | Cap r => case_blind r
  | Eps | Bol | Eol => True
  end.

(** Two messages that differ at most in the case of ASCII letters. *)
Definition same_but_case (m m' : jsstring) : Prop :=
  map canonicalize m = map canonicalize m'.

Definition is_ip_char (c : N) : bool := is_digit c || (c =? 46)%N.

(** [sub] occurs in [m]. *)
Definition occurs_in (sub m : jsstring) : Prop :=
  exists before after, m = before ++ sub ++ after.

(** The text of the explanation rule of rank [i], the action of the
    mitigation proposed for a message. *)
Definition explanation_at (i : nat) : option jsstring :=
  option_map exp_text (nth_error EXPLANATIONS i).

Definition action_for (m : jsstring) : option jsstring :=
  option_map action (mitigate m).

(** The value that two patterns tried in turn give, or a default. *)
Definition first_of_two (key1 key2 : string) (body : N -> bool) (lo : nat)
    (dflt m v : jsstring) : Prop :=
  first_field key1 body lo m v
  \/ (~ has_field key1 body lo m /\ first_field key2 body lo m v)
  \/ (~ has_field key1 body lo m /\ ~ has_field key2 body lo m /\ v = dflt).

Definition numeric (a : anomaly) : Prop := exists q, score a = JNum q.

(** What every panel reached from a fresh one satisfies: the intervals
    that run are the one that [schedulePoller] holds, if any. *)
Definition panel_ok (p : panel) : Prop :=
  timers p = match schedulePoller p with Some i => [i] | None => [] end
  /\ (forall i, schedulePoller p = Some i -> 1 <= i)
  /\ 1 <= next_timer p.

End Shapes.

Import Shapes.

(** * Properties *)

Unset Implicit Arguments.

(** ** The matcher against [matches] *)

Section Matcher.

Variable A : Type.

Lemma is_nil_app (a b : jsstring) : is_nil (a ++ b) = is_nil a && is_nil b.
Proof. destruct a; reflexivity. Qed.

Lemma rep_sound p : forall s lo hi b (k : bool -> jsstring -> option A) a,
  rep p lo hi b s k = Some a ->
  exists s1 s2, s = s1 ++ s2 /\ forallb p s1 = true /\ lo <= length s1
    /\ (forall h, hi = Some h -> length s1 <= h)
    /\ k (b && is_nil s1) s2 = Some a.
Proof.
  induction s as [|c s IH]; intros lo hi b k a H; simpl in H.
  - destruct lo; [|discriminate].
    exists [], []. rewrite andb_true_r. repeat split; auto; simpl; lia.
  - assert (Hstop : match lo with O => k b (c :: s) | S _ => None end = Some a ->
              exists s1 s2, c :: s = s1 ++ s2 /\ forallb p s1 = true /\ lo <= length s1
                /\ (forall h, hi = Some h -> length s1 <= h)
                /\ k (b && is_nil s1) s2 = Some a).
    { intros Hs. destruct lo; [|discriminate].
      exists [], (c :: s). rewrite andb_true_r. repeat split; auto; simpl; lia. }
    destruct (p c && more hi) eqn:Hc; [|auto].
    destruct (rep p (pred lo) (option_map pred hi) false s k) as [a'|] eqn:Hr; [|auto].
    injection H as ->.
    apply IH in Hr. destruct Hr as (s1 & s2 & -> & Hall & Hlo & Hhi & Hk).
    apply andb_true_iff in Hc. destruct Hc as [Hpc Hmore].
    exists (c :: s1), s2. simpl. rewrite Hpc, Hall, andb_false_r.
    repeat split; auto; try lia.
    intros h ->. simpl in *. destruct h; [discriminate|].
    specialize (Hhi h eq_refl). lia.
Qed.

Lemma rep_complete p : forall s1 s2 lo hi b (k : bool -> jsstring -> option A),
  forallb p s1 = true -> lo <= length s1 ->
  (forall h, hi = Some h -> length s1 <= h) ->
  k (b && is_nil s1) s2 <> None ->
  rep p lo hi b (s1 ++ s2) k <> None.
Proof.
  induction s1 as [|c s1 IH]; intros s2 lo hi b k Hall Hlo Hhi Hk.
  - simpl in *. rewrite andb_true_r in Hk.
    assert (lo = 0) as -> by lia.
    destruct s2 as [|d s2]; simpl; auto.
    destruct (p d && more hi); auto.
    destruct (rep p 0 (option_map pred hi) false s2 k); congruence.
  - simpl in *. apply andb_true_iff in Hall. destruct Hall as [Hpc Hall].
    rewrite andb_false_r in Hk.
    assert (Hmore : more hi = true).
    { destruct hi as [[|h]|]; auto. specialize (Hhi 0 eq_refl). lia. }
    rewrite Hpc, Hmore. simpl.
    assert (Hrec : rep p (pred lo) (option_map pred hi) false (s1 ++ s2) k <> None).
    { apply IH; auto; try lia.
      intros h Hh. destruct hi as [h'|]; [|discriminate]. simpl in Hh.
      injection Hh as <-. specialize (Hhi h' eq_refl). lia. }
    destruct (rep p (pred lo) (option_map pred hi) false (s1 ++ s2) k); congruence.
Qed.

(** With a continuation that cannot fail, a quantifier takes all it can. *)
Lemma rep_greedy p : forall s lo hi b (k : bool -> jsstring -> option A) a,
  (forall b' s', k b' s' <> None) ->
  rep p lo hi b s k = Some a ->
  exists s1 s2, s = s1 ++ s2 /\ forallb p s1 = true
    /\ k (b && is_nil s1) s2 = Some a
    /\ (forall c s2', s2 = c :: s2' -> p c = true -> hi = Some (length s1)).
Proof.
  induction s as [|c s IH]; intros lo hi b k a Hk H; simpl in H.
  - destruct lo; [|discriminate].
    exists [], []. rewrite andb_true_r. repeat split; auto. discriminate.
  - destruct (p c && more hi) eqn:Hc.
    + apply andb_true_iff in Hc. destruct Hc as [Hpc Hmore].
      destruct (rep p (pred lo) (option_map pred hi) false s k) as [a'|] eqn:Hr.
      * injection H as ->. apply IH in Hr; auto.
        destruct Hr as (s1 & s2 & -> & Hall & Hka & Hmax).
        exists (c :: s1), s2. simpl. rewrite Hpc, Hall, andb_false_r.
        rewrite andb_false_l in Hka. repeat split; auto.
        intros d s2' -> Hd. specialize (Hmax d s2' eq_refl Hd).
        destruct hi as [[|h]|]; simpl in *; try discriminate.
        injection Hmax as ->. reflexivity.
      * destruct lo; [|discriminate]. exfalso.
        assert (Hne : rep p 0 (option_map pred hi) false ([] ++ s) k <> None).
        { clear -Hk. simpl. destruct s as [|d s]; simpl; auto.
          destruct (p d && more (option_map pred hi)); auto.
          destruct (rep p 0 (option_map pred (option_map pred hi)) false s k);
            congruence. }
        simpl in Hne, Hr. congruence.
    + destruct lo; [|discriminate].
      exists [], (c :: s). rewrite andb_true_r. repeat split; auto.
      intros d s2' Heq Hd. injection Heq as <- <-. rewrite Hd in Hc. simpl in Hc.
      destruct hi as [[|h]|]; simpl in *; try discriminate. reflexivity.
Qed.

Lemma rmatch_sound : forall r b s cap (k : bool -> jsstring -> option jsstring -> option A) a,
  rmatch r b s cap k = Some a ->
  exists s1 s2 cap', s = s1 ++ s2 /\ matches r b s1 s2
    /\ k (b && is_nil s1) s2 cap' = Some a.
Proof.
  induction r as [| | |p|r1 IH1 r2 IH2|r1 IH1 r2 IH2|p lo hi|r IH];
    intros b s cap k a H; simpl in H.
  - exists [], s, cap. rewrite andb_true_r. simpl. auto.
  - destruct b; [|discriminate]. exists [], s, cap. simpl. auto.
  - destruct s; [|discriminate]. exists [], [], cap. rewrite andb_true_r. simpl. auto.
  - destruct s as [|c s]; [discriminate|]. destruct (p c) eqn:Hp; [|discriminate].
    exists [c], s, cap. rewrite andb_false_r. simpl. eauto.
  - apply IH1 in H. destruct H as (a1 & rest & cap1 & -> & M1 & H).
    apply IH2 in H. destruct H as (b1 & s2 & cap2 & -> & M2 & H).
    exists (a1 ++ b1), s2, cap2. rewrite is_nil_app, andb_assoc, app_assoc.
    repeat split; auto. simpl. eauto.
  - destruct (rmatch r1 b s cap k) as [a'|] eqn:H1.
    + injection H as ->. apply IH1 in H1.
      destruct H1 as (s1 & s2 & cap' & -> & M & Hk). exists s1, s2, cap'. simpl. auto.
    + apply IH2 in H.
      destruct H as (s1 & s2 & cap' & -> & M & Hk). exists s1, s2, cap'. simpl. auto.
  - apply rep_sound in H. destruct H as (s1 & s2 & -> & Hall & Hlo & Hhi & Hk).
    exists s1, s2, cap. simpl. auto.
  - apply IH in H. destruct H as (s1 & s2 & cap' & -> & M & Hk).
    eexists s1, s2, _. simpl. eauto.
Qed.

Lemma rmatch_complete : forall r b s1 s2 cap (k : bool -> jsstring -> option jsstring -> option A),
  matches r b s1 s2 ->
  (forall cap', k (b && is_nil s1) s2 cap' <> None) ->
  rmatch r b (s1 ++ s2) cap k <> None.
Proof.
  induction r as [| | |p|r1 IH1 r2 IH2|r1 IH1 r2 IH2|p lo hi|r IH];
    intros b s1 s2 cap k M Hk; simpl in M |- *.
  - subst. rewrite andb_true_r in Hk. apply Hk.
  - destruct M as [-> ->]. apply Hk.
  - destruct M as [-> ->]. rewrite andb_true_r in Hk. apply Hk.
  - destruct M as (c & -> & Hp). simpl. rewrite Hp. rewrite andb_false_r in Hk. apply Hk.
  - destruct M as (a1 & b1 & -> & M1 & M2). rewrite <- app_assoc.
    apply IH1; auto. intros cap'. apply IH2; auto.
    intros cap''. rewrite <- andb_assoc, <- is_nil_app. apply Hk.
  - destruct M as [M | M].
    + specialize (IH1 b s1 s2 cap k M Hk).
      destruct (rmatch r1 b (s1 ++ s2) cap k); [discriminate | contradiction].
    + destruct (rmatch r1 b (s1 ++ s2) cap k); [discriminate | auto].
  - destruct M as (Hall & Hlo & Hhi). apply rep_complete; auto.
  - apply IH; auto.
Qed.

(** A successful match of a pattern that [sets_cap] defines group 1. *)
Lemma rmatch_cap : forall r b s cap (k : bool -> jsstring -> option jsstring -> option A) a,
  rmatch r b s cap k = Some a ->
  exists b' s' cap', k b' s' cap' = Some a
    /\ (sets_cap r = true \/ cap <> None -> cap' <> None).
Proof.
  induction r as [| | |p|r1 IH1 r2 IH2|r1 IH1 r2 IH2|p lo hi|r IH];
    intros b s cap k a H; simpl in H.
  - exists b, s, cap. split; auto. intros [?|?]; [discriminate | auto].
  - destruct b; [|discriminate]. exists true, s, cap. split; auto.
    intros [?|?]; [discriminate | auto].
  - destruct s; [|discriminate]. exists b, [], cap. split; auto.
    intros [?|?]; [discriminate | auto].
  - destruct s as [|c s]; [discriminate|]. destruct (p c); [|discriminate].
    exists false, s, cap. split; auto. intros [?|?]; [discriminate | auto].
  - apply IH1 in H. destruct H as (b1 & s1 & cap1 & H & C1).
    apply IH2 in H. destruct H as (b2 & s2 & cap2 & H & C2).
    exists b2, s2, cap2. split; auto. simpl. intros [Hs | Hc].
    + apply orb_true_iff in Hs. destruct Hs as [Hs | Hs]; auto.
    + auto.
  - simpl. destruct (rmatch r1 b s cap k) as [a'|] eqn:H1.
    + injection H as ->. apply IH1 in H1. destruct H1 as (b1 & s1 & cap1 & H & C1).
      exists b1, s1, cap1. split; auto. intros [Hs | Hc]; auto.
      apply andb_true_iff in Hs. destruct Hs; auto.
    + apply IH2 in H. destruct H as (b1 & s1 & cap1 & H & C1).
      exists b1, s1, cap1. split; auto. intros [Hs | Hc]; auto.
      apply andb_true_iff in Hs. destruct Hs; auto.
  - apply rep_sound in H. destruct H as (s1 & s2 & _ & _ & _ & _ & Hk).
    exists (b && is_nil s1), s2, cap. split; auto. intros [?|?]; [discriminate | auto].
  - apply IH in H. destruct H as (b1 & s1 & cap1 & H & _).
    eexists b1, s1, _. split; [exact H|]. intros _. discriminate.
Qed.

End Matcher.

Lemma firstn_consumed (s1 s2 : jsstring) :
  firstn (length (s1 ++ s2) - length s2) (s1 ++ s2) = s1.
Proof.
  rewrite length_app, Nat.add_sub.
  rewrite firstn_app, Nat.sub_diag, firstn_all. simpl. apply app_nil_r.
Qed.

Lemma match_at_sound r b s m :
  match_at r b s = Some m ->
  exists s2, s = matched m ++ s2 /\ matches r b (matched m) s2.
Proof.
  unfold match_at. intros H. apply rmatch_sound in H.
  destruct H as (s1 & s2 & cap' & -> & M & H).
  injection H as <-. simpl. rewrite firstn_consumed. eauto.
Qed.

Lemma match_at_complete r b s1 s2 :
  matches r b s1 s2 -> match_at r b (s1 ++ s2) <> None.
Proof.
  intros M. unfold match_at. apply rmatch_complete; auto. discriminate.
Qed.

Lemma match_at_cap r b s m :
  sets_cap r = true -> match_at r b s = Some m -> group1 m <> None.
Proof.
  unfold match_at. intros Hs H. apply rmatch_cap in H.
  destruct H as (b' & s' & cap' & H & C). injection H as <-. simpl. auto.
Qed.

(** [search] returns a match of the pattern, at the leftmost position
    where the pattern matches at all. *)
Lemma search_sound r : forall s b m,
  search r b s = Some m ->
  exists pre post,
    s = pre ++ matched m ++ post
    /\ match_at r (b && is_nil pre) (matched m ++ post) = Some m
    /\ matches r (b && is_nil pre) (matched m) post
    /\ forall pre' q post',
         s = pre' ++ q ++ post' -> matches r (b && is_nil pre') q post' ->
         length pre <= length pre'.
Proof.
  induction s as [|c s IH]; intros b m H; simpl in H.
  - destruct (match_at r b []) as [m'|] eqn:Hm; [|discriminate].
    injection H as ->. destruct (match_at_sound _ _ _ _ Hm) as (s2 & Hs & M).
    exists [], s2. rewrite andb_true_r. simpl. rewrite <- Hs.
    repeat split; auto. intros; lia.
  - destruct (match_at r b (c :: s)) as [m'|] eqn:Hm.
    + injection H as ->. destruct (match_at_sound _ _ _ _ Hm) as (s2 & Hs & M).
      exists [], s2. rewrite andb_true_r. simpl. rewrite <- Hs.
      repeat split; auto. intros; lia.
    + apply IH in H. destruct H as (pre & post & -> & Hat & M & Hleft).
      exists (c :: pre), post. simpl. rewrite andb_false_r.
      rewrite andb_false_l in Hat, M. repeat split; auto.
      intros pre' q post' Heq Mq. destruct pre' as [|c' pre'].
      * simpl in Heq, Mq. rewrite andb_true_r in Mq.
        apply match_at_complete in Mq. rewrite <- Heq in Mq. contradiction.
      * simpl in Heq. injection Heq as <- Heq. simpl.
        apply le_n_S. apply (Hleft pre' q post'); auto.
        simpl in Mq. rewrite andb_false_r in Mq. exact Mq.
Qed.

Lemma search_complete r : forall pre q post b,
  matches r (b && is_nil pre) q post ->
  search r b (pre ++ q ++ post) <> None.
Proof.
  induction pre as [|c pre IH]; intros q post b M.
  - simpl in *. rewrite andb_true_r in M. apply match_at_complete in M.
    destruct (q ++ post) as [|d t]; simpl;
      destruct (match_at r b _); congruence.
  - simpl in *. rewrite andb_false_r in M.
    destruct (match_at r b (c :: pre ++ q ++ post)); [discriminate|].
    apply IH. exact M.
Qed.

Lemma exec_cap r s m :
  sets_cap r = true -> exec r s = Some m -> group1 m <> None.
Proof.
  unfold exec. intros Hs H. apply search_sound in H.
  destruct H as (pre & post & _ & Hat & _). eapply match_at_cap; eauto.
Qed.

Lemma test_true r s : test r s = true <-> exists m, exec r s = Some m.
Proof.
  unfold test. destruct (exec r s) as [m|].
  - split; eauto.
  - split; [discriminate | intros [m H]; discriminate].
Qed.

(** ** Dotted quads and [re_ip] *)

Lemma matches_octet b s t : matches octet_re b s t <-> octet s.
Proof.
  unfold octet. simpl. split.
  - intros (Hall & Hlo & Hhi). specialize (Hhi 3 eq_refl). auto.
  - intros (Hall & Hlo & Hhi). repeat split; auto. intros h Hh. injection Hh as <-. auto.
Qed.

Lemma matches_dot b s t : matches (ch ".") b s t <-> s = [46%N].
Proof.
  unfold ch, chr. cbn [matches]. change (N_of_ascii ".") with 46%N. split.
  - intros (c & -> & Hc). apply N.eqb_eq in Hc. subst. reflexivity.
  - intros ->. exists 46%N. auto.
Qed.

Lemma octet_not_nil s : octet s -> is_nil s = false.
Proof. intros [_ [H _]]. destruct s; simpl in *; [lia | reflexivity]. Qed.

Lemma matches_re_ip b q post : matches re_ip b q post <-> dotted_quad q.
Proof.
  unfold re_ip, dotted_quad. cbn [seq fold_right times matches].
  fold octet_re. split.
  - intros (a & r1 & -> & Ma & g & e0 & -> & Mg & ->).
    destruct Mg as (g1 & r2 & -> & M1 & g2 & r3 & -> & M2 & g3 & e1 & -> & M3 & ->).
    destruct M1 as (d1 & x1 & -> & D1 & b1 & e2 & -> & B1 & ->).
    destruct M2 as (d2 & x2 & -> & D2 & b2 & e3 & -> & B2 & ->).
    destruct M3 as (d3 & x3 & -> & D3 & b3 & e4 & -> & B3 & ->).
    apply matches_dot in D1, D2, D3. subst.
    apply (proj1 (matches_octet b a [])) in Ma.
    apply (proj1 (matches_octet b b1 [])) in B1.
    apply (proj1 (matches_octet b b2 [])) in B2.
    apply (proj1 (matches_octet b b3 [])) in B3.
    exists a, b1, b2, b3. repeat rewrite app_nil_r. repeat rewrite <- app_assoc.
    simpl. auto.
  - intros (a & b1 & b2 & b3 & -> & Ha & H1 & H2 & H3).
    assert (G : forall bol d t, octet d ->
              matches (Cat (ch ".") (Cat octet_re Eps)) bol ([46%N] ++ d) t).
    { intros bol d t Hd. exists [46%N], d. split; [reflexivity|]. split.
      - exact (proj2 (matches_dot true _ []) eq_refl).
      - exists d, []. rewrite app_nil_r. split; [reflexivity|].
        split; [exact (proj2 (matches_octet true _ []) Hd) | reflexivity]. }
    exists a, ([46%N] ++ b1 ++ [46%N] ++ b2 ++ [46%N] ++ b3).
    split; [reflexivity|]. split; [exact (proj2 (matches_octet true _ []) Ha)|].
    exists ([46%N] ++ b1 ++ [46%N] ++ b2 ++ [46%N] ++ b3), [].
    rewrite app_nil_r. split; [reflexivity|]. split; [|reflexivity].
    exists ([46%N] ++ b1), ([46%N] ++ b2 ++ [46%N] ++ b3).
    split; [rewrite <- app_assoc; reflexivity|]. split; [apply G; exact H1|].
    exists ([46%N] ++ b2), ([46%N] ++ b3).
    split; [rewrite <- app_assoc; reflexivity|]. split; [apply G; exact H2|].
    exists ([46%N] ++ b3), []. rewrite app_nil_r. split; [reflexivity|].
    split; [apply G; exact H3 | reflexivity].
Qed.

(** A run of digits that ends at a dot is determined by the input. *)
Lemma digits_until_dot : forall a a' t t',
  forallb is_digit a = true -> forallb is_digit a' = true ->
  a ++ 46%N :: t = a' ++ 46%N :: t' -> a = a' /\ t = t'.
Proof.
  induction a as [|c a IH]; intros [|c' a'] t t' Ha Ha' H; simpl in *.
  - injection H as ->. auto.
  - injection H as <- _. discriminate.
  - injection H as -> _. discriminate.
  - injection H as <- H. apply andb_true_iff in Ha, Ha'.
    destruct Ha as [_ Ha]. destruct Ha' as [_ Ha'].
    destruct (IH a' t t' Ha Ha' H) as [-> ->]. auto.
Qed.

Lemma rep_octet_sound (A : Type) b s (k : bool -> jsstring -> option A) a :
  rep is_digit 1 (Some 3) b s k = Some a ->
  exists d rest, s = d ++ rest /\ octet d /\ k false rest = Some a.
Proof.
  intros H. apply rep_sound in H. destruct H as (d & rest & -> & Hall & Hlo & Hhi & Hk).
  assert (Hd : octet d) by (split; auto).
  rewrite (octet_not_nil _ Hd), andb_false_r in Hk. eauto.
Qed.

(** Among the dotted quads that start where the match starts, the match
    is the longest. *)
Lemma re_ip_longest b s m :
  match_at re_ip b s = Some m ->
  forall q post, s = q ++ post -> dotted_quad q -> length q <= length (matched m).
Proof.
  unfold match_at, re_ip. cbn [seq fold_right times rmatch ch chr].
  intros H q post Hs (a' & b' & c' & d' & -> & Ha' & Hb' & Hc' & Hd').
  apply rep_octet_sound in H. destruct H as (a & r1 & Hs1 & Ha & H).
  destruct r1 as [|x1 r1]; [discriminate|].
  destruct (N.eqb_spec (N_of_ascii ".") x1) as [<-|]; [|discriminate].
  apply rep_octet_sound in H. destruct H as (b1 & r2 & -> & Hb & H).
  destruct r2 as [|x2 r2]; [discriminate|].
  destruct (N.eqb_spec (N_of_ascii ".") x2) as [<-|]; [|discriminate].
  apply rep_octet_sound in H. destruct H as (c1 & r3 & -> & Hc & H).
  destruct r3 as [|x3 r3]; [discriminate|].
  destruct (N.eqb_spec (N_of_ascii ".") x3) as [<-|]; [|discriminate].
  pose proof H as Hsound. apply rep_octet_sound in Hsound.
  destruct Hsound as (d0 & rest0 & _ & Hd0 & _).
  apply rep_greedy in H; [|discriminate].
  destruct H as (d1 & rest & -> & Hd & Hk & Hmax).
  injection Hk as <-. simpl matched.
  change (N_of_ascii ".") with 46%N in *.
  assert (E : s = (a ++ 46%N :: b1 ++ 46%N :: c1 ++ 46%N :: d1) ++ rest).
  { rewrite Hs1. repeat (rewrite <- app_assoc; simpl). reflexivity. }
  rewrite E at 1 2. rewrite firstn_consumed.
  rewrite Hs1 in Hs. repeat (rewrite <- app_assoc in Hs; simpl in Hs).
  destruct Ha as [Ha La], Hb as [Hb Lb], Hc as [Hc Lc].
  destruct Ha' as [Ha' La'], Hb' as [Hb' Lb'], Hc' as [Hc' Lc'], Hd' as [Hd' Ld'].
  destruct (digits_until_dot _ _ _ _ Ha Ha' Hs) as [<- Hs2].
  destruct (digits_until_dot _ _ _ _ Hb Hb' Hs2) as [<- Hs3].
  destruct (digits_until_dot _ _ _ _ Hc Hc' Hs3) as [<- Hs4].
  assert (length d' <= length d1).
  { apply app_eq_app in Hs4. destruct Hs4 as (l & [[-> ->] | [-> ->]]).
    - rewrite length_app. lia.
    - destruct l as [|x l]; [rewrite app_nil_r; lia|].
      rewrite forallb_app in Hd'. apply andb_true_iff in Hd'. destruct Hd' as [_ Hx].
      simpl in Hx. apply andb_true_iff in Hx. destruct Hx as [Hx _].
      specialize (Hmax x (l ++ post) eq_refl Hx). injection Hmax as Hmax.
      rewrite length_app in Ld'. simpl in Ld'. lia. }
  repeat (rewrite length_app; simpl). lia.
Qed.

Lemma app_inv_length (a b c d : jsstring) :
  a ++ b = c ++ d -> length a = length c -> a = c /\ b = d.
Proof.
  revert c. induction a as [|x a IH]; intros [|y c] H L; simpl in *; try discriminate; auto.
  injection H as -> H. injection L as L. destruct (IH c H L) as [-> ->]. auto.
Qed.

(** [exec re_ip] finds the first dotted quad of the message. *)
Lemma exec_re_ip_some m r :
  exec re_ip m = Some r ->
  exists before after, first_dotted_quad m before (matched r) after.
Proof.
  unfold exec. intros H. apply search_sound in H.
  destruct H as (pre & post & -> & Hat & M & Hleft).
  exists pre, post. split; [reflexivity|]. split; [apply matches_re_ip in M; exact M|].
  intros pre' q' post' Heq Hq'. split.
  - apply (Hleft pre' q' post' Heq). apply matches_re_ip. exact Hq'.
  - intros L. symmetry in L. destruct (app_inv_length _ _ _ _ Heq L) as [<- Heq'].
    eapply re_ip_longest; eauto.
Qed.

Lemma exec_re_ip_none m : exec re_ip m = None <-> ~ has_dotted_quad m.
Proof.
  split.
  - intros H (before & q & after & -> & Hq).
    apply (search_complete re_ip before q after true); [|exact H].
    apply matches_re_ip. exact Hq.
  - intros H. destruct (exec re_ip m) as [r|] eqn:E; [|reflexivity].
    exfalso. apply H. apply exec_re_ip_some in E.
    destruct E as (before & after & Heq & Hq & _). exists before, (matched r), after. auto.
Qed.

Lemma first_dotted_quad_unique m b1 q1 a1 b2 q2 a2 :
  first_dotted_quad m b1 q1 a1 -> first_dotted_quad m b2 q2 a2 -> q1 = q2.
Proof.
  intros (E1 & Q1 & F1) (E2 & Q2 & F2).
  destruct (F1 b2 q2 a2 E2 Q2) as [L1 M1]. destruct (F2 b1 q1 a1 E1 Q1) as [L2 M2].
  assert (L : length b1 = length b2) by lia.
  rewrite E1 in E2. destruct (app_inv_length _ _ _ _ E2 L) as [_ E].
  assert (Lq : length q1 = length q2).
  { specialize (M1 (eq_sym L)). specialize (M2 L). lia. }
  destruct (app_inv_length _ _ _ _ E Lq) as [-> _]. reflexivity.
Qed.

Lemma exec_re_ip_first m before q after :
  first_dotted_quad m before q after ->
  exists r, exec re_ip m = Some r /\ matched r = q.
Proof.
  intros F. destruct (exec re_ip m) as [r|] eqn:E.
  - exists r. split; [reflexivity|]. apply exec_re_ip_some in E.
    destruct E as (b' & a' & F'). apply (first_dotted_quad_unique _ _ _ _ _ _ _ F' F).
  - exfalso. apply exec_re_ip_none in E. apply E.
    destruct F as (Heq & Hq & _). exists before, q, after. auto.
Qed.

(** ** Severity bands *)

Lemma Qltb_lt (a b : Q) : Qltb a b = true <-> (a < b)%Q.
Proof.
  unfold Qltb. rewrite negb_true_iff. split.
  - intros H. apply Qnot_le_lt. intros Hle. apply Qle_bool_iff in Hle. congruence.
  - intros H. destruct (Qle_bool b a) eqn:E; [|reflexivity].
    apply Qle_bool_iff in E. exfalso. exact (Qlt_not_le _ _ H E).
Qed.

Lemma Qltb_ge (a b : Q) : Qltb a b = false <-> (b <= a)%Q.
Proof.
  unfold Qltb. rewrite negb_false_iff. apply Qle_bool_iff.
Qed.

Lemma lit_0_5_lt_0_8 : (lit_0_5 < lit_0_8)%Q.
Proof. reflexivity. Qed.

Lemma classify_num (q : Q) :
  classify (JNum q) =
  if Qltb lit_0_8 q then High else if Qltb lit_0_5 q then Medium else Low.
Proof. reflexivity. Qed.

Lemma sevLabel_num (q : Q) :
  sevLabel (JNum q) =
  if Qltb lit_0_8 q then str "HIGH" else if Qltb lit_0_5 q then str "MEDIUM" else str "Low".
Proof.
  unfold sevLabel, sev_badge, gt. simpl.
  destruct (Qltb lit_0_8 q); [reflexivity|]. destruct (Qltb lit_0_5 q); reflexivity.
Qed.

(** The chart of [updateLevelChart] shows, for each band, the number of
    logs that [classify] puts in it. *)
Lemma level_counts_bands (logs : list log) :
  level_counts logs
  = Counts (in_band High logs) (in_band Medium logs)
      (in_band Low logs) (in_band Pending logs).
Proof.
  unfold level_counts, in_band.
  assert (G : forall c,
    fold_left (fun c l => bump c (classify (score_of l))) logs c
    = Counts
        (nHigh c + length (filter (fun l => severity_eqb (classify (score_of l)) High) logs))
        (nMedium c + length (filter (fun l => severity_eqb (classify (score_of l)) Medium) logs))
        (nLow c + length (filter (fun l => severity_eqb (classify (score_of l)) Low) logs))
        (nPending c + length (filter (fun l => severity_eqb (classify (score_of l)) Pending) logs))).
  { induction logs as [|l logs IH]; intros c.
    - simpl. repeat rewrite Nat.add_0_r. destruct c; reflexivity.
    - simpl. rewrite IH. destruct (classify (score_of l)); simpl;
        f_equal; lia. }
  rewrite G. reflexivity.
Qed.

(** The badge of [updateAnomalyList] on a number. *)
Lemma sevLabel_bands (q : Q) :
  (sevLabel (JNum q) = str "HIGH" <-> (lit_0_8 < q)%Q)
  /\ (sevLabel (JNum q) = str "MEDIUM" <-> (lit_0_5 < q)%Q /\ (q <= lit_0_8)%Q)
  /\ (sevLabel (JNum q) = str "Low" <-> (q <= lit_0_5)%Q).
Proof.
  assert (Hmid : forall q, (q <= lit_0_5)%Q -> (q <= lit_0_8)%Q).
  { intros q' H. apply Qle_trans with lit_0_5; [exact H|].
    apply Qlt_le_weak. exact lit_0_5_lt_0_8. }
  rewrite sevLabel_num.
  destruct (Qltb lit_0_8 q) eqn:E8; [|destruct (Qltb lit_0_5 q) eqn:E5].
  - apply Qltb_lt in E8. repeat split; try discriminate; auto.
    + intros [_ H]. exfalso. exact (Qlt_not_le _ _ E8 H).
    + intros H. exfalso. exact (Qlt_not_le _ _ E8 (Hmid _ H)).
  - apply Qltb_ge in E8. apply Qltb_lt in E5. repeat split; try discriminate; auto.
    + intros H. exfalso. exact (Qlt_not_le _ _ H E8).
    + intros H. exfalso. exact (Qlt_not_le _ _ E5 H).
  - apply Qltb_ge in E8. apply Qltb_ge in E5. repeat split; try discriminate; auto.
    + intros H. exfalso. exact (Qlt_not_le _ _ H E8).
    + intros [H _]. exfalso. exact (Qlt_not_le _ _ H E5).
Qed.

(** C1 as stated fails for the badge of the anomaly list: an absent score
    is not shown as Pending there.  The label computed for it is Low. *)
Lemma absent_score_not_pending :
  ~ (forall s, sevLabel s = str "Pending" <-> s = JNull \/ s = JUndefined).
Proof.
  intros H. pose proof (proj2 (H JNull) (or_introl eq_refl)) as E.
  vm_compute in E. discriminate E.
Qed.

(** C1, amended.  For every score [s] of a log record, [updateLevelChart]
    counts the record as High iff [s > 0.8], as Medium iff
    [0.5 < s <= 0.8], as Low iff [s <= 0.5] and as Pending iff [s] is
    [null] or [undefined]; the scores 0.8 and 0.5 fall in the lower band,
    the classification is a total function, and the four counts of the
    chart are the numbers of logs in each band, each log adding one to the
    count of its band.  The badge of [updateAnomalyList] follows the same
    thresholds on a numeric score, but it has no Pending: its label is
    HIGH, MEDIUM or Low, the label computed for an absent score is Low,
    and the item of an anomaly whose score is absent is not rendered,
    [score.toFixed] throwing a TypeError. *)
Theorem severity_bands (s : jsval) (logs : list log) (l : log) :
  (classify s = High <-> exists q, s = JNum q /\ (lit_0_8 < q)%Q)
  /\ (classify s = Medium <-> exists q, s = JNum q /\ (lit_0_5 < q)%Q /\ (q <= lit_0_8)%Q)
  /\ (classify s = Low <-> exists q, s = JNum q /\ (q <= lit_0_5)%Q)
  /\ (classify s = Pending <-> s = JNull \/ s = JUndefined)
  /\ classify (JNum lit_0_8) = Medium
  /\ classify (JNum lit_0_5) = Low
  /\ level_counts logs
     = Counts (in_band High logs) (in_band Medium logs)
         (in_band Low logs) (in_band Pending logs)
  /\ level_counts (logs ++ [l]) = bump (level_counts logs) (classify (score_of l))
  /\ (sevLabel s = str "HIGH" <-> exists q, s = JNum q /\ (lit_0_8 < q)%Q)
  /\ (sevLabel s = str "MEDIUM"
      <-> exists q, s = JNum q /\ (lit_0_5 < q)%Q /\ (q <= lit_0_8)%Q)
  /\ (sevLabel s = str "Low"
      <-> (exists q, s = JNum q /\ (q <= lit_0_5)%Q) \/ s = JNull \/ s = JUndefined)
  /\ sevLabel s <> str "Pending"
  /\ (forall a p, score a = s -> s = JNull \/ s = JUndefined ->
        render_item a p = (Throw TypeError, p)).
Proof.
  assert (Hmid : forall q, (q <= lit_0_5)%Q -> (q <= lit_0_8)%Q).
  { intros q H. apply Qle_trans with lit_0_5; [exact H|].
    apply Qlt_le_weak. exact lit_0_5_lt_0_8. }
  assert (Hhigh : forall q, (lit_0_8 < q)%Q -> (lit_0_5 < q)%Q).
  { intros q H. apply Qlt_trans with lit_0_8; [exact lit_0_5_lt_0_8 | exact H]. }
  split; [|split; [|split; [|split; [|split; [|split; [|split; [|split]]]]]]].
  - destruct s as [| |q]; try (split; [discriminate | intros (q & E & _); discriminate]).
    rewrite classify_num. destruct (Qltb lit_0_8 q) eqn:E8.
    + split; [|reflexivity]. intros _. exists q. split; [reflexivity|].
      apply Qltb_lt. exact E8.
    + split.
      * destruct (Qltb lit_0_5 q); discriminate.
      * intros (q' & Eq & H). injection Eq as <-. apply Qltb_lt in H. congruence.
  - destruct s as [| |q]; try (split; [discriminate | intros (q & E & _); discriminate]).
    rewrite classify_num. destruct (Qltb lit_0_8 q) eqn:E8.
    + split; [discriminate|]. intros (q' & Eq & _ & H). injection Eq as <-.
      apply Qltb_ge in H. congruence.
    + destruct (Qltb lit_0_5 q) eqn:E5.
      * split; [|reflexivity]. intros _. exists q. split; [reflexivity|].
        split; [apply Qltb_lt; exact E5 | apply Qltb_ge; exact E8].
      * split; [discriminate|]. intros (q' & Eq & H & _). injection Eq as <-.
        apply Qltb_lt in H. congruence.
  - destruct s as [| |q]; try (split; [discriminate | intros (q & E & _); discriminate]).
    rewrite classify_num. destruct (Qltb lit_0_8 q) eqn:E8.
    + split; [discriminate|]. intros (q' & Eq & H). injection Eq as <-.
      apply Hmid in H. apply Qltb_ge in H. congruence.
    + destruct (Qltb lit_0_5 q) eqn:E5.
      * split; [discriminate|]. intros (q' & Eq & H). injection Eq as <-.
        apply Qltb_ge in H. congruence.
      * split; [|reflexivity]. intros _. exists q. split; [reflexivity|].
        apply Qltb_ge. exact E5.
  - destruct s as [| |q].
    + split; auto.
    + split; auto.
    + rewrite classify_num. split.
      * destruct (Qltb lit_0_8 q); [discriminate|].
        destruct (Qltb lit_0_5 q); discriminate.
      * intros [H | H]; discriminate.
  - reflexivity.
  - reflexivity.
  - apply level_counts_bands.
  - unfold level_counts. rewrite fold_left_app. reflexivity.
  - destruct s as [| |q].
    + repeat split; try discriminate;
        try (intros (q & E & _); discriminate); auto.
      intros a p Ha _. unfold render_item. rewrite Ha. reflexivity.
    + repeat split; try discriminate;
        try (intros (q & E & _); discriminate); auto.
      intros a p Ha _. unfold render_item. rewrite Ha. reflexivity.
    + destruct (sevLabel_bands q) as (B1 & B2 & B3).
      split; [|split; [|split; [|split]]].
      * rewrite B1. split; [intros H; exists q; auto|].
        intros (q' & E & H). injection E as <-. exact H.
      * rewrite B2. split; [intros H; exists q; auto|].
        intros (q' & E & H). injection E as <-. exact H.
      * rewrite B3. split; [intros H; left; exists q; auto|].
        intros [(q' & E & H) | [E | E]]; try discriminate. injection E as <-. exact H.
      * rewrite sevLabel_num.
        destruct (Qltb lit_0_8 q); [discriminate|].
        destruct (Qltb lit_0_5 q); discriminate.
      * intros a p _ [E | E]; discriminate.
Qed.


(** ** The normalizer on the documented Windows event *)

(** C3.  The message [{'Event ID': '4625', 'Message': 'bad login'}] is
    rendered as a Windows event with id 4625 and the description
    "Failed Logon (Invalid Credentials)" of the static table, although it
    contains a comma and is first tried as a web-access line. *)
Theorem normalize_event_4625 :
  renderLogCard msg_4625
  = WindowsEvent (str "4625") (str "Failed Logon (Invalid Credentials)") (str "bad login")
  /\ includes msg_4625 (str ",") = true
  /\ web_access msg_4625 = None
  /\ lookup WIN_EVENT_DESCRIPTIONS (str "4625")
     = Some (str "Failed Logon (Invalid Credentials)").
Proof. repeat split; vm_compute; reflexivity. Qed.

(** The access line of the specification: IP address, method and status
    are found; [USA] is not a capital followed by small letters, so no
    country is shown. *)
Example normalize_access_line :
  renderLogCard (str "10.0.0.1,GET,404,USA")
  = WebAccess None (Some (str "10.0.0.1")) (Some (str "GET")) (Some (str "404"))
      (str "warning") (str "10.0.0.1,GET,404,USA").
Proof. vm_compute. reflexivity. Qed.

Example normalize_plain_text :
  renderLogCard (str "kernel: segfault at 0 ip 00007f") = Generic (str "kernel: segfault at 0 ip 00007f").
Proof. vm_compute. reflexivity. Qed.

(** ** The synthesized description *)

Lemma split_hd_length (sep : N) (s : jsstring) :
  length (hd [] (split sep s)) <= length s.
Proof.
  induction s as [|c s IH]; simpl; [lia|].
  destruct (c =? sep)%N; simpl; [lia|].
  destruct (split sep s) as [|t ts]; simpl in *; lia.
Qed.

Lemma split_single_line (sep : N) (s : jsstring) :
  ~ In sep s -> split sep s = [s].
Proof.
  induction s as [|c s IH]; intros H; simpl; [reflexivity|].
  destruct (N.eqb_spec c sep) as [->|_].
  - exfalso. apply H. left. reflexivity.
  - rewrite IH; [reflexivity|]. intros Hin. apply H. right. exact Hin.
Qed.

(** Whenever the first line is cut the ellipsis is there, and on a text
    of one line the ellipsis is there only if the line was cut. *)
Lemma ellipsis_when_truncated (realText : jsstring) :
  (first_line_truncated realText = true -> (80 <? length realText)%nat = true)
  /\ (~ In 10%N realText ->
      first_line_truncated realText = (80 <? length realText)%nat).
Proof.
  unfold first_line_truncated. split.
  - intros H. apply Nat.ltb_lt in H. apply Nat.ltb_lt.
    pose proof (split_hd_length 10 realText). lia.
  - intros H. rewrite (split_single_line 10 realText H). reflexivity.
Qed.

(** C4, what the code does.  For an event id that the table does not list
    the description is the first line cut at 80 characters, followed by
    the ellipsis iff the whole text (all its lines) is longer than 80
    characters, and it is replaced by "Windows Event" and the id when it is
    empty or trims to fewer than 5 characters.  On a text whose first line
    is short and whose other lines bring it over 80 characters, the
    ellipsis is added although nothing was cut. *)
Theorem synthesized_description :
  (forall eventId realText,
     let summary :=
       first_line_80 realText
       ++ (if (80 <? length realText)%nat then str "..." else []) in
     synthesize eventId realText =
     if is_nil summary || (length (trim summary) <? 5)%nat
     then str "Windows Event " ++ show eventId
     else summary)
  /\ renderLogCard msg_two_lines
     = WindowsEvent (str "9999") (str "Logon failed...") text_two_lines
  /\ lookup WIN_EVENT_DESCRIPTIONS (str "9999") = None
  /\ first_line_80 text_two_lines = str "Logon failed"
  /\ first_line_truncated text_two_lines = false.
Proof.
  split; [|repeat split; vm_compute; reflexivity].
  intros eventId realText summary. unfold synthesize. fold (first_line_80 realText).
  fold summary. destruct summary; reflexivity.
Qed.

(** ** The scheduler interval *)

Lemma effective_interval_fin (q : Q) :
  effective_interval (Fin q) =
  if Qeq_bool q 0 then Fin 300
  else if Qltb q 30 then Fin 30 else Fin q.
Proof.
  unfold effective_interval, or_number. destruct (Qeq_bool q 0); reflexivity.
Qed.

(** C8 as stated fails: a requested interval of 0 is below 30 and is not
    clamped to 30; it is taken as no request and replaced by 300. *)
Lemma interval_zero_not_clamped :
  ~ (forall q, (q < 30)%Q -> effective_interval (Fin q) = Fin 30).
Proof.
  intros H. specialize (H 0%Q). discriminate H. reflexivity.
Qed.

(** C8, amended.  [startSchedule] always posts a request; the interval it
    posts is never a number below 30 (it is [null] only when the field
    reads as positive infinity); a requested interval below 30 other than
    zero is posted as 30, so 10 becomes 30; a field that reads as zero or
    as no number is posted as the default 300. *)
Theorem interval_clamped (schedInterval schedMaxItems : jsnumber) :
  match interval_sec (startSchedule schedInterval schedMaxItems) with
  | JsonNumber q => (30 <= q)%Q
  | JsonNull => schedInterval = PosInf
  end
  /\ (forall q, schedInterval = Fin q -> (q < 30)%Q -> ~ (q == 0)%Q ->
        interval_sec (startSchedule schedInterval schedMaxItems) = JsonNumber 30)
  /\ (forall q, schedInterval = Fin q -> (q == 0)%Q ->
        interval_sec (startSchedule schedInterval schedMaxItems) = JsonNumber 300)
  /\ (schedInterval = NaN ->
        interval_sec (startSchedule schedInterval schedMaxItems) = JsonNumber 300)
  /\ interval_sec (startSchedule (Fin 10) schedMaxItems) = JsonNumber 30.
Proof.
  unfold startSchedule. simpl. repeat split.
  - destruct schedInterval as [| | |q]; try (vm_compute; congruence).
    rewrite effective_interval_fin. destruct (Qeq_bool q 0); simpl.
    + discriminate.
    + destruct (Qltb q 30) eqn:E; simpl.
      * discriminate.
      * apply Qltb_ge. exact E.
  - intros q -> Hlt Hnz. rewrite effective_interval_fin.
    destruct (Qeq_bool q 0) eqn:E0.
    + apply Qeq_bool_iff in E0. contradiction.
    + apply Qltb_lt in Hlt. rewrite Hlt. reflexivity.
  - intros q -> Hz. rewrite effective_interval_fin.
    apply Qeq_bool_iff in Hz. rewrite Hz. reflexivity.
  - intros ->. reflexivity.
Qed.

Lemma interval_clamped_witness :
  interval_sec (startSchedule (Fin 12) (Fin 500)) = JsonNumber 30.
Proof.
  apply (proj1 (proj2 (interval_clamped (Fin 12) (Fin 500))) 12%Q).
  - reflexivity.
  - reflexivity.
  - discriminate.
Defined.

(** ** First match in a list *)

Section FindFirst.

Variables (T : Type) (f : T -> bool).

Lemma find_first_some (l : list T) (x : T) :
  find f l = Some x <-> first_such f l x.
Proof.
  unfold first_such. induction l as [|y l IH]; simpl.
  - split; [discriminate|]. intros (pre & post & E & _). destruct pre; discriminate.
  - destruct (f y) eqn:Fy.
    + split.
      * intros H. injection H as ->. exists [], l. auto.
      * intros (pre & post & E & Hpre & Fx). destruct pre as [|z pre].
        -- injection E as -> _. reflexivity.
        -- injection E as <- _. apply Forall_inv in Hpre. simpl in Hpre.
           rewrite Fy in Hpre. discriminate.
    + rewrite IH. split.
      * intros (pre & post & -> & Hpre & Fx). exists (y :: pre), post. auto.
      * intros (pre & post & E & Hpre & Fx). destruct pre as [|z pre].
        -- injection E as -> _. rewrite Fy in Fx. discriminate.
        -- injection E as <- ->. apply Forall_inv_tail in Hpre. eauto.
Qed.

Lemma find_first_none (l : list T) :
  find f l = None <-> Forall (fun y => f y = false) l.
Proof.
  induction l as [|y l IH]; simpl.
  - split; auto.
  - destruct (f y) eqn:Fy.
    + split; [discriminate|]. intros H. apply Forall_inv in H. simpl in H.
      rewrite Fy in H. discriminate.
    + rewrite IH. split; [auto | intros H; apply Forall_inv_tail in H; auto].
Qed.

End FindFirst.

(** ** The country token *)

Lemma test_re_country (t : jsstring) :
  test re_country_token t = true <-> capitalized_word t.
Proof.
  rewrite test_true. unfold exec, capitalized_word. split.
  - intros (m & H). apply search_sound in H.
    destruct H as (pre & post & E & _ & M & _).
    unfold re_country_token, plus in M. cbn [seq fold_right matches] in M.
    destruct M as (a0 & r0 & Em & [-> Hb] & u1 & r1 & -> & (u & -> & Hu)
                   & lo & r2 & -> & (Hall & Hlo & _) & e & e' & -> & [-> He] & ->).
    simpl in Hb, He, Em. destruct pre; [|discriminate]. subst post.
    exists u, lo. rewrite E, Em. simpl. repeat rewrite app_nil_r.
    repeat split; auto. intros ->. simpl in Hlo. lia.
  - intros (u & rest & -> & Hu & Hne & Hall).
    assert (M : matches re_country_token (true && is_nil []) (u :: rest) []).
    { unfold re_country_token, plus. cbn [seq fold_right matches].
      exists [], (u :: rest). split; [reflexivity|]. split; [auto|].
      exists [u], rest. split; [reflexivity|]. split; [eauto|].
      exists rest, []. split; [rewrite app_nil_r; reflexivity|]. split.
      - repeat split; auto.
        + destruct rest; [congruence | simpl; lia].
        + discriminate.
      - exists [], []. auto. }
    pose proof (search_complete re_country_token [] (u :: rest) [] true M) as H.
    cbn [app] in H. rewrite app_nil_r in H.
    destruct (search re_country_token true (u :: rest)) as [m|]; [eauto | congruence].
Qed.

Lemma is_country_iff (p : jsstring) :
  is_country p = true <->
  capitalized_word (trim p) /\ 3 < length p
  /\ includes p (str "Chrome") = false /\ includes p (str "Safari") = false.
Proof.
  unfold is_country. repeat rewrite andb_true_iff. repeat rewrite negb_true_iff.
  rewrite test_re_country, Nat.ltb_lt. tauto.
Qed.

Lemma renderLogCard_web (m : jsstring) c ip me st col msg :
  renderLogCard m = WebAccess c ip me st col msg ->
  web_access m = Some (WebAccess c ip me st col msg).
Proof.
  unfold renderLogCard. destruct (web_access m) as [v|].
  - intros ->. reflexivity.
  - destruct (windows_shaped m); [|discriminate].
    unfold windows_event.
    destruct (match match exec re_message m with
                    | Some m0 => Some m0
                    | None => exec re_task_category m
                    end with
              | Some m0 => group1 m0
              | None => Some []
              end); discriminate.
Qed.

(** C9 as stated fails: the length test reads the token with its
    surrounding white space, so the token [ Usa] of
    [10.0.0.1, GET, 200, Usa], whose trimmed text has three characters, is
    taken as the country. *)
Lemma short_country_shown :
  ~ (forall m c ip me st col,
       renderLogCard m = WebAccess (Some c) ip me st col m -> 3 < length (trim c)).
Proof.
  intros H.
  specialize (H msg_padded_country (str " Usa") (Some (str "10.0.0.1"))
                (Some (str " GET")) (Some (str " 200")) (str "secondary")).
  assert (E : 3 < length (trim (str " Usa"))) by (apply H; vm_compute; reflexivity).
  vm_compute in E. lia.
Qed.

(** C9, amended.  When a message is rendered as a web-access line, the
    country shown is the first comma-separated token that qualifies, and
    none is shown when no token qualifies.  A token qualifies when its
    trimmed text is a capital letter followed by small letters, the token
    itself, white space included, is longer than 3 characters, and it
    contains neither "Chrome" nor "Safari". *)
Theorem country_token (m : jsstring) (c ip me st : option jsstring) (col : jsstring) :
  renderLogCard m = WebAccess c ip me st col m ->
  (forall p, c = Some p <-> first_such is_country (split 44 m) p)
  /\ (c = None <-> Forall (fun t => is_country t = false) (split 44 m))
  /\ (forall p, is_country p = true <->
        capitalized_word (trim p) /\ 3 < length p
        /\ includes p (str "Chrome") = false /\ includes p (str "Safari") = false).
Proof.
  intros H. apply renderLogCard_web in H. unfold web_access in H.
  destruct (includes m (str ",")); [|discriminate].
  destruct (truthy (find_ip (split 44 m)) || truthy (find_method (split 44 m))
            || truthy (find_status (split 44 m))); [|discriminate].
  injection H as <- _ _ _ _. unfold find_country. split; [|split].
  - intros p. apply find_first_some.
  - apply find_first_none.
  - apply is_country_iff.
Qed.

Lemma country_token_witness :
  first_such is_country (split 44 (str "10.0.0.1,GET,404,Egypt")) (str "Egypt").
Proof.
  apply (proj1 (country_token (str "10.0.0.1,GET,404,Egypt") (Some (str "Egypt"))
                  (Some (str "10.0.0.1")) (Some (str "GET")) (Some (str "404"))
                  (str "warning") ltac:(vm_compute; reflexivity)) (str "Egypt")).
  reflexivity.
Defined.

(** ** The rule engines *)

Lemma find_explanation_find (rules : list explanation_rule) (m : jsstring) :
  find_explanation rules m
  = option_map exp_text (find (fun r => test (exp_regex r) m) rules).
Proof.
  induction rules as [|r rules IH]; simpl; [reflexivity|].
  destruct (test (exp_regex r) m); [reflexivity | exact IH].
Qed.

Lemma find_mitigation_find (rules : list mitigation_rule) (m : jsstring) :
  find_mitigation rules m
  = option_map (fun r => Mitigation (mit_action r) (build_command r m))
      (find (fun r => test (mit_regex r) m) rules).
Proof.
  induction rules as [|r rules IH]; simpl; [reflexivity|].
  destruct (test (mit_regex r) m); [reflexivity | exact IH].
Qed.

Lemma first_such_unique (T : Type) (f : T -> bool) (l : list T) (x y : T) :
  first_such f l x -> first_such f l y -> x = y.
Proof.
  intros Hx Hy. apply find_first_some in Hx, Hy. congruence.
Qed.

(** C5.  Each engine scans its rule list in order and returns the payload
    of the first rule whose pattern matches the message, and nothing when
    no rule matches; a later rule that matches as well has no effect.  The
    message [sudo user add bob] matches the account rule and the sudo rule
    of both lists and gets the payloads of the account rules, which come
    first. *)
Theorem first_rule_wins (m : jsstring) :
  (forall r, first_such (fun r => test (exp_regex r) m) EXPLANATIONS r ->
        explain m = Some (exp_text r))
  /\ (forall t, explain m = Some t ->
        exists r, first_such (fun r => test (exp_regex r) m) EXPLANATIONS r
                  /\ t = exp_text r)
  /\ (explain m = None <-> Forall (fun r => test (exp_regex r) m = false) EXPLANATIONS)
  /\ (forall r, first_such (fun r => test (mit_regex r) m) MITIGATION_MATRIC r ->
        mitigate m = Some (Mitigation (mit_action r) (build_command r m)))
  /\ (forall x, mitigate m = Some x ->
        exists r, first_such (fun r => test (mit_regex r) m) MITIGATION_MATRIC r
                  /\ x = Mitigation (mit_action r) (build_command r m))
  /\ (mitigate m = None <-> Forall (fun r => test (mit_regex r) m = false) MITIGATION_MATRIC)
  /\ (test re_account msg_sudo_user_add = true
      /\ test re_sudo msg_sudo_user_add = true
      /\ test re_sudo_admin msg_sudo_user_add = true
      /\ explain msg_sudo_user_add
         = Some ([9888; 65039]%N ++ str " Account Change: A new user or group was created.")
      /\ mitigate msg_sudo_user_add
         = Some (Mitigation (str "Review Privileges") (str "netplwiz"))).
Proof.
  unfold explain, mitigate. rewrite find_explanation_find, find_mitigation_find.
  split; [|split; [|split; [|split; [|split; [|split]]]]].
  - intros r H. apply find_first_some in H. rewrite H. reflexivity.
  - intros t H.
    destruct (find (fun r => test (exp_regex r) m) EXPLANATIONS) as [r|] eqn:E;
      [|discriminate].
    injection H as <-. exists r. split; [apply find_first_some; exact E | reflexivity].
  - rewrite <- find_first_none.
    destruct (find (fun r => test (exp_regex r) m) EXPLANATIONS);
      simpl; split; congruence.
  - intros r H. apply find_first_some in H. rewrite H. reflexivity.
  - intros x H.
    destruct (find (fun r => test (mit_regex r) m) MITIGATION_MATRIC) as [r|] eqn:E;
      [|discriminate].
    injection H as <-. exists r. split; [apply find_first_some; exact E | reflexivity].
  - rewrite <- find_first_none.
    destruct (find (fun r => test (mit_regex r) m) MITIGATION_MATRIC);
      simpl; split; congruence.
  - repeat split; vm_compute; reflexivity.
Qed.

Lemma first_rule_wins_witness :
  explain (str "status 404 then segfault")
  = Some ([55357; 56589]%N ++ str " Web Scanning: The visitor is looking for files that do not exist (e.g., trying to find admin pages).").
Proof.
  apply (proj1 (first_rule_wins (str "status 404 then segfault"))
           (ExplanationRule re_scan _)).
  exists [], (tl EXPLANATIONS). split; [reflexivity|]. split; [constructor|].
  vm_compute. reflexivity.
Defined.

(** ** The command of a mitigation *)

Lemma build_command_first (r : mitigation_rule) (m before q after : jsstring) :
  first_dotted_quad m before q after -> build_command r m = mit_command r ++ q.
Proof.
  intros F. unfold build_command. apply exec_re_ip_first in F.
  destruct F as (x & -> & <-). reflexivity.
Qed.

Lemma build_command_none (r : mitigation_rule) (m : jsstring) :
  ~ has_dotted_quad m -> build_command r m = mit_command r.
Proof.
  intros H. unfold build_command. apply exec_re_ip_none in H. rewrite H. reflexivity.
Qed.

Lemma has_first_dotted_quad (m : jsstring) :
  has_dotted_quad m -> exists before q after, first_dotted_quad m before q after.
Proof.
  intros H. destruct (exec re_ip m) as [x|] eqn:E.
  - apply exec_re_ip_some in E. destruct E as (before & after & F). eauto.
  - apply exec_re_ip_none in E. contradiction.
Qed.

(** C6.  Let [r] be the rule that the mitigation engine selects for a
    message, the first whose pattern matches.  If the message contains a
    dotted quad, it has a first one (leftmost, and longest at that
    place), and the command returned is the template of [r] followed by
    that dotted quad as it stands, whatever the template; if the message
    contains none, the command is the template of [r]. *)
Theorem command_with_ip (m : jsstring) (r : mitigation_rule) :
  first_such (fun r => test (mit_regex r) m) MITIGATION_MATRIC r ->
  (has_dotted_quad m ->
     exists before q after,
       first_dotted_quad m before q after
       /\ mitigate m = Some (Mitigation (mit_action r) (mit_command r ++ q)))
  /\ (forall before q after,
        first_dotted_quad m before q after ->
        mitigate m = Some (Mitigation (mit_action r) (mit_command r ++ q)))
  /\ (~ has_dotted_quad m ->
        mitigate m = Some (Mitigation (mit_action r) (mit_command r))).
Proof.
  intros H.
  apply find_first_some in H. unfold mitigate. rewrite find_mitigation_find, H. simpl.
  split; [|split].
  - intros Hq. destruct (has_first_dotted_quad m Hq) as (before & q & after & F).
    exists before, q, after. split; [exact F|].
    rewrite (build_command_first r _ _ _ _ F). reflexivity.
  - intros before q after F. rewrite (build_command_first r _ _ _ _ F). reflexivity.
  - intros N. rewrite (build_command_none r _ N). reflexivity.
Qed.

Lemma command_with_ip_witness :
  mitigate (str "sudo session from 10.0.0.1 port 22")
  = Some (Mitigation (str "Audit Session") (str "query user10.0.0.1")).
Proof.
  assert (R : first_such (fun r => test (mit_regex r) (str "sudo session from 10.0.0.1 port 22"))
                MITIGATION_MATRIC
                (MitigationRule re_sudo_admin (str "Audit Session") (str "query user"))).
  { exists (firstn 3 MITIGATION_MATRIC), (skipn 4 MITIGATION_MATRIC).
    split; [reflexivity|]. split; [|vm_compute; reflexivity].
    repeat constructor; vm_compute; reflexivity. }
  destruct (command_with_ip _ _ R) as (_ & Hq & _).
  assert (E : exec re_ip (str "sudo session from 10.0.0.1 port 22")
              = Some (MatchResult (str "10.0.0.1") None)) by (vm_compute; reflexivity).
  destruct (exec_re_ip_some _ _ E) as (before & after & F).
  exact (Hq before (str "10.0.0.1") after F).
Defined.

(** ** The anomaly list and the alerts *)

Lemma render_item_flags (a : anomaly) (p : page) :
  alertsEnabled (snd (render_item a p)) = alertsEnabled p
  /\ notifications (snd (render_item a p)) = notifications p.
Proof.
  unfold render_item. destruct (toFixed_receiver (score a)); simpl; auto.
Qed.

Lemma forEach_flags (l : list anomaly) : forall p,
  alertsEnabled (snd (forEach render_item l p)) = alertsEnabled p
  /\ notifications (snd (forEach render_item l p)) = notifications p.
Proof.
  induction l as [|a l IH]; intros p; simpl; [auto|].
  unfold bind. destruct (render_item_flags a p) as [Ha Hn].
  destruct (render_item a p) as [[[]|e] p']; simpl in *.
  - destruct (IH p') as [Ha' Hn']. split; congruence.
  - auto.
Qed.

Lemma render_item_num (a : anomaly) (q : Q) (p : page) :
  score a = JNum q ->
  render_item a p
  = (Ok tt, PageState (alertsEnabled p) (notifications p)
              (Some (children p ++ [item_of a q]))).
Proof. intros H. unfold render_item. rewrite H. reflexivity. Qed.

Lemma forEach_render (l : list anomaly) : forall p,
  Forall (fun a => exists q, score a = JNum q) l ->
  exists items,
    Forall2 shown_as l items
    /\ forEach render_item l p
       = (Ok tt, PageState (alertsEnabled p) (notifications p)
                   (match l with [] => anomalyList p | _ :: _ => Some (children p ++ items) end)).
Proof.
  induction l as [|a l IH]; intros p H.
  - exists []. split; [constructor|]. destruct p; reflexivity.
  - pose proof (Forall_inv H) as (q & Hq). apply Forall_inv_tail in H.
    simpl. unfold bind. rewrite (render_item_num a q p Hq).
    destruct (IH (PageState (alertsEnabled p) (notifications p)
                    (Some (children p ++ [item_of a q]))) H) as (items & F & E).
    exists (item_of a q :: items). split.
    + constructor; [exists q; auto | exact F].
    + rewrite E. simpl. destruct l; simpl.
      * inversion F. reflexivity.
      * unfold children. simpl. rewrite <- app_assoc. reflexivity.
Qed.

Lemma criticals_exists (anoms : list anomaly) :
  (0 <? length (criticals anoms))%nat = existsb (fun a => gt (score a) lit_0_8) anoms.
Proof.
  unfold criticals. induction anoms as [|a l IH]; simpl; [reflexivity|].
  destruct (gt (score a) lit_0_8); simpl; [reflexivity | exact IH].
Qed.

Lemma updateAnomalyList_notifications (anoms : list anomaly) (p : page) :
  notifications (snd (updateAnomalyList anoms p))
  = notifications p ++ (if is_some (anomalyList p) then high_alerts p anoms else []).
Proof.
  unfold updateAnomalyList, high_alerts. destruct (anomalyList p) as [old|]; simpl.
  - unfold bind, set_children, sendAlert, ret. simpl.
    destruct (0 <? length (criticals anoms))%nat; simpl.
    + destruct (alertsEnabled p); simpl;
        rewrite (proj2 (forEach_flags _ _)); simpl;
        [reflexivity | rewrite app_nil_r; reflexivity].
    + rewrite andb_false_r. rewrite (proj2 (forEach_flags _ _)). simpl.
      rewrite app_nil_r. reflexivity.
  - rewrite app_nil_r. reflexivity.
Qed.

(** C7 as stated fails: rendering the mitigation proposed for an anomaly
    raises no notification, even with alerts enabled. *)
Lemma mitigation_proposed_without_alert :
  ~ (forall anoms p,
       alertsEnabled p = true ->
       (exists it, In it (children (snd (updateAnomalyList anoms p)))
                   /\ item_mitigation it <> None) ->
       notifications (snd (updateAnomalyList anoms p)) <> notifications p).
Proof.
  intros H. apply (H batch_sudo page_alerts_on).
  - reflexivity.
  - exists (item_of (Anomaly 1 (str "sudo rm -rf /tmp/x") (JNum (6 # 10))) (6 # 10)).
    split; [left; reflexivity|]. vm_compute. discriminate.
  - reflexivity.
Qed.

(** C7, amended.  [updateAnomalyList] raises at most one notification, the
    one titled "High Severity Detected", and it raises it iff the page has
    the anomaly list, alerts are enabled and some anomaly of the batch has
    a score above 0.8; the mitigations it proposes raise none.  The sink is
    reached a second way, by [simulateContainment], the handler of the
    Execute button of a proposed mitigation, which raises "Containment
    Action Success" iff alerts are enabled. *)
Theorem alerts_raised (anoms : list anomaly) (p : page) (act : jsstring) (btn : button) :
  notifications (snd (updateAnomalyList anoms p))
  = notifications p ++ (if is_some (anomalyList p) then high_alerts p anoms else [])
  /\ (high_alerts p anoms
      = [Notification high_title (high_body (length (criticals anoms)))]
      <-> alertsEnabled p = true
          /\ exists a, In a anoms /\ gt (score a) lit_0_8 = true)
  /\ (high_alerts p anoms = []
      <-> ~ (alertsEnabled p = true
             /\ exists a, In a anoms /\ gt (score a) lit_0_8 = true))
  /\ notifications (snd (simulateContainment act btn p))
     = notifications p
       ++ (if alertsEnabled p
           then [Notification containment_title (containment_body act)] else []).
Proof.
  assert (Hex : alertsEnabled p && (0 <? length (criticals anoms))%nat = true
                <-> alertsEnabled p = true
                    /\ exists a, In a anoms /\ gt (score a) lit_0_8 = true).
  { rewrite criticals_exists, andb_true_iff, existsb_exists. tauto. }
  split; [apply updateAnomalyList_notifications|]. split; [|split].
  - unfold high_alerts.
    destruct (alertsEnabled p && (0 <? length (criticals anoms))%nat) eqn:E.
    + split; [intros _; apply Hex; reflexivity | reflexivity].
    + split; [discriminate|]. intros H. apply Hex in H. discriminate.
  - unfold high_alerts.
    destruct (alertsEnabled p && (0 <? length (criticals anoms))%nat) eqn:E.
    + split; [discriminate|]. intros H. exfalso. apply H. apply Hex. reflexivity.
    + split; [|reflexivity]. intros _ H. apply Hex in H. discriminate.
  - unfold simulateContainment, bind, sendAlert, ret.
    destruct (alertsEnabled p); simpl; [reflexivity | rewrite app_nil_r; reflexivity].
Qed.

Lemma forEach_app (T : Type) (f : T -> M unit) (l1 l2 : list T) : forall p,
  forEach f (l1 ++ l2) p
  = match forEach f l1 p with
    | (Ok _, p1) => forEach f l2 p1
    | (Throw e, p1) => (Throw e, p1)
    end.
Proof.
  induction l1 as [|a l1 IH]; intros p; simpl; [reflexivity|].
  unfold bind. destruct (f a p) as [[[]|e] p1]; [apply IH | reflexivity].
Qed.

Lemma render_item_absent (a : anomaly) (p : page) :
  (forall q, score a <> JNum q) -> render_item a p = (Throw TypeError, p).
Proof.
  intros H. unfold render_item. destruct (score a) as [| |q]; try reflexivity.
  exfalso. exact (H q eq_refl).
Qed.

Lemma forEach_render_from_empty (l : list anomaly) (e : bool) (n : list notification) :
  Forall numeric l ->
  exists items,
    Forall2 shown_as l items
    /\ forEach render_item l (PageState e n (Some [])) = (Ok tt, PageState e n (Some items)).
Proof.
  intros H. destruct (forEach_render l (PageState e n (Some [])) H) as (items & F & E).
  exists items. split; [exact F|]. rewrite E. simpl.
  destruct l; [inversion F|]; reflexivity.
Qed.

Lemma alert_step (anoms : list anomaly) (p : page) :
  (if (0 <? length (criticals anoms))%nat
   then sendAlert high_title (high_body (length (criticals anoms)))
   else ret tt) (PageState (alertsEnabled p) (notifications p) (Some []))
  = (Ok tt, PageState (alertsEnabled p) (notifications p ++ high_alerts p anoms) (Some [])).
Proof.
  unfold high_alerts, sendAlert, ret. simpl.
  destruct (0 <? length (criticals anoms))%nat; simpl.
  - destruct (alertsEnabled p); simpl; [reflexivity | rewrite app_nil_r; reflexivity].
  - rewrite andb_false_r, app_nil_r. reflexivity.
Qed.

Lemma updateAnomalyList_unfold (anoms : list anomaly) (p : page) (old : list item) :
  anomalyList p = Some old ->
  updateAnomalyList anoms p
  = forEach render_item (slice_0_50 anoms)
      (PageState (alertsEnabled p) (notifications p ++ high_alerts p anoms) (Some [])).
Proof.
  intros Hul. unfold updateAnomalyList. rewrite Hul.
  unfold bind at 1. unfold set_children at 1. cbv beta iota.
  unfold bind at 1. rewrite alert_step. reflexivity.
Qed.

(** C10 as stated fails: the number of items rendered is not always
    [min (length anoms) 50].  On a page that has the list, an anomaly
    without a numeric score stops the rendering; and on a page without the
    list nothing is rendered, whatever the scores. *)
Lemma fewer_items_than_cap :
  ~ (forall anoms p,
       anomalyList p <> None ->
       length (children (snd (updateAnomalyList anoms p))) = Nat.min (length anoms) 50)
  /\ ~ (forall anoms p,
          Forall numeric anoms ->
          length (children (snd (updateAnomalyList anoms p))) = Nat.min (length anoms) 50).
Proof.
  split; intros H.
  - assert (E := H [Anomaly 1 (str "no score") JNull] page_alerts_on).
    vm_compute in E. assert (E' := E ltac:(discriminate)). discriminate E'.
  - assert (N : Forall numeric [Anomaly 1 (str "scored") (JNum (6 # 10))]).
    { repeat constructor. exists (6 # 10)%Q. reflexivity. }
    assert (E := H _ (PageState true [] None) N).
    vm_compute in E. discriminate E.
Qed.

(** C10, amended.  On a page without the anomaly list [updateAnomalyList]
    returns at once and renders nothing.  On a page that has it, when
    each of the first 50 anomalies carries a number, the children of the
    list become one item for each of the first 50 anomalies, in the order
    of the input: [min (length anoms) 50] items, the anomalies after the
    50th being left out although the alert is computed from the whole
    batch.  When one of the first 50 anomalies carries no number, the
    rendering stops at the first such anomaly with a TypeError: the items
    of the anomalies before it are in the list, fewer than
    [min (length anoms) 50], and the alert has been raised all the same. *)
Theorem list_capped_at_50 (anoms : list anomaly) (p : page) :
  (anomalyList p = None -> updateAnomalyList anoms p = (Ok tt, p))
  /\ (forall old,
        anomalyList p = Some old ->
        Forall (fun a => exists q, score a = JNum q) (slice_0_50 anoms) ->
        exists items,
          updateAnomalyList anoms p
          = (Ok tt, PageState (alertsEnabled p)
                      (notifications p ++ high_alerts p anoms) (Some items))
          /\ length items = Nat.min (length anoms) 50
          /\ Forall2 shown_as (firstn 50 anoms) items
          /\ criticals anoms = filter (fun a => gt (score a) lit_0_8) anoms)
  /\ (forall old before a after,
        anomalyList p = Some old ->
        slice_0_50 anoms = before ++ a :: after ->
        Forall (fun a => exists q, score a = JNum q) before ->
        (forall q, score a <> JNum q) ->
        exists items,
          updateAnomalyList anoms p
          = (Throw TypeError,
             PageState (alertsEnabled p)
               (notifications p ++ high_alerts p anoms) (Some items))
          /\ Forall2 shown_as before items
          /\ length items < Nat.min (length anoms) 50).
Proof.
  split; [|split].
  - intros Hul. unfold updateAnomalyList. rewrite Hul. reflexivity.
  - intros old Hul Hnum. rewrite (updateAnomalyList_unfold anoms p old Hul).
    destruct (forEach_render_from_empty (slice_0_50 anoms) (alertsEnabled p)
                (notifications p ++ high_alerts p anoms) Hnum) as (items & F & E).
    exists items. rewrite E. split; [reflexivity|]. split; [|split].
    + rewrite <- (Forall2_length F). unfold slice_0_50. rewrite length_firstn. lia.
    + exact F.
    + reflexivity.
  - intros old before a after Hul Hs Hnum Ha.
    rewrite (updateAnomalyList_unfold anoms p old Hul), Hs, forEach_app.
    destruct (forEach_render_from_empty before (alertsEnabled p)
                (notifications p ++ high_alerts p anoms) Hnum) as (items & F & E).
    rewrite E. cbn [forEach]. unfold bind. rewrite (render_item_absent a _ Ha).
    exists items. split; [reflexivity|]. split; [exact F|].
    rewrite <- (Forall2_length F).
    assert (L : length (slice_0_50 anoms) = Nat.min (length anoms) 50).
    { unfold slice_0_50. rewrite length_firstn. lia. }
    rewrite <- L, Hs, length_app. simpl. lia.
Qed.

Lemma Forall2_Forall_r (T U : Type) (R : T -> U -> Prop) (P : U -> Prop) :
  forall l l', Forall2 R l l' -> (forall a b, In a l -> R a b -> P b) -> Forall P l'.
Proof.
  induction 1 as [|a b l l' Hab F IH]; intros H; constructor.
  - apply (H a b); [left; reflexivity | exact Hab].
  - apply IH. intros a' b' Hin. apply H. right. exact Hin.
Qed.

(** A batch of 51 whose only anomaly of high severity is the last one: the
    alert is raised, and none of the 50 items shown is of high severity. *)
Lemma list_capped_at_50_witness :
  exists items,
    updateAnomalyList batch_51 page_alerts_on
    = (Ok tt, PageState true
                [Notification high_title (str "Found 1 critical anomalies in the latest analysis.")]
                (Some items))
    /\ length items = 50
    /\ Forall (fun it => item_label it = str "MEDIUM") items.
Proof.
  destruct (proj1 (proj2 (list_capped_at_50 batch_51 page_alerts_on)) [] eq_refl)
    as (items & E & L & F & _).
  - unfold slice_0_50, batch_51. simpl.
    repeat (apply Forall_cons; [exists (6 # 10)%Q; reflexivity|]). apply Forall_nil.
  - exists items. split; [exact E|]. split; [exact L|].
    apply (Forall2_Forall_r _ _ _ _ _ _ F). intros a it Hin (q & _ & ->).
    unfold batch_51 in Hin. rewrite firstn_app, firstn_all2 in Hin by (rewrite repeat_length; lia).
    rewrite repeat_length in Hin. change (50 - 50) with 0 in Hin.
    rewrite firstn_O, app_nil_r in Hin.
    apply repeat_spec in Hin. subst a. reflexivity.
Defined.

(** ** The normalizer never fails *)

Lemma windows_event_returns (m : jsstring) : forall e, windows_event m <> Throw e.
Proof.
  intros e. unfold windows_event.
  destruct (exec re_message m) as [x|] eqn:E1.
  - pose proof (exec_cap re_message m x eq_refl E1) as C.
    destruct (group1 x); [discriminate | contradiction].
  - destruct (exec re_task_category m) as [x|] eqn:E2.
    + pose proof (exec_cap re_task_category m x eq_refl E2) as C.
      destruct (group1 x); [discriminate | contradiction].
    + discriminate.
Qed.

Lemma trim_nil_token (p : jsstring) (r : regex) :
  test r [] = false -> test r (trim p) = true -> truthy (Some p) = true.
Proof.
  intros H0 H. destruct p; [|reflexivity].
  change (test r [] = true) in H. rewrite H0 in H. discriminate.
Qed.

Lemma find_token_truthy (r : regex) (parts : list jsstring) :
  test r [] = false ->
  truthy (find (fun p => test r (trim p)) parts)
  = is_some (find (fun p => test r (trim p)) parts).
Proof.
  intros H0. destruct (find (fun p => test r (trim p)) parts) as [p|] eqn:E; [|reflexivity].
  apply find_some in E. destruct E as [_ E]. apply (trim_nil_token p r H0 E).
Qed.

Lemma web_access_none (m : jsstring) :
  includes m (str ",") = true ->
  (web_access m = None
   <-> find_ip (split 44 m) = None /\ find_method (split 44 m) = None
       /\ find_status (split 44 m) = None).
Proof.
  intros Hc. unfold web_access. rewrite Hc.
  unfold find_ip, find_method, find_status.
  rewrite (find_token_truthy re_ip_token _ eq_refl).
  rewrite (find_token_truthy re_method_token _ eq_refl).
  rewrite (find_token_truthy re_status_token _ eq_refl).
  destruct (find (fun p => test re_ip_token (trim p)) (split 44 m));
    destruct (find (fun p => test re_method_token (trim p)) (split 44 m));
    destruct (find (fun p => test re_status_token (trim p)) (split 44 m));
    simpl; split; try discriminate; try tauto;
    intros (H1 & H2 & H3); discriminate.
Qed.

(** C2 as stated fails: a comma-containing message in which no IP
    address, method or status is found does not always get the Generic
    view; it goes on to the Windows test, and the documented event 4625
    message is rendered as a Windows event. *)
Lemma comma_message_not_generic :
  ~ (forall m,
       includes m (str ",") = true ->
       find_ip (split 44 m) = None -> find_method (split 44 m) = None ->
       find_status (split 44 m) = None ->
       renderLogCard m = Generic m).
Proof.
  intros H. specialize (H msg_4625 eq_refl eq_refl eq_refl eq_refl).
  vm_compute in H. discriminate H.
Qed.

(** C2, amended.  [renderLogCard] returns a view for every message and
    raises no error: the extraction of the Windows fields never throws, and
    the [try] would swallow an exception and go on to the Generic view if
    it did.  The view is the
    web-access one when the comma branch finds an IP address, a method or a
    status; otherwise (no comma, or none of the three found) the message
    goes on to the Windows test and gets the Windows view when it is
    Windows-shaped and the Generic view when it is not. *)
Theorem renderLogCard_total (m : jsstring) :
  (forall e, windows_event m <> Throw e)
  /\ (forall e next, try_return (Throw e) next = next)
  /\ (includes m (str ",") = true ->
        (web_access m = None
         <-> find_ip (split 44 m) = None /\ find_method (split 44 m) = None
             /\ find_status (split 44 m) = None))
  /\ (includes m (str ",") = false -> web_access m = None)
  /\ ((exists c ip me st col,
         web_access m = Some (WebAccess c ip me st col m)
         /\ renderLogCard m = WebAccess c ip me st col m)
      \/ (web_access m = None /\ windows_shaped m = true
          /\ exists id summary realText,
               renderLogCard m = WindowsEvent id summary realText)
      \/ (web_access m = None /\ windows_shaped m = false
          /\ renderLogCard m = Generic m)).
Proof.
  split; [apply windows_event_returns|]. split; [|split; [|split]].
  - reflexivity.
  - apply web_access_none.
  - intros Hc. unfold web_access. rewrite Hc. reflexivity.
  - unfold renderLogCard. destruct (web_access m) as [v|] eqn:Hw.
    + left. unfold web_access in Hw.
      destruct (includes m (str ",")); [|discriminate].
      destruct (truthy (find_ip (split 44 m)) || truthy (find_method (split 44 m))
                || truthy (find_status (split 44 m))); [|discriminate].
      injection Hw as <-. do 5 eexists. split; reflexivity.
    + right. destruct (windows_shaped m).
      * left. split; [reflexivity|]. split; [reflexivity|].
        pose proof (windows_event_returns m) as Hr.
        destruct (windows_event m) as [v|e] eqn:He; [|exfalso; exact (Hr e eq_refl)].
        revert He. unfold windows_event.
        destruct (match match exec re_message m with
                        | Some m0 => Some m0
                        | None => exec re_task_category m
                        end with
                  | Some m0 => group1 m0
                  | None => Some []
                  end); [|discriminate].
        intros He. injection He as <-. do 3 eexists. reflexivity.
      * right. auto.
Qed.

Lemma renderLogCard_total_witness :
  web_access (str "disk quota exceeded, retrying") = None.
Proof.
  apply (proj1 (proj2 (proj2 (renderLogCard_total (str "disk quota exceeded, retrying"))))).
  - reflexivity.
  - repeat split; reflexivity.
Defined.

(** * Further properties *)

(** ** Strings *)

Lemma jsstring_eqb_eq (a b : jsstring) : jsstring_eqb a b = true <-> a = b.
Proof.
  unfold jsstring_eqb. destruct (list_eq_dec N.eq_dec a b); split; congruence.
Qed.

Lemma jsstring_eqb_refl (a : jsstring) : jsstring_eqb a a = true.
Proof. apply jsstring_eqb_eq. reflexivity. Qed.

Lemma jsstring_eqb_sym (a b : jsstring) : jsstring_eqb a b = jsstring_eqb b a.
Proof.
  destruct (jsstring_eqb a b) eqn:E1; destruct (jsstring_eqb b a) eqn:E2; try reflexivity.
  - apply jsstring_eqb_eq in E1. subst. rewrite jsstring_eqb_refl in E2. discriminate.
  - apply jsstring_eqb_eq in E2. subst. rewrite jsstring_eqb_refl in E1. discriminate.
Qed.

(** ** The severity chart *)

Lemma in_band_partition (logs : list log) :
  in_band High logs + in_band Medium logs + in_band Low logs + in_band Pending logs
  = length logs.
Proof.
  unfold in_band. induction logs as [|l logs IH]; simpl; [reflexivity|].
  destruct (classify (score_of l)); simpl; lia.
Qed.

Lemma chart_of_counts (a b c d : nat) :
  updateLevelChart (ArgStats (counts_object (Counts a b c d)))
  = if (a + b + c + d =? 0)%nat then NoData
    else Doughnut a b c
           ([str "High"; str "Medium"; str "Low"]
            ++ (if (0 <? d)%nat then [str "Pending"] else []))
           ([a; b; c] ++ (if (0 <? d)%nat then [d] else []))
           ([str "#dc3545"; str "#ffc107"; str "#0dcaf0"]
            ++ (if (0 <? d)%nat then [str "#adb5bd"] else [])).
Proof.
  unfold updateLevelChart.
  change (get0 (counts_object (Counts a b c d)) (str "High")) with a.
  change (get0 (counts_object (Counts a b c d)) (str "Medium")) with b.
  change (get0 (counts_object (Counts a b c d)) (str "Low")) with c.
  change (get0 (counts_object (Counts a b c d)) (str "Pending")) with d.
  destruct (a + b + c + d =? 0)%nat; [reflexivity|].
  change (map fst (counts_object (Counts a b c d)))
    with [str "High"; str "Medium"; str "Low"; str "Pending"].
  cbn [filter].
  change (get0 (counts_object (Counts a b c d)) (str "High")) with a.
  change (get0 (counts_object (Counts a b c d)) (str "Medium")) with b.
  change (get0 (counts_object (Counts a b c d)) (str "Low")) with c.
  change (get0 (counts_object (Counts a b c d)) (str "Pending")) with d.
  change (jsstring_eqb (str "High") (str "Pending")) with false.
  change (jsstring_eqb (str "Medium") (str "Pending")) with false.
  change (jsstring_eqb (str "Low") (str "Pending")) with false.
  change (jsstring_eqb (str "Pending") (str "Pending")) with true.
  repeat rewrite orb_true_r. cbn [negb]. rewrite orb_false_r.
  destruct (0 <? d)%nat; reflexivity.
Qed.

(** X1.  Given the logs of the page, [updateLevelChart] counts every log
    in exactly one band: the four counts add up to the number of logs.
    It shows the no-data text iff there is no log.  Otherwise the badges
    are the numbers of logs that [classify] puts in High, Medium and Low,
    and the doughnut has a slice for each of these three, and one for
    Pending iff some log has no score; the slices add up to the number of
    logs and each has its own colour. *)
Theorem chart_counts_every_log (logs : list log) :
  match updateLevelChart (ArgLogs logs) with
  | NoData => logs = []
  | Doughnut high medium low labels data colors =>
      logs <> []
      /\ high = in_band High logs /\ medium = in_band Medium logs
      /\ low = in_band Low logs
      /\ high + medium + low + in_band Pending logs = length logs
      /\ labels = [str "High"; str "Medium"; str "Low"]
                  ++ (if (0 <? in_band Pending logs)%nat then [str "Pending"] else [])
      /\ data = [high; medium; low]
                ++ (if (0 <? in_band Pending logs)%nat then [in_band Pending logs] else [])
      /\ list_sum data = length logs
      /\ length colors = length labels /\ ~ In (str "#000") colors
  end.
Proof.
  change (updateLevelChart (ArgLogs logs))
    with (updateLevelChart (ArgStats (counts_object (level_counts logs)))).
  rewrite level_counts_bands, chart_of_counts.
  pose proof (in_band_partition logs) as P.
  destruct (in_band High logs + in_band Medium logs + in_band Low logs
            + in_band Pending logs =? 0)%nat eqn:E.
  - apply Nat.eqb_eq in E. rewrite E in P. destruct logs; [reflexivity | discriminate].
  - apply Nat.eqb_neq in E. split; [intros ->; apply E; reflexivity|].
    repeat (split; [reflexivity|]). split; [exact P|].
    repeat (split; [reflexivity|]).
    destruct (0 <? in_band Pending logs)%nat eqn:D.
    + split; [simpl; lia|]. split; [reflexivity|].
      intros H. vm_compute in H. repeat (destruct H as [H|H]; [discriminate|]). exact H.
    + apply Nat.ltb_ge in D. split; [simpl; lia|]. split; [reflexivity|].
      intros H. vm_compute in H. repeat (destruct H as [H|H]; [discriminate|]). exact H.
Qed.

(** ** The scheduler panel *)

Lemma polling_iff (p : panel) :
  panel_ok p -> (polling p = true <-> schedulePoller p <> None).
Proof.
  intros (_ & Hid & _). unfold polling. destruct (schedulePoller p) as [[|i]|].
  - specialize (Hid 0 eq_refl). lia.
  - split; [discriminate | reflexivity].
  - split; [discriminate | congruence].
Qed.

Lemma set_status_ok (t : jsstring) (p : panel) : panel_ok p -> panel_ok (set_status t p).
Proof. intros H. exact H. Qed.

Lemma pollScheduleStatus_ok (p : panel) : panel_ok p -> panel_ok (pollScheduleStatus p).
Proof.
  intros H. unfold pollScheduleStatus. destruct (polling p) eqn:E; [exact H|].
  destruct H as (Ht & Hid & Hn).
  assert (Hnone : schedulePoller p = None).
  { unfold polling in E. destruct (schedulePoller p) as [[|i]|]; try discriminate.
    - specialize (Hid 0 eq_refl). lia.
    - reflexivity. }
  rewrite Hnone in Ht. unfold panel_ok, start_polling. simpl. rewrite Ht.
  repeat split; [|lia]. intros i Hi. injection Hi as <-. exact Hn.
Qed.

Lemma stop_polling_ok (p : panel) : panel_ok p -> panel_ok (stop_polling p).
Proof.
  intros H. unfold stop_polling. destruct (schedulePoller p) as [i|] eqn:E; [|exact H].
  destruct H as (Ht & Hid & Hn). rewrite E in Ht.
  unfold panel_ok. simpl. rewrite Ht. simpl. rewrite Nat.eqb_refl. simpl.
  repeat split; [discriminate | exact Hn].
Qed.

Lemma step_ok (p : panel) (e : event) : panel_ok p -> panel_ok (step p e).
Proof.
  intros H. destruct e as [started running|stopped|running lr|]; simpl.
  - unfold start_reply. destruct (started || running).
    + apply pollScheduleStatus_ok, set_status_ok, H.
    + exact H.
  - unfold stop_reply. destruct stopped; [|exact H].
    destruct (polling (set_status (str "Stopped") p)).
    + apply stop_polling_ok, set_status_ok, H.
    + apply set_status_ok, H.
  - unfold status_reply.
    set (p1 := set_status (if running then str "Running" else str "Stopped") p).
    assert (H1 : panel_ok p1) by (apply set_status_ok, H).
    unfold show_last_result.
    destruct (schedLastResult p1) as [old|]; [destruct lr as [r|]|].
    + destruct (elapsed_sec r) as [| |q]; try exact H1.
      set (p2 := Panel _ _ _ _ _ _).
      assert (H2 : panel_ok p2) by exact H1.
      destruct (running && negb (polling p2)) eqn:E; [|exact H2].
      apply andb_true_iff in E. destruct E as [_ E].
      pose proof (pollScheduleStatus_ok p2 H2) as K.
      unfold pollScheduleStatus in K. rewrite E in K. exact K.
    + destruct (running && negb (polling p1)) eqn:E; [|exact H1].
      apply andb_true_iff in E. destruct E as [_ E].
      pose proof (pollScheduleStatus_ok p1 H1) as K.
      unfold pollScheduleStatus in K. rewrite E in K. exact K.
    + destruct (running && negb (polling p1)) eqn:E; [|exact H1].
      apply andb_true_iff in E. destruct E as [_ E].
      pose proof (pollScheduleStatus_ok p1 H1) as K.
      unfold pollScheduleStatus in K. rewrite E in K. exact K.
  - exact H.
Qed.

Lemma run_ok (es : list event) : forall p, panel_ok p -> panel_ok (run es p).
Proof.
  unfold run. induction es as [|e es IH]; intros p H; simpl; [exact H|].
  apply IH, step_ok, H.
Qed.

Lemma fresh_ok (p : panel) : fresh p -> panel_ok p.
Proof.
  intros (Hp & Ht & Hn). unfold panel_ok. rewrite Hp, Ht.
  repeat split; [discriminate | exact Hn].
Qed.

(** X2.  Whatever replies the scheduler panel receives, in whatever
    order, it runs at most one status poll: the intervals started and not
    cleared are exactly the one whose id [schedulePoller] holds.  A reply
    that the scheduler has started leaves the panel polling, a reply that
    it has stopped leaves no interval running, and a status reply whose
    last result has no numeric elapsed time updates the status text
    without starting a poll. *)
Theorem one_status_poll (es : list event) (p : panel) :
  fresh p ->
  let p' := run es p in
  timers p' = match schedulePoller p' with Some i => [i] | None => [] end
  /\ length (timers p') <= 1
  /\ (forall started running, started || running = true ->
        polling (step p' (StartReply started running)) = true)
  /\ timers (step p' (StopReply true)) = []
  /\ (forall r, schedLastResult p' <> None -> (forall q, elapsed_sec r <> JNum q) ->
        timers (step p' (StatusReply true (Some r))) = timers p'
        /\ (schedStatus p' <> None ->
            schedStatus (step p' (StatusReply true (Some r))) = Some (str "Running"))).
Proof.
  intros F p'. pose proof (run_ok es p (fresh_ok p F)) as H. fold p' in H.
  pose proof H as (Ht & Hid & Hn).
  split; [exact Ht|]. split; [rewrite Ht; destruct (schedulePoller p'); simpl; lia|].
  split; [|split].
  - intros started running E. simpl. unfold start_reply. rewrite E.
    unfold pollScheduleStatus.
    destruct (polling (set_status (str "Running") p')) eqn:P; simpl; [exact P|].
    unfold polling, start_polling. simpl. destruct (next_timer p'); [lia | reflexivity].
  - simpl. unfold stop_reply.
    destruct (polling (set_status (str "Stopped") p')) eqn:P.
    + pose proof (stop_polling_ok _ (set_status_ok (str "Stopped") p' H)) as (Kt & _).
      rewrite Kt. clear Kt. unfold polling in P. unfold stop_polling.
      destruct (schedulePoller (set_status (str "Stopped") p')); [reflexivity | discriminate].
    + simpl. rewrite Ht. unfold polling in P. simpl in P.
      destruct (schedulePoller p') as [[|i]|]; try discriminate; [|reflexivity].
      specialize (Hid 0 eq_refl). lia.
  - intros r Hel Hq. simpl. unfold status_reply, show_last_result. simpl.
    destruct (schedLastResult p') as [old|]; [|congruence].
    destruct (elapsed_sec r) as [| |q] eqn:Er; [| |exfalso; exact (Hq q eq_refl)].
    + split; [reflexivity|]. simpl. destruct (schedStatus p'); congruence.
    + split; [reflexivity|]. simpl. destruct (schedStatus p'); congruence.
Qed.

Lemma one_status_poll_witness :
  timers (run [StartReply true false; StatusReply true None; StopReply true;
               StatusReply true None]
            (Panel (Some []) (Some None) None [] 7 []))
  = [8].
Proof.
  pose proof (one_status_poll
                [StartReply true false; StatusReply true None; StopReply true;
                 StatusReply true None]
                (Panel (Some []) (Some None) None [] 7 [])) as H.
  simpl in H. apply H. repeat split. simpl. lia.
Defined.

(** ** The scheduler form *)

(** X3.  A second click on Start posts the interval the first click
    posted: the value left in the field clamps to the same interval, and
    an interval already clamped is not changed.  After a clamp the field
    holds the value posted, 30; when the field read as zero or as no
    number the default 300 is posted and the field is left as it was. *)
Theorem start_twice_same_interval (schedInterval : jsnumber) :
  effective_interval (schedInterval_after schedInterval) = effective_interval schedInterval
  /\ effective_interval (effective_interval schedInterval) = effective_interval schedInterval
  /\ (lt (or_number schedInterval (Fin 300)) 30 = true ->
        schedInterval_after schedInterval = Fin 30
        /\ effective_interval schedInterval = Fin 30)
  /\ (or_number schedInterval (Fin 300) <> schedInterval ->
        schedInterval_after schedInterval = schedInterval
        /\ effective_interval schedInterval = Fin 300).
Proof.
  assert (T : forall n : jsnumber,
    (lt (or_number n (Fin 300)) 30 = true ->
       schedInterval_after n = Fin 30 /\ effective_interval n = Fin 30)
    /\ (or_number n (Fin 300) <> n ->
        schedInterval_after n = n /\ effective_interval n = Fin 300)).
  { intros n. unfold schedInterval_after, effective_interval. split.
    - intros ->. split; reflexivity.
    - intros Hn. destruct n as [| | |q]; try (exfalso; apply Hn; reflexivity).
      + split; reflexivity.
      + unfold or_number in *. destruct (Qeq_bool q 0).
        * split; reflexivity.
        * exfalso. apply Hn. reflexivity. }
  split; [|split; [|exact (T schedInterval)]].
  - destruct schedInterval as [| | |q]; try reflexivity.
    unfold schedInterval_after. rewrite effective_interval_fin. unfold or_number.
    destruct (Qeq_bool q 0) eqn:E0.
    + simpl. rewrite effective_interval_fin, E0. reflexivity.
    + simpl. destruct (Qltb q 30) eqn:E30; [reflexivity|].
      rewrite effective_interval_fin, E0, E30. reflexivity.
  - destruct schedInterval as [| | |q]; try reflexivity.
    rewrite effective_interval_fin.
    destruct (Qeq_bool q 0) eqn:E0; [reflexivity|].
    destruct (Qltb q 30) eqn:E30; [reflexivity|].
    rewrite effective_interval_fin, E0, E30. reflexivity.
Qed.

Lemma start_twice_same_interval_witness :
  schedInterval_after (Fin 12) = Fin 30 /\ effective_interval (Fin 12) = Fin 30.
Proof.
  apply (proj1 (proj2 (proj2 (start_twice_same_interval (Fin 12))))). reflexivity.
Defined.
(** ** The incident table *)

Lemma actionBtn_target (stage : jsstring) :
  option_map btn_target (actionBtn stage) = successor STAGES stage.
Proof.
  unfold actionBtn, STAGES. cbn [successor].
  rewrite (jsstring_eqb_sym (str "Detection") stage),
          (jsstring_eqb_sym (str "Analysis") stage),
          (jsstring_eqb_sym (str "Containment") stage).
  destruct (jsstring_eqb stage (str "Detection")); [reflexivity|].
  destruct (jsstring_eqb stage (str "Analysis")); [reflexivity|].
  destruct (jsstring_eqb stage (str "Containment")); reflexivity.
Qed.

Lemma actionBtn_cases (stage : jsstring) (b : action_button) :
  actionBtn stage = Some b ->
  btn_target b = str "Analysis" \/ btn_target b = str "Containment"
  \/ btn_target b = str "Recovery".
Proof.
  unfold actionBtn.
  destruct (jsstring_eqb stage (str "Detection")); [intros H; injection H as <-; auto|].
  destruct (jsstring_eqb stage (str "Analysis")); [intros H; injection H as <-; auto|].
  destruct (jsstring_eqb stage (str "Containment")); [intros H; injection H as <-; auto|].
  discriminate.
Qed.

(** X4.  The button of an incident row asks for the stage that follows
    the current one in Detection, Analysis, Containment, Recovery, and a
    row whose stage is none of the first three (Recovery, or an unknown
    stage) has no button: a row never offers to skip a stage or to go
    back.  Following the buttons from any stage, the server setting the
    stage asked for, ends after at most three clicks, and from Detection
    the third click reaches Recovery. *)
Theorem row_offers_next_stage (stage : jsstring) :
  option_map btn_target (actionBtn stage) = successor STAGES stage
  /\ (actionBtn stage = None
      <-> stage <> str "Detection" /\ stage <> str "Analysis"
          /\ stage <> str "Containment")
  /\ (forall n, 4 <= n -> follow n stage = None)
  /\ follow 3 (str "Detection") = Some (str "Recovery").
Proof.
  split; [apply actionBtn_target|]. split; [|split; [|reflexivity]].
  - unfold actionBtn.
    destruct (jsstring_eqb stage (str "Detection")) eqn:E1.
    { apply jsstring_eqb_eq in E1. split; [discriminate | tauto]. }
    destruct (jsstring_eqb stage (str "Analysis")) eqn:E2.
    { apply jsstring_eqb_eq in E2. split; [discriminate | tauto]. }
    destruct (jsstring_eqb stage (str "Containment")) eqn:E3.
    { apply jsstring_eqb_eq in E3. split; [discriminate | tauto]. }
    split; [|reflexivity]. intros _.
    repeat split; intros ->; discriminate.
  - assert (F1 : forall n, follow (S n) (str "Recovery") = None) by reflexivity.
    assert (F2 : forall n, 2 <= n -> follow n (str "Containment") = None).
    { intros [|[|n]] H; try lia. apply (F1 n). }
    assert (F3 : forall n, 3 <= n -> follow n (str "Analysis") = None).
    { intros [|n] H; [lia|]. apply (F2 n). lia. }
    intros [|n] H; [lia|]. cbn [follow].
    destruct (actionBtn stage) as [b|] eqn:E; [|reflexivity].
    destruct (actionBtn_cases stage b E) as [-> | [-> | ->]].
    + apply F3. lia.
    + apply F2. lia.
    + destruct n; [lia|]. apply F1.
Qed.

(** ** The alerts button *)

Lemma click_flag (perm : jsstring) (p : page) (btn : alerts_button) :
  alertsEnabled (fst (enableAlerts_click perm (p, btn))) = true
  <-> alertsEnabled p = false /\ perm = str "granted".
Proof.
  unfold enableAlerts_click. destruct (alertsEnabled p) eqn:E; simpl.
  - split; [discriminate | intros [H _]; discriminate].
  - destruct (jsstring_eqb perm (str "granted")) eqn:G.
    + apply jsstring_eqb_eq in G. unfold sendAlert. simpl. split; auto.
    + simpl. rewrite E. split; [discriminate|]. intros [_ H].
      apply jsstring_eqb_eq in H. congruence.
Qed.

Lemma click_effect (perm : jsstring) (p : page) (btn : alerts_button) :
  let st := enableAlerts_click perm (p, btn) in
  notifications (fst st)
  = notifications p
    ++ (if negb (alertsEnabled p) && alertsEnabled (fst st) then [alerts_active] else [])
  /\ anomalyList (fst st) = anomalyList p
  /\ (alertsEnabled (fst st) = true -> alertsEnabled p = true \/ caption (snd st) = caption_enabled)
  /\ (alertsEnabled p = true -> caption (snd st) = caption_disabled).
Proof.
  unfold enableAlerts_click. destruct (alertsEnabled p) eqn:E; simpl.
  - rewrite app_nil_r. repeat split; auto.
  - destruct (jsstring_eqb perm (str "granted")); simpl.
    + repeat split; auto. discriminate.
    + rewrite E, app_nil_r. repeat split; auto. discriminate.
Qed.

(** X5.  A click on the alerts button turns alerts on only when they
    were off and the browser grants the permission, and it then raises
    the notification Alerts Active; a click while alerts are on turns them
    off and raises nothing.  Over any sequence of clicks that starts with
    alerts off, alerts are on only with the caption that says so, the
    notifications added are all Alerts Active, and the anomaly list is not
    touched. *)
Theorem alerts_need_permission (perms : list jsstring) (p : page) (btn : alerts_button) :
  (forall perm,
     (alertsEnabled (fst (enableAlerts_click perm (p, btn))) = true
      <-> alertsEnabled p = false /\ perm = str "granted")
     /\ notifications (fst (enableAlerts_click perm (p, btn)))
        = notifications p
          ++ (if negb (alertsEnabled p)
                 && alertsEnabled (fst (enableAlerts_click perm (p, btn)))
              then [alerts_active] else []))
  /\ (alertsEnabled p = false ->
      let st := clicks perms (p, btn) in
      (alertsEnabled (fst st) = true -> caption (snd st) = caption_enabled)
      /\ (exists added, notifications (fst st) = notifications p ++ added
                        /\ Forall (eq alerts_active) added)
      /\ anomalyList (fst st) = anomalyList p).
Proof.
  split.
  - intros perm. split; [apply click_flag | apply (click_effect perm p btn)].
  - intros Hoff.
    assert (G : forall perms p btn,
      (alertsEnabled p = true -> caption btn = caption_enabled) ->
      let st := clicks perms (p, btn) in
      (alertsEnabled (fst st) = true -> caption (snd st) = caption_enabled)
      /\ (exists added, notifications (fst st) = notifications p ++ added
                        /\ Forall (eq alerts_active) added)
      /\ anomalyList (fst st) = anomalyList p).
    { clear. induction perms as [|perm perms IH]; intros p btn Hc.
      - simpl. split; [exact Hc|]. split; [|reflexivity].
        exists []. rewrite app_nil_r. auto.
      - change (clicks (perm :: perms) (p, btn))
          with (clicks perms (enableAlerts_click perm (p, btn))).
        destruct (enableAlerts_click perm (p, btn)) as [p1 btn1] eqn:E.
        pose proof (click_effect perm p btn) as K. rewrite E in K. simpl in K.
        destruct K as (Kn & Ka & Kc & Kd).
        assert (Hc1 : alertsEnabled p1 = true -> caption btn1 = caption_enabled).
        { intros H1. destruct (Kc H1) as [Hp | Hcap]; [|exact Hcap].
          pose proof (click_flag perm p btn) as Kf. rewrite E in Kf. simpl in Kf.
          apply Kf in H1. destruct H1 as [H1 _]. congruence. }
        destruct (IH p1 btn1 Hc1) as (I1 & (added & I2 & I3) & I4).
        split; [exact I1|]. split; [|rewrite I4; exact Ka].
        rewrite I2, Kn, <- app_assoc. eexists. split; [reflexivity|].
        apply Forall_app. split; [|exact I3].
        destruct (negb (alertsEnabled p) && alertsEnabled p1); repeat constructor. }
    apply G. intros H. congruence.
Qed.

Lemma alerts_need_permission_witness :
  alertsEnabled (fst (clicks [str "denied"; str "granted"]
                        (PageState false [] None, AlertsButton [] [str "btn"; str "btn-outline-primary"])))
  = true
  /\ caption (snd (clicks [str "denied"; str "granted"]
                        (PageState false [] None, AlertsButton [] [str "btn"; str "btn-outline-primary"])))
     = caption_enabled.
Proof.
  split; [reflexivity|].
  apply (proj2 (alerts_need_permission [str "denied"; str "granted"]
                  (PageState false [] None)
                  (AlertsButton [] [str "btn"; str "btn-outline-primary"])) eq_refl).
  reflexivity.
Defined.

(** ** The log pane *)

Lemma split_line (a b : jsstring) :
  ~ In 10%N a -> split 10 (a ++ 10%N :: b) = a :: split 10 b.
Proof.
  induction a as [|c a IH]; intros H; simpl; [reflexivity|].
  destruct (N.eqb_spec c 10) as [->|_].
  - exfalso. apply H. left. reflexivity.
  - rewrite IH; [reflexivity|]. intros Hin. apply H. right. exact Hin.
Qed.

Lemma split_join (lines : list jsstring) :
  lines <> [] -> Forall (fun l => ~ In 10%N l) lines ->
  split 10 (join [10%N] lines) = lines.
Proof.
  induction lines as [|l lines IH]; intros Hne H; [congruence|].
  pose proof (Forall_inv H) as Hl. apply Forall_inv_tail in H.
  destruct lines as [|l' lines].
  - simpl. apply split_single_line. exact Hl.
  - change (join [10%N] (l :: l' :: lines)) with (l ++ [10%N] ++ join [10%N] (l' :: lines)).
    simpl app. rewrite split_line by exact Hl. f_equal. apply IH; [discriminate | exact H].
Qed.

Lemma split_pane (logs : list log_line) :
  Forall (fun l => ~ In 10%N (format_line l)) logs ->
  split 10 (pane_text logs)
  = match logs with [] => [[]] | _ :: _ => map format_line logs end.
Proof.
  intros H. destruct logs as [|l logs]; [reflexivity|].
  unfold pane_text. apply split_join; [discriminate|]. apply Forall_map. exact H.
Qed.

(** X6.  When no time stamp, level or message holds a line break, the
    text of the log pane cut at the line breaks gives back the formatted
    logs, in order, when there is at least one log, and a single empty
    line when there is none: the pane has one line per log, and one line
    for no log.  The same holds of the logs that a level filter keeps,
    which are exactly the logs whose level is the one chosen, and all the
    logs for the empty choice. *)
Theorem pane_line_per_log (lvl : jsstring) (logs : list log_line) :
  Forall (fun l => ~ In 10%N (format_line l)) logs ->
  split 10 (pane_text logs)
  = match logs with [] => [[]] | _ :: _ => map format_line logs end
  /\ length (split 10 (pane_text logs)) = Nat.max 1 (length logs)
  /\ (let kept := match lvl with [] => logs | _ :: _ => filter (has_level lvl) logs end in
      split 10 (fst (levelFilter_change lvl logs))
      = match kept with [] => [[]] | _ :: _ => map format_line kept end)
  /\ (forall l, In l (filter (has_level lvl) logs) <-> In l logs /\ level l = Some lvl).
Proof.
  intros H. split; [|split; [|split]].
  - apply split_pane. exact H.
  - rewrite (split_pane logs H). destruct logs; simpl; [reflexivity|].
    rewrite length_map. reflexivity.
  - unfold levelFilter_change. cbn [fst]. cbv zeta. apply split_pane.
    destruct lvl as [|c lvl]; [exact H|].
    apply Forall_forall. intros l Hin. apply filter_In in Hin.
    exact (proj1 (Forall_forall _ _) H l (proj1 Hin)).
  - intros l. rewrite filter_In. unfold has_level. split.
    + intros [Hin Hl]. split; [exact Hin|]. destruct (level l) as [s|]; [|discriminate].
      apply jsstring_eqb_eq in Hl. congruence.
    + intros [Hin Hl]. split; [exact Hin|]. rewrite Hl. apply jsstring_eqb_refl.
Qed.

Lemma pane_line_per_log_witness :
  split 10 (pane_text [LogLine (Some (str "12:00")) (Some (str "INFO")) (str "login ok") (Log JUndefined JNull);
                       LogLine None None (str "disk full") (Log JUndefined JNull)])
  = [str "12:00 INFO login ok"; str "  disk full"]
  /\ split 10 (fst (levelFilter_change (str "ERROR")
                     [LogLine (Some (str "12:00")) (Some (str "INFO")) (str "login ok") (Log JUndefined JNull);
                      LogLine None None (str "disk full") (Log JUndefined JNull)]))
     = [[]].
Proof.
  pose proof (pane_line_per_log (str "ERROR")
                [LogLine (Some (str "12:00")) (Some (str "INFO")) (str "login ok") (Log JUndefined JNull);
                 LogLine None None (str "disk full") (Log JUndefined JNull)]
                ltac:(repeat constructor; vm_compute; intuition discriminate)) as (E1 & _ & E2 & _).
  split; [exact E1 | exact E2].
Defined.
(** ** The anomaly list: errors and repetition *)

(** X7.  When one of the first 50 anomalies has no numeric score,
    [updateAnomalyList] throws a TypeError at that anomaly: the items of
    the anomalies before it are in the list, it and the anomalies after it
    are not, and the alert for the batch has been raised all the same. *)
Theorem render_stops_at_missing_score
    (before after : list anomaly) (a : anomaly) (p : page) (old : list item) :
  anomalyList p = Some old ->
  length before < 50 ->
  Forall numeric before ->
  (forall q, score a <> JNum q) ->
  exists items,
    updateAnomalyList (before ++ a :: after) p
    = (Throw TypeError,
       PageState (alertsEnabled p)
         (notifications p ++ high_alerts p (before ++ a :: after)) (Some items))
    /\ Forall2 shown_as before items.
Proof.
  intros Hul Hlen Hnum Ha.
  rewrite (updateAnomalyList_unfold _ p old Hul).
  unfold slice_0_50. rewrite firstn_app.
  rewrite firstn_all2 by lia.
  destruct (50 - length before) as [|k] eqn:Ek; [lia|]. cbn [firstn].
  rewrite forEach_app.
  destruct (forEach_render_from_empty before (alertsEnabled p)
              (notifications p ++ high_alerts p (before ++ a :: after)) Hnum)
    as (items & F & E).
  rewrite E. cbn [forEach]. unfold bind. rewrite (render_item_absent a _ Ha).
  exists items. split; [reflexivity | exact F].
Qed.

Lemma render_stops_at_missing_score_witness :
  exists items,
    updateAnomalyList
      [Anomaly 1 (str "sudo su") (JNum (9 # 10)); Anomaly 2 (str "no score") JNull;
       Anomaly 3 (str "late") (JNum (1 # 10))] page_alerts_on
    = (Throw TypeError,
       PageState true
         [Notification high_title (str "Found 1 critical anomalies in the latest analysis.")]
         (Some items))
    /\ length items = 1.
Proof.
  destruct (render_stops_at_missing_score
              [Anomaly 1 (str "sudo su") (JNum (9 # 10))]
              [Anomaly 3 (str "late") (JNum (1 # 10))]
              (Anomaly 2 (str "no score") JNull) page_alerts_on [] eq_refl)
    as (items & E & F).
  - simpl. lia.
  - repeat constructor. exists (9 # 10)%Q. reflexivity.
  - discriminate.
  - exists items. split; [exact E|]. apply Forall2_length in F. simpl in F. congruence.
Defined.

Lemma forEach_frame (l : list anomaly) : forall e n e' n' c,
  fst (forEach render_item l (PageState e n c))
  = fst (forEach render_item l (PageState e' n' c))
  /\ anomalyList (snd (forEach render_item l (PageState e n c)))
     = anomalyList (snd (forEach render_item l (PageState e' n' c))).
Proof.
  induction l as [|a l IH]; intros e n e' n' c; simpl; [auto|].
  unfold bind, render_item. destruct (toFixed_receiver (score a)) as [q|x]; simpl.
  - apply IH.
  - auto.
Qed.

Lemma forEach_some (l : list anomaly) : forall e n c,
  is_some (anomalyList (snd (forEach render_item l (PageState e n (Some c))))) = true.
Proof.
  induction l as [|a l IH]; intros e n c; simpl; [reflexivity|].
  unfold bind, render_item. destruct (toFixed_receiver (score a)); simpl.
  - unfold appendChild. simpl. apply IH.
  - reflexivity.
Qed.

Lemma updateAnomalyList_keeps (anoms : list anomaly) (p : page) :
  alertsEnabled (snd (updateAnomalyList anoms p)) = alertsEnabled p
  /\ is_some (anomalyList (snd (updateAnomalyList anoms p))) = is_some (anomalyList p).
Proof.
  destruct (anomalyList p) as [old|] eqn:Hul.
  - rewrite (updateAnomalyList_unfold anoms p old Hul).
    split; [rewrite (proj1 (forEach_flags _ _)); reflexivity|].
    apply forEach_some.
  - unfold updateAnomalyList. rewrite Hul. simpl. rewrite Hul. auto.
Qed.

(** X8.  On a page that has the anomaly list, the outcome of
    [updateAnomalyList] and the items it leaves depend on the batch only:
    what the list held, the notifications raised so far and the alerts
    flag play no part.  So an analysis run twice on the same batch shows
    the same list as run once, and raises its alert twice. *)
Theorem list_depends_on_batch (anoms : list anomaly) (p p' : page) :
  anomalyList p <> None ->
  anomalyList p' <> None ->
  (fst (updateAnomalyList anoms p) = fst (updateAnomalyList anoms p')
   /\ anomalyList (snd (updateAnomalyList anoms p))
      = anomalyList (snd (updateAnomalyList anoms p')))
  /\ (let p1 := snd (updateAnomalyList anoms p) in
      anomalyList (snd (updateAnomalyList anoms p1)) = anomalyList p1
      /\ notifications (snd (updateAnomalyList anoms p1))
         = notifications p ++ high_alerts p anoms ++ high_alerts p anoms).
Proof.
  assert (G : forall a b : page, anomalyList a <> None -> anomalyList b <> None ->
    fst (updateAnomalyList anoms a) = fst (updateAnomalyList anoms b)
    /\ anomalyList (snd (updateAnomalyList anoms a))
       = anomalyList (snd (updateAnomalyList anoms b))).
  { intros a b Ha Hb.
    destruct (anomalyList a) as [oa|] eqn:Ea; [|congruence].
    destruct (anomalyList b) as [ob|] eqn:Eb; [|congruence].
    rewrite (updateAnomalyList_unfold anoms a oa Ea), (updateAnomalyList_unfold anoms b ob Eb).
    apply forEach_frame. }
  intros Hp Hp'. split; [apply G; assumption|]. cbv zeta.
  pose proof (updateAnomalyList_keeps anoms p) as (Ke & Ks).
  assert (H1 : anomalyList (snd (updateAnomalyList anoms p)) <> None).
  { destruct (anomalyList (snd (updateAnomalyList anoms p))); [discriminate|].
    destruct (anomalyList p); [discriminate | congruence]. }
  split; [apply (G _ p H1 Hp)|].
  rewrite updateAnomalyList_notifications, updateAnomalyList_notifications.
  rewrite Ks. destruct (anomalyList p); [|congruence]. simpl.
  rewrite <- app_assoc. unfold high_alerts. rewrite Ke. reflexivity.
Qed.

Lemma list_depends_on_batch_witness :
  anomalyList (snd (updateAnomalyList batch_sudo page_alerts_on))
  = anomalyList (snd (updateAnomalyList batch_sudo (PageState false [] (Some [])))).
Proof.
  apply (proj1 (list_depends_on_batch batch_sudo page_alerts_on (PageState false [] (Some []))
                  ltac:(discriminate) ltac:(discriminate))).
Defined.
(** ** What a mitigation command can hold *)

Lemma octet_chars (s : jsstring) : octet s -> forallb is_ip_char s = true.
Proof.
  intros [H _]. induction s as [|c s IH]; [reflexivity|].
  simpl in *. apply andb_true_iff in H. destruct H as [Hc Hs].
  unfold is_ip_char at 1. rewrite Hc. simpl. apply IH. exact Hs.
Qed.

Lemma dotted_quad_chars (q : jsstring) :
  dotted_quad q -> forallb is_ip_char q = true /\ 7 <= length q <= 15.
Proof.
  intros (a & b & c & d & -> & Ha & Hb & Hc & Hd). split.
  - repeat rewrite forallb_app. rewrite (octet_chars a Ha), (octet_chars b Hb),
      (octet_chars c Hc), (octet_chars d Hd). reflexivity.
  - destruct Ha as [_ Ha], Hb as [_ Hb], Hc as [_ Hc], Hd as [_ Hd].
    repeat (rewrite length_app; simpl). lia.
Qed.

(** X9.  The command of a proposed mitigation is the template of one of
    the five rules followed by nothing or by a dotted quad found in the
    message: what is appended is 7 to 15 characters, all digits or dots.
    No other text of the message reaches the command, and nothing is
    appended only when the message holds no dotted quad. *)
Theorem command_takes_only_an_address (m : jsstring) (x : mitigation) :
  mitigate m = Some x ->
  exists r suffix,
    In r MITIGATION_MATRIC
    /\ action x = mit_action r
    /\ command x = mit_command r ++ suffix
    /\ forallb is_ip_char suffix = true
    /\ (suffix = [] <-> ~ has_dotted_quad m)
    /\ (suffix <> [] -> 7 <= length suffix <= 15 /\ occurs_in suffix m).
Proof.
  unfold mitigate. rewrite find_mitigation_find.
  destruct (find (fun r => test (mit_regex r) m) MITIGATION_MATRIC) as [r|] eqn:E;
    [|discriminate].
  intros H. injection H as <-. apply find_some in E. destruct E as [Hin _].
  unfold build_command. destruct (exec re_ip m) as [im|] eqn:Ei.
  - apply exec_re_ip_some in Ei. destruct Ei as (before & after & Heq & Hq & _).
    destruct (dotted_quad_chars _ Hq) as [Hc Hl].
    exists r, (matched im). simpl. repeat split; auto.
    + intros Hnil. rewrite Hnil in Hl. simpl in Hl. lia.
    + intros Hno. exfalso. apply Hno. exists before, (matched im), after. auto.
    + lia.
    + lia.
    + exists before, after. exact Heq.
  - apply exec_re_ip_none in Ei. exists r, []. simpl. rewrite app_nil_r.
    repeat split; auto; congruence.
Qed.

Lemma command_takes_only_an_address_witness :
  exists r suffix,
    In r MITIGATION_MATRIC
    /\ str "netplwiz192.168.1.20" = mit_command r ++ suffix
    /\ forallb is_ip_char suffix = true.
Proof.
  destruct (command_takes_only_an_address
              (str "user add eve; rm -rf / from 192.168.1.20")
              (Mitigation (str "Review Privileges") (str "netplwiz192.168.1.20"))
              ltac:(vm_compute; reflexivity))
    as (r & suffix & Hin & _ & Hc & Hs & _).
  exists r, suffix. auto.
Defined.

(** ** The insight and the response of one message *)

Lemma test_included (r r' : regex) (m : jsstring) :
  (forall b s1 s2, matches r b s1 s2 -> matches r' b s1 s2) ->
  test r m = true -> test r' m = true.
Proof.
  intros Hinc H. apply test_true in H. destruct H as (x & H).
  unfold exec in H. apply search_sound in H.
  destruct H as (pre & post & -> & _ & M & _).
  apply Hinc in M. apply (search_complete r' pre (matched x) post true) in M.
  unfold test, exec. destruct (search r' true (pre ++ matched x ++ post)); congruence.
Qed.

Lemma scan_covers_404 (m : jsstring) : test re_404 m = true -> test re_scan m = true.
Proof.
  apply test_included. intros b s1 s2 [H | H]; [left | right; left]; exact H.
Qed.

Lemma sudo_admin_covers_sudo (m : jsstring) :
  test re_sudo m = true -> test re_sudo_admin m = true.
Proof.
  apply test_included. intros b s1 s2 H. left. exact H.
Qed.

Lemma explain_cases (m : jsstring) :
  explain m =
  if test re_scan m then explanation_at 0
  else if test re_500 m then explanation_at 1
  else if test re_credentials m then explanation_at 2
  else if test re_segfault m then explanation_at 3
  else if test re_network m then explanation_at 4
  else if test re_usb m then explanation_at 5
  else if test re_account m then explanation_at 6
  else if test re_sudo m then explanation_at 7
  else None.
Proof. reflexivity. Qed.

Lemma action_cases (m : jsstring) :
  action_for m =
  if test re_credentials m then Some (str "Block IP")
  else if test re_404 m then Some (str "Block Scanning IP")
  else if test re_account m then Some (str "Review Privileges")
  else if test re_sudo_admin m then Some (str "Audit Session")
  else if test re_injection m then Some (str "Block Web Attack")
  else None.
Proof.
  unfold action_for, mitigate, MITIGATION_MATRIC. cbn [find_mitigation mit_regex mit_action].
  destruct (test re_credentials m); [reflexivity|].
  destruct (test re_404 m); [reflexivity|].
  destruct (test re_account m); [reflexivity|].
  destruct (test re_sudo_admin m); [reflexivity|].
  destruct (test re_injection m); reflexivity.
Qed.

Ltac differ H := exfalso; vm_compute in H; discriminate H.

Ltac split_tests H :=
  repeat match type of H with
         | context [if test ?r ?m then _ else _] => destruct (test r m)
         end.

Ltac settle :=
  repeat split; intros H; try solve [auto]; try (differ H);
  split_tests H; solve [differ H | auto].

(** X10.  The insight and the response shown for one message agree.  A
    message explained as a brute-force attempt is answered by Block IP,
    one explained as an account change by Review Privileges, one explained
    as an admin action by Audit Session; and a message answered by Block
    Scanning IP is explained as web scanning.  A message answered by Block
    IP gets one of the first three explanations, and a message with no
    explanation gets no response, Audit Session or Block Web Attack. *)
Theorem insight_and_response_agree (m : jsstring) :
  (explain m = explanation_at 2 -> action_for m = Some (str "Block IP"))
  /\ (explain m = explanation_at 6 -> action_for m = Some (str "Review Privileges"))
  /\ (explain m = explanation_at 7 -> action_for m = Some (str "Audit Session"))
  /\ (action_for m = Some (str "Block Scanning IP") -> explain m = explanation_at 0)
  /\ (action_for m = Some (str "Block IP") ->
        explain m = explanation_at 0 \/ explain m = explanation_at 1
        \/ explain m = explanation_at 2)
  /\ (explain m = None ->
        action_for m = None \/ action_for m = Some (str "Audit Session")
        \/ action_for m = Some (str "Block Web Attack")).
Proof.
  rewrite explain_cases, action_cases.
  pose proof (scan_covers_404 m) as I1. pose proof (sudo_admin_covers_sudo m) as I2.
  destruct (test re_scan m) eqn:E0; [settle|].
  assert (E404 : test re_404 m = false).
  { destruct (test re_404 m); [specialize (I1 eq_refl); discriminate | reflexivity]. }
  rewrite E404. clear I1.
  destruct (test re_500 m) eqn:E1; [settle|].
  destruct (test re_credentials m) eqn:E2; [settle|].
  destruct (test re_segfault m) eqn:E3; [settle|].
  destruct (test re_network m) eqn:E4; [settle|].
  destruct (test re_usb m) eqn:E5; [settle|].
  destruct (test re_account m) eqn:E6; [settle|].
  destruct (test re_sudo m) eqn:E7; [rewrite (I2 eq_refl); settle|].
  repeat split.
  1-5: intros H; try (differ H); split_tests H; differ H.
  intros _. destruct (test re_sudo_admin m); [auto|]. destruct (test re_injection m); auto.
Qed.

Lemma insight_and_response_agree_witness :
  action_for (str "Failed password for root from 10.0.0.9") = Some (str "Block IP").
Proof.
  apply (proj1 (insight_and_response_agree (str "Failed password for root from 10.0.0.9"))).
  vm_compute. reflexivity.
Defined.
(** ** The tokens of a web-access line *)

Lemma test_iff (r : regex) (t : jsstring) :
  test r t = true
  <-> exists pre q post, t = pre ++ q ++ post /\ matches r (is_nil pre) q post.
Proof.
  rewrite test_true. unfold exec. split.
  - intros (x & H). apply search_sound in H.
    destruct H as (pre & post & -> & _ & M & _). exists pre, (matched x), post. auto.
  - intros (pre & q & post & -> & M).
    pose proof (search_complete r pre q post true M) as H.
    destruct (search r true (pre ++ q ++ post)) as [x|]; [eauto | congruence].
Qed.

Lemma is_nil_true (s : jsstring) : is_nil s = true -> s = [].
Proof. destruct s; [reflexivity | discriminate]. Qed.

Lemma matches_quad_then (tail : regex) (b : bool) (q post : jsstring) :
  matches (Cat octet_re (Cat (times 3 (seq [ch "."; octet_re])) tail)) b q post
  <-> exists q1 q2, q = q1 ++ q2 /\ dotted_quad q1 /\ matches tail false q2 post.
Proof.
  cbn [seq fold_right times matches]. split.
  - intros (a & r1 & -> & Ma & g & e0 & -> & Mg & Mt).
    destruct Mg as (g1 & r2 & -> & M1 & g2 & r3 & -> & M2 & g3 & e1 & -> & M3 & ->).
    destruct M1 as (d1 & x1 & -> & D1 & b1 & e2 & -> & B1 & ->).
    destruct M2 as (d2 & x2 & -> & D2 & b2 & e3 & -> & B2 & ->).
    destruct M3 as (d3 & x3 & -> & D3 & b3 & e4 & -> & B3 & ->).
    apply (proj1 (matches_dot _ _ _)) in D1, D2, D3. subst.
    apply (proj1 (matches_octet b a [])) in Ma.
    apply (proj1 (matches_octet b b1 [])) in B1.
    apply (proj1 (matches_octet b b2 [])) in B2.
    apply (proj1 (matches_octet b b3 [])) in B3.
    rewrite (octet_not_nil a Ma), andb_false_r in Mt. simpl in Mt.
    exists (a ++ [46%N] ++ b1 ++ [46%N] ++ b2 ++ [46%N] ++ b3), e0. split.
    + repeat rewrite app_nil_r. repeat (rewrite <- app_assoc; simpl). reflexivity.
    + split; [|exact Mt]. exists a, b1, b2, b3. auto.
  - intros (q1 & q2 & -> & (a & b1 & b2 & b3 & -> & Ha & H1 & H2 & H3) & Mt).
    assert (G : forall bol d t, octet d ->
              matches (Cat (ch ".") (Cat octet_re Eps)) bol ([46%N] ++ d) t).
    { intros bol d t Hd. exists [46%N], d. split; [reflexivity|]. split.
      - exact (proj2 (matches_dot true _ []) eq_refl).
      - exists d, []. rewrite app_nil_r. split; [reflexivity|].
        split; [exact (proj2 (matches_octet true _ []) Hd) | reflexivity]. }
    exists a, (([46%N] ++ b1 ++ [46%N] ++ b2 ++ [46%N] ++ b3) ++ q2).
    split; [repeat (rewrite <- app_assoc; simpl); reflexivity|].
    split; [exact (proj2 (matches_octet true _ []) Ha)|].
    exists ([46%N] ++ b1 ++ [46%N] ++ b2 ++ [46%N] ++ b3), q2.
    split; [reflexivity|]. split.
    + exists ([46%N] ++ b1), ([46%N] ++ b2 ++ [46%N] ++ b3).
      split; [rewrite <- app_assoc; reflexivity|]. split; [apply G; exact H1|].
      exists ([46%N] ++ b2), ([46%N] ++ b3).
      split; [rewrite <- app_assoc; reflexivity|]. split; [apply G; exact H2|].
      exists ([46%N] ++ b3), []. rewrite app_nil_r. split; [reflexivity|].
      split; [apply G; exact H3 | reflexivity].
    + rewrite (octet_not_nil a Ha), andb_false_r. simpl. exact Mt.
Qed.

Lemma matches_cat (r1 r2 : regex) (b : bool) (s1 s2 : jsstring) :
  matches (Cat r1 r2) b s1 s2
  <-> exists a c, s1 = a ++ c /\ matches r1 b a (c ++ s2)
                  /\ matches r2 (b && is_nil a) c s2.
Proof. reflexivity. Qed.

Lemma test_re_ip_token (t : jsstring) : test re_ip_token t = true <-> dotted_quad t.
Proof.
  rewrite test_iff. unfold re_ip_token. cbn [seq fold_right]. fold octet_re.
  change (Cat (ch ".") (Cat octet_re Eps)) with (seq [ch "."; octet_re]). split.
  - intros (pre & q & post & -> & M). apply (proj1 (matches_cat _ _ _ _ _)) in M.
    destruct M as (a0 & r0 & -> & [-> Hb] & M). apply is_nil_true in Hb. subst pre.
    apply (proj1 (matches_quad_then _ _ _ _)) in M. destruct M as (q1 & q2 & -> & Hq & M).
    cbn [matches] in M. destruct M as (e & e' & -> & [-> He] & ->).
    simpl in He. subst post. simpl. repeat rewrite app_nil_r. exact Hq.
  - intros Hq. exists [], t, []. split; [simpl; rewrite app_nil_r; reflexivity|].
    apply (proj2 (matches_cat _ _ _ _ _)). exists [], t.
    split; [reflexivity|]. split; [simpl; auto|].
    apply (proj2 (matches_quad_then _ _ _ _)). exists t, []. split; [rewrite app_nil_r; reflexivity|].
    split; [exact Hq|]. cbn [matches]. exists [], []. auto.
Qed.

Lemma canonicalize_idem (c : N) : canonicalize (canonicalize c) = canonicalize c.
Proof.
  unfold canonicalize. destruct (is_lower c) eqn:E; [|rewrite E; reflexivity].
  unfold is_lower, in_range in *. apply andb_true_iff in E. destruct E as [E1 E2].
  apply N.leb_le in E1, E2.
  destruct ((97 <=? c - 32) && (c - 32 <=? 122))%N eqn:F; [|reflexivity].
  apply andb_true_iff in F. destruct F as [F1 F2]. apply N.leb_le in F1, F2. lia.
Qed.

Lemma matches_chars (cs : list N) : forall b s1 s2,
  matches (seq (map chri cs)) b s1 s2 <-> map canonicalize s1 = map canonicalize cs.
Proof.
  induction cs as [|c cs IH]; intros b s1 s2; cbn [map seq fold_right matches].
  - split; [intros ->; reflexivity|]. intros H. destruct s1; [reflexivity | discriminate].
  - split.
    + intros (a & r & -> & (x & -> & Hx) & M). apply IH in M.
      apply N.eqb_eq in Hx. simpl. rewrite Hx, M. reflexivity.
    + intros H. destruct s1 as [|x s1]; [discriminate|]. simpl in H.
      injection H as Hx Hs. exists [x], s1. split; [reflexivity|]. split.
      * exists x. split; [reflexivity|]. apply N.eqb_eq. exact Hx.
      * apply IH. exact Hs.
Qed.

Lemma matches_liti (w : string) (b : bool) (s1 s2 : jsstring) :
  matches (liti w) b s1 s2 <-> map canonicalize s1 = map canonicalize (str w).
Proof. apply matches_chars. Qed.

Lemma test_re_method_token (t : jsstring) : test re_method_token t = true <-> method_word t.
Proof.
  rewrite test_iff. unfold re_method_token, method_word. cbn [seq fold_right]. split.
  - intros (pre & q & post & -> & M). cbn [matches] in M.
    destruct M as (a0 & r0 & -> & [-> Hb] & w & r1 & -> & M & e & e' & -> & [-> He] & ->).
    apply is_nil_true in Hb. subst pre. simpl in He. subst post.
    simpl. repeat rewrite app_nil_r.
    repeat rewrite matches_liti in M.
    destruct M as [M | [M | [M | [M | M]]]]; rewrite M; vm_compute; auto 6.
  - intros H. exists [], t, []. split; [simpl; rewrite app_nil_r; reflexivity|].
    cbn [matches]. exists [], t. split; [reflexivity|]. split; [auto|].
    exists t, []. split; [rewrite app_nil_r; reflexivity|]. split.
    + repeat rewrite matches_liti.
      destruct H as [H | [H | [H | [H | [H | []]]]]]; rewrite <- H; auto 6.
    + exists [], []. auto.
Qed.

Lemma test_re_status_token (t : jsstring) : test re_status_token t = true <-> status_code t.
Proof.
  rewrite test_iff. unfold re_status_token, status_code. cbn [seq fold_right]. split.
  - intros (pre & q & post & -> & M). cbn [matches] in M.
    destruct M as (a0 & r0 & -> & [-> Hb] & x1 & r1 & -> & (a & -> & Ha)
                   & d & r2 & -> & (Hall & Hlo & Hhi) & e & e' & -> & [-> He] & ->).
    apply is_nil_true in Hb. subst pre. simpl in He. subst post.
    specialize (Hhi 2 eq_refl).
    destruct d as [|b [|c [|? ?]]]; simpl in Hlo, Hhi; try lia.
    simpl in Hall. repeat rewrite andb_true_iff in Hall. destruct Hall as (Hb & Hc & _).
    exists a, b, c. simpl. auto.
  - intros (a & b & c & -> & Ha & Hb & Hc).
    exists [], [a; b; c], []. split; [reflexivity|].
    cbn [matches]. exists [], [a; b; c]. split; [reflexivity|]. split; [auto|].
    exists [a], [b; c]. split; [reflexivity|]. split; [eauto|].
    exists [b; c], []. split; [reflexivity|]. split.
    + simpl. rewrite Hb, Hc. repeat split; auto. intros h Hh. injection Hh as <-. lia.
    + exists [], []. auto.
Qed.

Lemma find_first_where (T : Type) (f : T -> bool) (P : T -> Prop) (l : list T) :
  (forall y, f y = true <-> P y) ->
  (forall x, find f l = Some x <-> first_where P l x)
  /\ (find f l = None <-> Forall (fun y => ~ P y) l).
Proof.
  intros Hf.
  assert (Hn : forall l', Forall (fun y => f y = false) l' <-> Forall (fun y => ~ P y) l').
  { intros l'. split; apply Forall_impl; intros y Hy.
    - intros HP. apply Hf in HP. congruence.
    - destruct (f y) eqn:E; [|reflexivity]. exfalso. apply Hy, Hf, E. }
  split.
  - intros x. rewrite find_first_some. unfold first_such, first_where. split.
    + intros (pre & post & E & Hpre & Hx). exists pre, post.
      split; [exact E|]. split; [apply Hn; exact Hpre | apply Hf; exact Hx].
    + intros (pre & post & E & Hpre & Hx). exists pre, post.
      split; [exact E|]. split; [apply Hn; exact Hpre | apply Hf; exact Hx].
  - rewrite find_first_none. apply Hn.
Qed.

Lemma web_access_fields (m : jsstring) c ip me st col :
  renderLogCard m = WebAccess c ip me st col m ->
  includes m (str ",") = true
  /\ c = find_country (split 44 m) /\ ip = find_ip (split 44 m)
  /\ me = find_method (split 44 m) /\ st = find_status (split 44 m)
  /\ col = status_color st
  /\ truthy ip || truthy me || truthy st = true.
Proof.
  intros H. apply renderLogCard_web in H. unfold web_access in H.
  destruct (includes m (str ",")); [|discriminate].
  destruct (truthy (find_ip (split 44 m)) || truthy (find_method (split 44 m))
            || truthy (find_status (split 44 m))) eqn:E; [|discriminate].
  injection H as <- <- <- <- <-. repeat split; auto.
Qed.

(** X11.  In a web-access card the IP address is the first
    comma-separated token whose trimmed text is a dotted quad, the method
    the first whose trimmed text is GET, POST, PUT, DELETE or HEAD in any
    letter case, and the status the first whose trimmed text is three
    digits beginning with 1 to 5; a field is absent iff no token has its
    shape, and at least one of the three is present.  The tokens are kept
    as they stand between the commas, white space included. *)
Theorem fields_are_first_tokens (m : jsstring) (c ip me st : option jsstring) (col : jsstring) :
  renderLogCard m = WebAccess c ip me st col m ->
  (forall p, ip = Some p <-> first_where (fun t => dotted_quad (trim t)) (split 44 m) p)
  /\ (ip = None <-> Forall (fun t => ~ dotted_quad (trim t)) (split 44 m))
  /\ (forall p, me = Some p <-> first_where (fun t => method_word (trim t)) (split 44 m) p)
  /\ (me = None <-> Forall (fun t => ~ method_word (trim t)) (split 44 m))
  /\ (forall p, st = Some p <-> first_where (fun t => status_code (trim t)) (split 44 m) p)
  /\ (st = None <-> Forall (fun t => ~ status_code (trim t)) (split 44 m))
  /\ (ip <> None \/ me <> None \/ st <> None).
Proof.
  intros H. apply web_access_fields in H.
  destruct H as (_ & _ & -> & -> & -> & _ & Ht).
  pose proof (find_first_where _ (fun p => test re_ip_token (trim p))
                (fun t => dotted_quad (trim t)) (split 44 m)
                (fun y => test_re_ip_token (trim y))) as [I1 I2].
  pose proof (find_first_where _ (fun p => test re_method_token (trim p))
                (fun t => method_word (trim t)) (split 44 m)
                (fun y => test_re_method_token (trim y))) as [M1 M2].
  pose proof (find_first_where _ (fun p => test re_status_token (trim p))
                (fun t => status_code (trim t)) (split 44 m)
                (fun y => test_re_status_token (trim y))) as [S1 S2].
  repeat (split; [assumption|]).
  unfold find_ip, find_method, find_status in *.
  destruct (find (fun p => test re_ip_token (trim p)) (split 44 m)); [left; discriminate|].
  destruct (find (fun p => test re_method_token (trim p)) (split 44 m));
    [right; left; discriminate|].
  destruct (find (fun p => test re_status_token (trim p)) (split 44 m));
    [right; right; discriminate | discriminate Ht].
Qed.

Lemma fields_are_first_tokens_witness :
  first_where (fun t => method_word (trim t))
    (split 44 (str "alice, delete ,/tmp,10.1.1.1")) (str " delete ").
Proof.
  apply (proj1 (proj2 (proj2 (fields_are_first_tokens
           (str "alice, delete ,/tmp,10.1.1.1") None (Some (str "10.1.1.1"))
           (Some (str " delete ")) None (str "secondary")
           ltac:(vm_compute; reflexivity))))).
  reflexivity.
Defined.

(** ** The colour of the status badge *)

Lemma trimStart_keeps_last (l : jsstring) (x : N) :
  is_space x = false -> exists l', trimStart (l ++ [x]) = l' ++ [x].
Proof.
  intros Hx. induction l as [|c l IH]; simpl.
  - rewrite Hx. exists []. reflexivity.
  - destruct (is_space c); [exact IH | exists (c :: l); reflexivity].
Qed.

Lemma trim_head (x : N) (rest : jsstring) :
  is_space x = false -> exists t, trim (x :: rest) = x :: t.
Proof.
  intros Hx. unfold trim, trimEnd. simpl trimStart at 2. rewrite Hx. simpl rev at 2.
  destruct (trimStart_keeps_last (rev rest) x Hx) as (l' & ->).
  rewrite rev_app_distr. simpl. eauto.
Qed.

Lemma space_colour (x : N) : is_space x = true -> color_of_class x = str "secondary".
Proof.
  intros Hx. unfold color_of_class.
  destruct (x =? 50)%N eqn:E2; [apply N.eqb_eq in E2; subst; discriminate|].
  destruct (x =? 52)%N eqn:E4; [apply N.eqb_eq in E4; subst; discriminate|].
  destruct (x =? 53)%N eqn:E5; [apply N.eqb_eq in E5; subst; discriminate|].
  reflexivity.
Qed.

Lemma status_color_head (x : N) (rest : jsstring) :
  status_color (Some (x :: rest)) = color_of_class x.
Proof.
  unfold status_color, color_of_class. cbn [truthy show].
  change (str "2") with [50%N]. change (str "4") with [52%N]. change (str "5") with [53%N].
  cbn [startsWith].
  replace (startsWith rest []) with true by (destruct rest; reflexivity).
  repeat rewrite andb_true_r.
  rewrite (N.eqb_sym 50 x), (N.eqb_sym 52 x), (N.eqb_sym 53 x).
  destruct (N.eqb_spec x 50); [subst; reflexivity|].
  destruct (N.eqb_spec x 52); [subst; reflexivity|].
  destruct (N.eqb_spec x 53); reflexivity.
Qed.

(** X12.  The status of a web-access card is recognised on the trimmed
    token but coloured on the token as it stands: the badge colour is
    decided by the first character of the untrimmed token, success for 2,
    warning for 4, danger for 5 and secondary otherwise.  So a status that
    follows a blank after its comma is always shown in the secondary
    colour, whatever its class. *)
Theorem status_badge_colour (m : jsstring) (c ip me : option jsstring) (s col : jsstring) :
  renderLogCard m = WebAccess c ip me (Some s) col m ->
  status_code (trim s)
  /\ exists x rest, s = x :: rest
       /\ col = color_of_class x
       /\ (is_space x = true -> col = str "secondary")
       /\ (is_space x = false -> hd_error (trim s) = Some x).
Proof.
  intros H. apply web_access_fields in H.
  destruct H as (_ & _ & _ & _ & Hst & -> & _).
  symmetry in Hst. unfold find_status in Hst. apply find_some in Hst.
  destruct Hst as [_ Ht]. apply (proj1 (test_re_status_token _)) in Ht.
  split; [exact Ht|].
  destruct s as [|x rest].
  - destruct Ht as (a & b & d & E & _). discriminate E.
  - exists x, rest. split; [reflexivity|]. rewrite status_color_head.
    split; [reflexivity|]. split.
    + apply space_colour.
    + intros Hx. destruct (trim_head x rest Hx) as (t & ->). reflexivity.
Qed.

Lemma status_badge_colour_witness :
  status_code (trim (str " 500"))
  /\ exists x rest, str " 500" = x :: rest
       /\ str "secondary" = color_of_class x
       /\ (is_space x = true -> str "secondary" = str "secondary")
       /\ (is_space x = false -> hd_error (trim (str " 500")) = Some x).
Proof.
  apply (status_badge_colour (str "10.0.0.7, GET, 500") None (Some (str "10.0.0.7"))
           (Some (str " GET")) (str " 500") (str "secondary")).
  vm_compute. reflexivity.
Defined.

(** ** The quoted fields of a Windows event *)

Section MatcherCaptures.

Variable A : Type.

(** What [rmatch] hands to its continuation as group 1. *)
Lemma rmatchc_sound : forall r b s cap (k : bool -> jsstring -> option jsstring -> option A) a,
  rmatch r b s cap k = Some a ->
  exists s1 s2 cap', s = s1 ++ s2 /\ matchc r b s1 s2 cap cap'
    /\ k (b && is_nil s1) s2 cap' = Some a.
Proof.
  induction r as [| | |p|r1 IH1 r2 IH2|r1 IH1 r2 IH2|p lo hi|r IH];
    intros b s cap k a H; simpl in H.
  - exists [], s, cap. rewrite andb_true_r. simpl. auto.
  - destruct b; [|discriminate]. exists [], s, cap. simpl. auto.
  - destruct s; [|discriminate]. exists [], [], cap. rewrite andb_true_r. simpl. auto.
  - destruct s as [|c s]; [discriminate|]. destruct (p c) eqn:Hp; [|discriminate].
    exists [c], s, cap. rewrite andb_false_r. simpl.
    split; [reflexivity|]. split; [|exact H]. split; [|reflexivity].
    exists c. auto.
  - apply IH1 in H. destruct H as (a1 & rest & cap1 & -> & M1 & H).
    apply IH2 in H. destruct H as (b1 & s2 & cap2 & -> & M2 & H).
    exists (a1 ++ b1), s2, cap2. rewrite is_nil_app, andb_assoc, app_assoc.
    split; [reflexivity|]. split; [|exact H]. simpl. exists a1, b1, cap1. auto.
  - destruct (rmatch r1 b s cap k) as [a'|] eqn:H1.
    + injection H as ->. apply IH1 in H1.
      destruct H1 as (s1 & s2 & cap' & -> & M & Hk). exists s1, s2, cap'. simpl. auto.
    + apply IH2 in H.
      destruct H as (s1 & s2 & cap' & -> & M & Hk). exists s1, s2, cap'. simpl. auto.
  - apply rep_sound in H. destruct H as (s1 & s2 & -> & Hall & Hlo & Hhi & Hk).
    exists s1, s2, cap. simpl. repeat split; auto.
  - apply IH in H. destruct H as (s1 & s2 & cap' & -> & M & Hk).
    rewrite firstn_consumed in Hk. exists s1, s2, (Some s1). simpl.
    split; [reflexivity|]. split; [|exact Hk]. split; [|reflexivity].
    exists cap'. exact M.
Qed.

End MatcherCaptures.

Lemma match_at_captures (r : regex) (b : bool) (s : jsstring) (x : match_result) :
  match_at r b s = Some x ->
  exists s2, s = matched x ++ s2 /\ matchc r b (matched x) s2 None (group1 x).
Proof.
  unfold match_at. intros H. apply rmatchc_sound in H.
  destruct H as (s1 & s2 & cap' & -> & M & H).
  injection H as <-. simpl. rewrite firstn_consumed. eauto.
Qed.

(** [exec] returns the leftmost match, with the group as the pattern sets it. *)
Lemma exec_captures (r : regex) (m : jsstring) (x : match_result) :
  exec r m = Some x ->
  exists pre post,
    m = pre ++ matched x ++ post
    /\ matchc r (is_nil pre) (matched x) post None (group1 x)
    /\ forall pre' q post',
         m = pre' ++ q ++ post' -> matches r (is_nil pre') q post' ->
         length pre <= length pre'.
Proof.
  unfold exec. intros H. apply search_sound in H.
  destruct H as (pre & post & E & Hat & _ & Hleft).
  apply match_at_captures in Hat. destruct Hat as (s2 & E2 & M).
  apply app_inv_head in E2. subst s2. exists pre, post. auto.
Qed.

Lemma matches_run (cs : list N) : forall b s1 s2,
  matches (seq (map chr cs)) b s1 s2 <-> s1 = cs.
Proof.
  induction cs as [|c cs IH]; intros b s1 s2; cbn [map seq fold_right matches].
  - tauto.
  - split.
    + intros (a & r & -> & (x & -> & Hx) & M). apply IH in M.
      apply N.eqb_eq in Hx. subst. reflexivity.
    + intros ->. exists [c], cs. split; [reflexivity|]. split.
      * exists c. split; [reflexivity | apply N.eqb_refl].
      * apply IH. reflexivity.
Qed.

Lemma matchc_run (cs : list N) : forall b s1 s2 cap cap',
  matchc (seq (map chr cs)) b s1 s2 cap cap' -> s1 = cs /\ cap' = cap.
Proof.
  induction cs as [|c cs IH]; intros b s1 s2 cap cap'; cbn [map seq fold_right matchc].
  - tauto.
  - intros (a & r & c1 & -> & ((x & -> & Hx) & ->) & M). apply IH in M.
    destruct M as [-> ->]. apply N.eqb_eq in Hx. subst. auto.
Qed.

Lemma matches_field (key : string) (body : N -> bool) (lo : nat) (b : bool)
    (q post : jsstring) :
  matches (field_re key body lo) b q post
  <-> exists w d, q = str key ++ w ++ [39%N] ++ d ++ [39%N]
        /\ forallb is_space w = true /\ forallb body d = true /\ lo <= length d.
Proof.
  unfold field_re, star. cbn [seq fold_right matches]. split.
  - intros (k & r1 & -> & Mk & w & r2 & -> & (Hw & _) & q1 & r3 & -> & (c1 & -> & H1)
            & d & r4 & -> & (Hd & Hlo & _) & q2 & e & -> & (c2 & -> & H2) & ->).
    apply (proj1 (matches_run _ _ _ _)) in Mk. subst k.
    apply N.eqb_eq in H1, H2. simpl in H1, H2. subst c1 c2.
    exists w, d. auto.
  - intros (w & d & -> & Hw & Hd & Hlo).
    exists (str key), (w ++ [39%N] ++ d ++ [39%N]). split; [reflexivity|].
    split; [apply (proj2 (matches_run _ _ _ _)); reflexivity|].
    exists w, ([39%N] ++ d ++ [39%N]). split; [reflexivity|].
    split; [repeat split; [exact Hw | lia | discriminate]|].
    exists [39%N], (d ++ [39%N]). split; [reflexivity|].
    split; [exists 39%N; split; reflexivity|].
    exists d, [39%N]. split; [reflexivity|].
    split; [repeat split; [exact Hd | exact Hlo | discriminate]|].
    exists [39%N], []. split; [reflexivity|].
    split; [exists 39%N; split; reflexivity | reflexivity].
Qed.

Lemma matchc_field (key : string) (body : N -> bool) (lo : nat) (b : bool)
    (q post : jsstring) (cap cap' : option jsstring) :
  matchc (field_re key body lo) b q post cap cap' ->
  exists w d, q = str key ++ w ++ [39%N] ++ d ++ [39%N]
    /\ forallb is_space w = true /\ forallb body d = true /\ lo <= length d
    /\ cap' = Some d.
Proof.
  unfold field_re, star. cbn [seq fold_right matchc].
  intros (k & r1 & p1 & -> & Mk & w & r2 & p2 & -> & ((Hw & _) & ->)
          & q1 & r3 & p3 & -> & ((c1 & -> & H1) & ->)
          & d & r4 & p4 & -> & ((p0 & (Hd & Hlo & _) & _) & ->)
          & q2 & e & p5 & -> & ((c2 & -> & H2) & ->) & -> & ->).
  apply matchc_run in Mk. destruct Mk as [-> ->].
  apply N.eqb_eq in H1, H2. simpl in H1, H2. subst c1 c2.
  exists w, d. auto.
Qed.

Lemma field_at_matches (key : string) (body : N -> bool) (lo : nat)
    (m before d : jsstring) :
  field_at key body lo m before d ->
  exists q after, m = before ++ q ++ after
    /\ matches (field_re key body lo) (is_nil before) q after.
Proof.
  intros (w & after & -> & Hw & Hd & Hlo).
  exists (str key ++ w ++ [39%N] ++ d ++ [39%N]), after. split.
  - repeat (rewrite <- app_assoc; simpl). reflexivity.
  - apply (proj2 (matches_field _ _ _ _ _ _)). exists w, d. auto.
Qed.

Lemma exec_field_some (key : string) (body : N -> bool) (lo : nat)
    (m : jsstring) (x : match_result) :
  exec (field_re key body lo) m = Some x ->
  exists d, group1 x = Some d /\ first_field key body lo m d.
Proof.
  intros H. apply exec_captures in H. destruct H as (pre & post & E & M & Hleft).
  apply matchc_field in M. destruct M as (w & d & Eq & Hw & Hd & Hlo & Hc).
  exists d. split; [exact Hc|]. exists pre. split.
  - exists w, post. rewrite E, Eq. repeat (rewrite <- app_assoc; simpl). auto.
  - intros before' d' F. apply field_at_matches in F.
    destruct F as (q & after & E' & M'). exact (Hleft before' q after E' M').
Qed.

Lemma exec_field_none (key : string) (body : N -> bool) (lo : nat) (m : jsstring) :
  exec (field_re key body lo) m = None <-> ~ has_field key body lo m.
Proof.
  split.
  - intros H (before & d & F). apply field_at_matches in F.
    destruct F as (q & after & -> & M).
    apply (search_complete _ before q after true) in M. unfold exec in H. contradiction.
  - intros H. destruct (exec (field_re key body lo) m) as [x|] eqn:E; [|reflexivity].
    exfalso. apply H. apply exec_field_some in E.
    destruct E as (d & _ & before & F & _). exists before, d. exact F.
Qed.

(** A run of characters of a class that ends at a character outside the
    class is determined by the input. *)
Lemma run_until (p : N -> bool) (x : N) : p x = false ->
  forall a a' t t',
    forallb p a = true -> forallb p a' = true ->
    a ++ x :: t = a' ++ x :: t' -> a = a' /\ t = t'.
Proof.
  intros Hx. induction a as [|c a IH]; intros [|c' a'] t t' Ha Ha' H; simpl in *.
  - injection H as ->. auto.
  - injection H as <- _. rewrite Hx in Ha'. discriminate.
  - injection H as -> _. rewrite Hx in Ha. discriminate.
  - injection H as <- H. apply andb_true_iff in Ha, Ha'.
    destruct Ha as [_ Ha]. destruct Ha' as [_ Ha'].
    destruct (IH a' t t' Ha Ha' H) as [-> ->]. auto.
Qed.

Lemma first_field_unique (key : string) (body : N -> bool) (lo : nat)
    (m d d' : jsstring) :
  body 39%N = false ->
  first_field key body lo m d -> first_field key body lo m d' -> d = d'.
Proof.
  intros Hq (b1 & F1 & L1) (b2 & F2 & L2).
  pose proof (L1 _ _ F2) as L12. pose proof (L2 _ _ F1) as L21.
  destruct F1 as (w1 & a1 & E1 & Hw1 & Hd1 & _).
  destruct F2 as (w2 & a2 & E2 & Hw2 & Hd2 & _).
  rewrite E1 in E2. apply app_inv_length in E2; [|lia]. destruct E2 as [_ E2].
  apply app_inv_head in E2. simpl in E2.
  apply (run_until is_space 39%N eq_refl) in E2; auto. destruct E2 as [_ E2].
  apply (run_until body 39%N Hq) in E2; auto. destruct E2 as [E2 _]. exact E2.
Qed.

Lemma renderLogCard_windows (m id summary text : jsstring) :
  renderLogCard m = WindowsEvent id summary text ->
  windows_event m = Ok (WindowsEvent id summary text).
Proof.
  unfold renderLogCard. destruct (web_access m) as [v|] eqn:Hw.
  - unfold web_access in Hw. destruct (includes m (str ",")); [|discriminate].
    destruct (truthy (find_ip (split 44 m)) || truthy (find_method (split 44 m))
              || truthy (find_status (split 44 m))); [|discriminate].
    injection Hw as <-. discriminate.
  - destruct (windows_shaped m); [|discriminate].
    destruct (windows_event m) as [v|e]; simpl; [intros ->; reflexivity | discriminate].
Qed.

Lemma exec_two_fields (key1 key2 : string) (body : N -> bool) (lo : nat)
    (dflt m : jsstring) :
  exists v,
    match
      match exec (field_re key1 body lo) m with
      | Some x => Some x
      | None => exec (field_re key2 body lo) m
      end
    with
    | Some x => group1 x
    | None => Some dflt
    end = Some v
    /\ first_of_two key1 key2 body lo dflt m v.
Proof.
  unfold first_of_two.
  destruct (exec (field_re key1 body lo) m) as [x|] eqn:E1.
  - apply exec_field_some in E1. destruct E1 as (d & G & F). exists d. auto.
  - apply (proj1 (exec_field_none _ _ _ _)) in E1.
    destruct (exec (field_re key2 body lo) m) as [x|] eqn:E2.
    + apply exec_field_some in E2. destruct E2 as (d & G & F). exists d. auto.
    + apply (proj1 (exec_field_none _ _ _ _)) in E2. exists dflt. auto 6.
Qed.

Lemma WindowsEvent_inj (a b c a' b' c' : jsstring) :
  Ok (WindowsEvent a b c) = Ok (WindowsEvent a' b' c') ->
  a = a' /\ b = b' /\ c = c'.
Proof. intros H. injection H. auto. Qed.

Lemma windows_event_parts (m id summary text : jsstring) :
  windows_event m = Ok (WindowsEvent id summary text) ->
  first_of_two "'Event ID':" "'Source':" is_digit 1 (str "Unknown") m id
  /\ (exists raw,
        first_of_two "'Message':" "'Task Category':" not_quote 0 [] m raw
        /\ text = unescape raw)
  /\ summary = match or_else (lookup WIN_EVENT_DESCRIPTIONS id) [] with
               | [] => synthesize (Some id) text
               | c :: s => c :: s
               end.
Proof.
  unfold windows_event.
  destruct (exec_two_fields "'Event ID':" "'Source':" is_digit 1 (str "Unknown") m)
    as (v & Ev & Fv).
  destruct (exec_two_fields "'Message':" "'Task Category':" not_quote 0 [] m)
    as (raw & Er & Fr).
  change (field_re "'Event ID':" is_digit 1) with re_event_id in Ev.
  change (field_re "'Source':" is_digit 1) with re_source in Ev.
  change (field_re "'Message':" not_quote 0) with re_message in Er.
  change (field_re "'Task Category':" not_quote 0) with re_task_category in Er.
  revert Ev Er.
  destruct (exec re_event_id m) as [y|]; [|destruct (exec re_source m) as [y|]];
    (destruct (exec re_message m) as [x|]; [|destruct (exec re_task_category m) as [x|]]);
    cbv beta iota; intros Ev Er;
    first [rewrite Ev | injection Ev as <-]; first [rewrite Er | injection Er as <-];
    cbv beta iota; cbn [show]; intros H;
    apply WindowsEvent_inj in H; destruct H as (<- & <- & <-);
    (split; [exact Fv|]); (split; [eexists; split; [exact Fr | reflexivity]|]);
    match goal with
    | |- context [or_else ?o ?d] => destruct (or_else o d); reflexivity
    end.
Qed.

(** X13.  The id shown on a Windows event card is the value of the first
    ['Event ID':] field of the message, a field being the key followed by
    optional white space and by a run of one or more digits between
    quotes; when the message has no such field it is the value of the
    first ['Source':] field, and [Unknown] when it has neither.  A key
    whose quoted value is not a run of digits is passed over.  The value
    of the first field of a key is determined by the message. *)
Theorem event_id_is_first_field (m id summary text : jsstring) :
  renderLogCard m = WindowsEvent id summary text ->
  first_of_two "'Event ID':" "'Source':" is_digit 1 (str "Unknown") m id
  /\ forall key d d',
       first_field key is_digit 1 m d -> first_field key is_digit 1 m d' -> d = d'.
Proof.
  intros H. apply renderLogCard_windows, windows_event_parts in H. split.
  - exact (proj1 H).
  - intros key d d'. apply first_field_unique. reflexivity.
Qed.

Lemma event_id_is_first_field_witness :
  first_of_two "'Event ID':" "'Source':" is_digit 1 (str "Unknown")
    (str "{'Source': '7', 'Event ID': 'n/a', 'Event ID':  '4625'}") (str "4625").
Proof.
  apply (proj1 (event_id_is_first_field
                  (str "{'Source': '7', 'Event ID': 'n/a', 'Event ID':  '4625'}")
                  (str "4625") (str "Failed Logon (Invalid Credentials)") [] eq_refl)).
Defined.

(** ** The details text *)

Lemma stripPrefix_some (p : jsstring) : forall s rest,
  stripPrefix p s = Some rest -> s = p ++ rest.
Proof.
  induction p as [|c p IH]; intros s rest H; simpl in H.
  - injection H as ->. reflexivity.
  - destruct s as [|d s]; [discriminate|].
    destruct (N.eqb_spec c d) as [->|_]; [|discriminate].
    apply IH in H. subst. reflexivity.
Qed.

Lemma replaceAll_aux_keeps (p : N -> bool) (pat rep : jsstring) :
  forallb p rep = true ->
  forall fuel s, forallb p s = true -> forallb p (replaceAll_aux fuel pat rep s) = true.
Proof.
  intros Hrep. induction fuel as [|fuel IH]; intros s Hs; simpl; [exact Hs|].
  destruct (stripPrefix pat s) as [rest|] eqn:E.
  - apply stripPrefix_some in E. subst s. rewrite forallb_app in Hs.
    apply andb_true_iff in Hs. rewrite forallb_app, Hrep. simpl. apply IH. tauto.
  - destruct s as [|c s]; [reflexivity|]. simpl in *.
    apply andb_true_iff in Hs. destruct Hs as [-> Hs]. simpl. apply IH. exact Hs.
Qed.

Lemma replaceAll_aux_absent (p : N -> bool) (pat rep : jsstring) :
  forallb p pat = false ->
  forall fuel s, forallb p s = true -> replaceAll_aux fuel pat rep s = s.
Proof.
  intros Hpat. induction fuel as [|fuel IH]; intros s Hs; simpl; [reflexivity|].
  destruct (stripPrefix pat s) as [rest|] eqn:E.
  - apply stripPrefix_some in E. subst s. rewrite forallb_app, Hpat in Hs. discriminate.
  - destruct s as [|c s]; [reflexivity|]. simpl in Hs.
    apply andb_true_iff in Hs. rewrite IH; tauto.
Qed.

Lemma not_quote_In (s : jsstring) : forallb not_quote s = true <-> ~ In 39%N s.
Proof.
  rewrite forallb_forall. unfold not_quote. split.
  - intros H Hin. specialize (H _ Hin). discriminate.
  - intros H x Hx. destruct (N.eqb_spec x 39) as [->|_]; [contradiction | reflexivity].
Qed.

Lemma first_of_two_body (key1 key2 : string) (body : N -> bool) (lo : nat)
    (dflt m v : jsstring) :
  forallb body dflt = true ->
  first_of_two key1 key2 body lo dflt m v -> forallb body v = true.
Proof.
  intros Hd [F | [[_ F] | (_ & _ & ->)]]; [| |exact Hd];
    destruct F as (before & (w & after & _ & _ & Hv & _) & _); exact Hv.
Qed.

(** X14.  The details text of a Windows event card is the value of the
    first ['Message':] field of the message (the key, optional white
    space, and a possibly empty value between quotes), or of the first
    ['Task Category':] field when there is no such field, or the empty
    text when there is neither, with every backslash-r-backslash-n
    replaced by a line break and every backslash-t by four blanks.  The
    value ends at the first quote, so it holds none: the third
    replacement, of an escaped quote, never applies, and the details text
    holds no quote. *)
Theorem details_text_is_first_field (m id summary text : jsstring) :
  renderLogCard m = WindowsEvent id summary text ->
  exists raw,
    first_of_two "'Message':" "'Task Category':" not_quote 0 [] m raw
    /\ text = replaceAll (92 :: str "t")%N (str "    ")
                (replaceAll ([92] ++ str "r" ++ [92] ++ str "n")%N [10%N] raw)
    /\ ~ In 39%N raw /\ ~ In 39%N text.
Proof.
  intros H. apply renderLogCard_windows, windows_event_parts in H.
  destruct H as (_ & (raw & F & ->) & _). exists raw. split; [exact F|].
  pose proof (first_of_two_body _ _ not_quote _ [] _ _ eq_refl F) as Hraw.
  assert (H2 : forallb not_quote
                 (replaceAll (92 :: str "t")%N (str "    ")
                    (replaceAll ([92] ++ str "r" ++ [92] ++ str "n")%N [10%N] raw)) = true).
  { unfold replaceAll. apply replaceAll_aux_keeps; [reflexivity|].
    apply replaceAll_aux_keeps; [reflexivity | exact Hraw]. }
  assert (E : unescape raw
              = replaceAll (92 :: str "t")%N (str "    ")
                  (replaceAll ([92] ++ str "r" ++ [92] ++ str "n")%N [10%N] raw)).
  { unfold unescape. unfold replaceAll at 1.
    apply (replaceAll_aux_absent not_quote); [reflexivity | exact H2]. }
  rewrite E. split; [reflexivity|].
  split; apply not_quote_In; assumption.
Qed.

Lemma details_text_is_first_field_witness :
  exists raw,
    first_of_two "'Message':" "'Task Category':" not_quote 0 []
      (str "{'Event ID': '1', 'Message': 'it\'s late'}") raw
    /\ str "it\"
       = replaceAll (92 :: str "t")%N (str "    ")
           (replaceAll ([92] ++ str "r" ++ [92] ++ str "n")%N [10%N] raw)
    /\ ~ In 39%N raw /\ ~ In 39%N (str "it\").
Proof.
  apply (details_text_is_first_field
           (str "{'Event ID': '1', 'Message': 'it\'s late'}")
           (str "1") (str "Windows Event 1") (str "it\")).
  vm_compute. reflexivity.
Defined.

(** ** The description is never blank *)

Lemma trimStart_length_ge (t : N) (T : jsstring) : is_space t = false ->
  forall R, length (t :: T) <= length (trimStart (R ++ t :: T)).
Proof.
  intros Ht. induction R as [|c R IH]; simpl.
  - rewrite Ht. simpl. lia.
  - destruct (is_space c); [exact IH|]. simpl. rewrite length_app. simpl. lia.
Qed.

Lemma trim_core (x y : N) (b c : jsstring) :
  is_space x = false -> is_space y = false ->
  length b + 2 <= length (trim (x :: b ++ y :: c)).
Proof.
  intros Hx Hy. unfold trim, trimEnd. simpl trimStart at 2. rewrite Hx.
  rewrite length_rev.
  replace (rev (x :: b ++ y :: c)) with (rev c ++ y :: (rev b ++ [x])).
  - pose proof (trimStart_length_ge y (rev b ++ [x]) Hy (rev c)) as L.
    simpl in L. rewrite length_app, length_rev in L. simpl in L. lia.
  - simpl. rewrite rev_app_distr. simpl. repeat rewrite <- app_assoc. reflexivity.
Qed.

Lemma lookup_In (table : list (jsstring * jsstring)) (key v : jsstring) :
  lookup table key = Some v -> In v (map snd table).
Proof.
  induction table as [|[k w] table IH]; simpl; [discriminate|].
  destruct (jsstring_eqb k key); [intros H; injection H as ->; auto | auto].
Qed.

Lemma fallback_not_blank (id : jsstring) :
  5 <= length (trim (str "Windows Event " ++ id)).
Proof.
  change (str "Windows Event " ++ id)
    with (87%N :: str "indows Even" ++ 116%N :: (32%N :: id)).
  pose proof (trim_core 87 116 (str "indows Even") (32%N :: id) eq_refl eq_refl) as L.
  change (length (str "indows Even")) with 11 in L. lia.
Qed.

(** X15.  The description of a Windows event card is never blank: once
    trimmed it has at least five characters, whether it comes from the
    table of known events, from the first line of the details text or
    from the fallback built on the event id. *)
Theorem description_never_blank (m id summary text : jsstring) :
  renderLogCard m = WindowsEvent id summary text -> 5 <= length (trim summary).
Proof.
  intros H. apply renderLogCard_windows, windows_event_parts in H.
  destruct H as (_ & _ & ->).
  destruct (or_else (lookup WIN_EVENT_DESCRIPTIONS id) []) as [|c s] eqn:E.
  - unfold synthesize.
    destruct (substring0 80 (hd [] (split 10 text))
              ++ (if (80 <? length text)%nat then str "..." else [])) as [|c s] eqn:Es.
    + apply fallback_not_blank.
    + destruct (length (trim (c :: s)) <? 5)%nat eqn:L.
      * apply fallback_not_blank.
      * apply Nat.ltb_ge in L. exact L.
  - assert (Hl : lookup WIN_EVENT_DESCRIPTIONS id = Some (c :: s)).
    { destruct (lookup WIN_EVENT_DESCRIPTIONS id) as [[|c' s']|]; simpl in E;
        try discriminate. rewrite E. reflexivity. }
    apply lookup_In in Hl.
    assert (Ht : forallb (fun v => (5 <=? length (trim v))%nat)
                   (map snd WIN_EVENT_DESCRIPTIONS) = true) by (vm_compute; reflexivity).
    rewrite forallb_forall in Ht. apply Nat.leb_le. exact (Ht _ Hl).
Qed.

Lemma description_never_blank_witness :
  5 <= length (trim (str "Windows Event 77")).
Proof.
  apply (description_never_blank (str "{'Event ID': '77', 'Message': ' ok '}")
           (str "77") (str "Windows Event 77") (str " ok ")).
  vm_compute. reflexivity.
Defined.

(** ** Letter case *)

Lemma lowers_all (c : N) : is_lower c = true -> In c (map N.of_nat (List.seq 97 26)).
Proof.
  unfold is_lower, in_range. intros H. apply andb_true_iff in H. destruct H as [H1 H2].
  apply N.leb_le in H1, H2. rewrite <- (N2Nat.id c). apply in_map. apply in_seq. lia.
Qed.

Lemma class_blind (p : N -> bool) :
  forallb (fun c => Bool.eqb (p (c - 32)%N) (p c)) (map N.of_nat (List.seq 97 26)) = true ->
  forall c, p (canonicalize c) = p c.
Proof.
  intros H c. unfold canonicalize. destruct (is_lower c) eqn:E; [|reflexivity].
  rewrite forallb_forall in H. apply eqb_prop. apply H. apply lowers_all. exact E.
Qed.

Lemma space_blind : forall c, is_space (canonicalize c) = is_space c.
Proof. apply class_blind. vm_compute. reflexivity. Qed.

Lemma digit_blind : forall c, is_digit (canonicalize c) = is_digit c.
Proof. apply class_blind. vm_compute. reflexivity. Qed.

Lemma dot_blind : forall c, is_dot (canonicalize c) = is_dot c.
Proof. apply class_blind. vm_compute. reflexivity. Qed.

Lemma quote_blind : forall c, (34 =? canonicalize c)%N = (34 =? c)%N.
Proof. apply (class_blind (N.eqb 34)). vm_compute. reflexivity. Qed.

Lemma ip_char_blind : forall c, is_ip_char (canonicalize c) = is_ip_char c.
Proof. apply class_blind. vm_compute. reflexivity. Qed.

Lemma case_blind_chars (cs : list N) : case_blind (seq (map chri cs)).
Proof.
  induction cs as [|c cs IH]; cbn [map seq fold_right case_blind]; [exact I|].
  split; [|exact IH]. intros x. rewrite canonicalize_idem. reflexivity.
Qed.

Lemma case_blind_liti (w : string) : case_blind (liti w).
Proof. apply case_blind_chars. Qed.

Lemma same_case_split (m a b : jsstring) :
  map canonicalize m = map canonicalize (a ++ b) ->
  exists a' b', m = a' ++ b' /\ map canonicalize a' = map canonicalize a
    /\ map canonicalize b' = map canonicalize b.
Proof.
  rewrite map_app. intros H. apply map_eq_app in H.
  destruct H as (a' & b' & -> & Ha & Hb). eauto.
Qed.

Lemma same_case_nil (a a' : jsstring) :
  map canonicalize a' = map canonicalize a -> is_nil a' = is_nil a.
Proof. destruct a, a'; simpl; intros H; try discriminate; reflexivity. Qed.

Lemma forallb_case (p : N -> bool) : (forall c, p (canonicalize c) = p c) ->
  forall s s', map canonicalize s' = map canonicalize s -> forallb p s' = forallb p s.
Proof.
  intros Hp. induction s as [|c s IH]; intros [|c' s'] H; simpl in *; try discriminate.
  - reflexivity.
  - injection H as Hc Hs. rewrite (IH s' Hs).
    rewrite <- (Hp c'), <- (Hp c), Hc. reflexivity.
Qed.

(** A case-blind pattern matches a text iff it matches the texts that
    differ from it in letter case only. *)
Lemma matches_case : forall r, case_blind r ->
  forall b s1 s2 s1' s2',
    map canonicalize s1' = map canonicalize s1 ->
    map canonicalize s2' = map canonicalize s2 ->
    matches r b s1 s2 -> matches r b s1' s2'.
Proof.
  induction r as [| | |p|r1 IH1 r2 IH2|r1 IH1 r2 IH2|p lo hi|r IH];
    intros Hb b s1 s2 s1' s2' E1 E2 M; simpl in Hb, M |- *.
  - subst. destruct s1'; [reflexivity | discriminate].
  - destruct M as [-> ->]. destruct s1'; [auto | discriminate].
  - destruct M as [-> ->]. destruct s1'; [|discriminate]. destruct s2'; [auto | discriminate].
  - destruct M as (c & -> & Hp). destruct s1' as [|c' [|? ?]]; try discriminate.
    injection E1 as Hc. exists c'. split; [reflexivity|].
    rewrite <- (Hb c'), Hc, (Hb c). exact Hp.
  - destruct Hb as [Hb1 Hb2]. destruct M as (x & y & -> & M1 & M2).
    apply same_case_split in E1. destruct E1 as (x' & y' & -> & Ex & Ey).
    exists x', y'. split; [reflexivity|]. split.
    + apply (IH1 Hb1 b x (y ++ s2)); auto. rewrite !map_app, Ey, E2. reflexivity.
    + rewrite (same_case_nil _ _ Ex). apply (IH2 Hb2 _ y s2); auto.
  - destruct Hb as [Hb1 Hb2]. destruct M as [M | M].
    + left. apply (IH1 Hb1 b s1 s2); auto.
    + right. apply (IH2 Hb2 b s1 s2); auto.
  - destruct M as (Hall & Hlo & Hhi).
    rewrite (forallb_case p Hb s1 s1' E1).
    assert (L : length s1' = length s1).
    { rewrite <- (length_map canonicalize s1'), E1. apply length_map. }
    rewrite L. auto.
  - apply (IH Hb b s1 s2); auto.
Qed.

Lemma test_case_true (r : regex) (m m' : jsstring) :
  case_blind r -> map canonicalize m' = map canonicalize m ->
  test r m = true -> test r m' = true.
Proof.
  intros Hb E H. apply (proj1 (test_iff _ _)) in H.
  destruct H as (pre & q & post & -> & M).
  apply same_case_split in E. destruct E as (pre' & t & -> & Ep & E).
  apply same_case_split in E. destruct E as (q' & post' & -> & Eq & Eo).
  apply (proj2 (test_iff _ _)). exists pre', q', post'. split; [reflexivity|].
  rewrite (same_case_nil _ _ Ep). apply (matches_case r Hb _ q post); auto.
Qed.

Lemma test_case (r : regex) (m m' : jsstring) :
  case_blind r -> same_but_case m m' -> test r m = test r m'.
Proof.
  unfold same_but_case. intros Hb E.
  destruct (test r m) eqn:T, (test r m') eqn:T'; try reflexivity.
  - rewrite (test_case_true r m m' Hb (eq_sym E) T) in T'. discriminate.
  - rewrite (test_case_true r m' m Hb E T') in T. discriminate.
Qed.

(** A text of digits and dots is the only one of its case class. *)
Lemma same_case_ip_chars : forall q q',
  forallb is_ip_char q = true -> map canonicalize q' = map canonicalize q -> q' = q.
Proof.
  induction q as [|c q IH]; intros [|c' q'] Hq E; simpl in *; try discriminate.
  - reflexivity.
  - apply andb_true_iff in Hq. destruct Hq as [Hc Hq]. injection E as Ec Eq.
    rewrite (IH q' Hq Eq). f_equal.
    assert (Hc' : is_ip_char c' = true).
    { rewrite <- ip_char_blind, Ec, ip_char_blind. exact Hc. }
    assert (K : forall x, is_ip_char x = true -> canonicalize x = x).
    { intros x Hx. unfold canonicalize. destruct (is_lower x) eqn:L; [|reflexivity].
      apply lowers_all in L. simpl in L.
      repeat (destruct L as [<- | L]; [discriminate Hx|]). contradiction. }
    rewrite (K c Hc), (K c' Hc') in Ec. exact Ec.
Qed.

Lemma first_dotted_quad_case (m m' before q after : jsstring) :
  map canonicalize m' = map canonicalize m ->
  first_dotted_quad m before q after ->
  exists before' after', first_dotted_quad m' before' q after'.
Proof.
  intros E (Em & Hq & Hfirst). subst m.
  pose proof E as E0.
  apply same_case_split in E. destruct E as (b' & t & -> & Eb & E).
  apply same_case_split in E. destruct E as (q' & a' & -> & Eq & Ea).
  apply (same_case_ip_chars q q' (proj1 (dotted_quad_chars q Hq))) in Eq. subst q'.
  exists b', a'. split; [reflexivity|]. split; [exact Hq|].
  intros b2 q2 a2 E2 Hq2.
  rewrite E2 in E0. symmetry in E0.
  apply same_case_split in E0. destruct E0 as (b3 & t3 & E3 & Eb3 & E0).
  apply same_case_split in E0. destruct E0 as (q3 & a3 & -> & Eq3 & Ea3).
  apply (same_case_ip_chars q2 q3 (proj1 (dotted_quad_chars q2 Hq2))) in Eq3. subst q3.
  destruct (Hfirst b3 q2 a3 E3 Hq2) as [L1 L2].
  assert (Lb : length b' = length before).
  { rewrite <- (length_map canonicalize b'), Eb. apply length_map. }
  assert (Lb3 : length b3 = length b2).
  { rewrite <- (length_map canonicalize b3), Eb3. apply length_map. }
  split; [lia|]. intros L. apply L2. lia.
Qed.

Lemma build_command_case (r : mitigation_rule) (m m' : jsstring) :
  same_but_case m m' -> build_command r m = build_command r m'.
Proof.
  unfold same_but_case. intros E. unfold build_command.
  destruct (exec re_ip m) as [x|] eqn:X.
  - apply exec_re_ip_some in X. destruct X as (before & after & F).
    apply (first_dotted_quad_case m m' _ _ _ (eq_sym E)) in F.
    destruct F as (b' & a' & F). apply exec_re_ip_first in F.
    destruct F as (x' & -> & <-). reflexivity.
  - destruct (exec re_ip m') as [x'|] eqn:X'; [|reflexivity].
    apply exec_re_ip_some in X'. destruct X' as (before & after & F).
    apply (first_dotted_quad_case m' m _ _ _ E) in F.
    destruct F as (b' & a' & F). apply exec_re_ip_first in F.
    destruct F as (x2 & X2 & _). rewrite X in X2. discriminate.
Qed.

Ltac blind :=
  lazymatch goal with
  | |- case_blind (liti _) => apply case_blind_liti
  | |- _ /\ _ => split; blind
  | |- True => exact I
  | |- forall c, _ =>
      first [exact space_blind | exact digit_blind | exact dot_blind | exact quote_blind]
  end.

Lemma explanations_blind : Forall (fun e => case_blind (exp_regex e)) EXPLANATIONS.
Proof.
  unfold EXPLANATIONS.
  repeat (apply Forall_cons;
          [cbn [exp_regex];
           unfold re_scan, re_500, re_credentials, re_segfault, re_network, re_usb,
             re_account, re_sudo;
           cbn [case_blind seq fold_right ws star chr]; blind|]).
  apply Forall_nil.
Qed.

Lemma mitigations_blind : Forall (fun r => case_blind (mit_regex r)) MITIGATION_MATRIC.
Proof.
  unfold MITIGATION_MATRIC.
  repeat (apply Forall_cons;
          [cbn [mit_regex];
           unfold re_credentials, re_404, re_account, re_sudo_admin, re_injection;
           cbn [case_blind seq fold_right ws star chr]; blind|]).
  apply Forall_nil.
Qed.

Lemma find_explanation_case (m m' : jsstring) (rules : list explanation_rule) :
  same_but_case m m' -> Forall (fun e => case_blind (exp_regex e)) rules ->
  find_explanation rules m = find_explanation rules m'.
Proof.
  intros E. induction 1 as [|e rules He _ IH]; simpl; [reflexivity|].
  rewrite (test_case _ m m' He E), IH. reflexivity.
Qed.

Lemma find_mitigation_case (m m' : jsstring) (rules : list mitigation_rule) :
  same_but_case m m' -> Forall (fun r => case_blind (mit_regex r)) rules ->
  find_mitigation rules m = find_mitigation rules m'.
Proof.
  intros E. induction 1 as [|r rules Hr _ IH]; simpl; [reflexivity|].
  rewrite (test_case _ m m' Hr E), IH, (build_command_case r m m' E). reflexivity.
Qed.

(** X16.  The two engines do not tell the case of ASCII letters: two
    messages that differ in letter case only get the same explanation and
    the same mitigation, action and command alike. *)
Theorem engines_ignore_letter_case (m m' : jsstring) :
  same_but_case m m' -> explain m = explain m' /\ mitigate m = mitigate m'.
Proof.
  intros E. split.
  - apply find_explanation_case; [exact E | exact explanations_blind].
  - apply find_mitigation_case; [exact E | exact mitigations_blind].
Qed.

Lemma engines_ignore_letter_case_witness :
  explain (str "SUDO: Failed Password from 10.0.0.9")
  = explain (str "sudo: failed password FROM 10.0.0.9")
  /\ mitigate (str "SUDO: Failed Password from 10.0.0.9")
     = mitigate (str "sudo: failed password FROM 10.0.0.9").
Proof.
  apply (engines_ignore_letter_case (str "SUDO: Failed Password from 10.0.0.9")
           (str "sudo: failed password FROM 10.0.0.9")).
  reflexivity.
Defined.

(** ** The details toggle *)

Lemma contains_add (t u : jsstring) (l : list jsstring) :
  classList_contains t (classList_add u l) = jsstring_eqb t u || classList_contains t l.
Proof.
  unfold classList_add. destruct (classList_contains u l) eqn:E.
  - destruct (jsstring_eqb t u) eqn:Et; [|reflexivity].
    apply jsstring_eqb_eq in Et. subst. rewrite E. reflexivity.
  - unfold classList_contains. rewrite existsb_app. simpl.
    rewrite orb_false_r. apply orb_comm.
Qed.

Lemma contains_remove (t u : jsstring) (l : list jsstring) :
  classList_contains t (classList_remove u l)
  = negb (jsstring_eqb t u) && classList_contains t l.
Proof.
  unfold classList_contains, classList_remove.
  induction l as [|x l IH]; simpl; [rewrite andb_false_r; reflexivity|].
  destruct (jsstring_eqb u x) eqn:Eu; simpl.
  - apply jsstring_eqb_eq in Eu. subst x. rewrite IH.
    destruct (jsstring_eqb t u); reflexivity.
  - rewrite IH. destruct (jsstring_eqb t x) eqn:Et; simpl.
    + apply jsstring_eqb_eq in Et. subst x.
      rewrite (jsstring_eqb_sym t u), Eu. reflexivity.
    + reflexivity.
Qed.

Lemma jsstring_eqb_neq (a b : jsstring) : a <> b -> jsstring_eqb a b = false.
Proof.
  intros H. destruct (jsstring_eqb a b) eqn:E; [|reflexivity].
  apply jsstring_eqb_eq in E. contradiction.
Qed.

(** One click. *)
Lemma toggleDetails_step (st : details_state) :
  settled st = true ->
  exists st',
    toggleDetails st = Ok st' /\ settled st' = true
    /\ hidden st' = negb (hidden st)
    /\ button_text st' = (if hidden st' then str "Details" else str "Hide Details")
    /\ classList_contains (str "btn-outline-secondary") (button_classes st') = hidden st'
    /\ classList_contains (str "btn-secondary") (button_classes st') = negb (hidden st')
    /\ (forall t, ~ toggled_class t ->
          classList_contains t (details_classes st')
          = classList_contains t (details_classes st)
          /\ classList_contains t (button_classes st')
             = classList_contains t (button_classes st)).
Proof.
  assert (K1 : jsstring_eqb (str "btn-outline-secondary") (str "btn-secondary") = false)
    by reflexivity.
  assert (K2 : jsstring_eqb (str "btn-secondary") (str "btn-outline-secondary") = false)
    by reflexivity.
  assert (K3 : jsstring_eqb (str "btn-outline-secondary") (str "d-none") = false)
    by reflexivity.
  assert (K4 : jsstring_eqb (str "btn-secondary") (str "d-none") = false)
    by reflexivity.
  assert (K5 : jsstring_eqb (str "d-none") (str "btn-outline-secondary") = false)
    by reflexivity.
  assert (K6 : jsstring_eqb (str "d-none") (str "btn-secondary") = false)
    by reflexivity.
  assert (F : forall t, ~ toggled_class t ->
            jsstring_eqb t (str "d-none") = false
            /\ jsstring_eqb t (str "btn-outline-secondary") = false
            /\ jsstring_eqb t (str "btn-secondary") = false).
  { intros t Ht. unfold toggled_class in Ht.
    repeat split; apply jsstring_eqb_neq; intros E; apply Ht; auto. }
  intros Hst. destruct st as [|t c|d t b next|d t b]; try discriminate Hst;
    unfold hidden, toggleDetails; cbn [details_classes].
  - destruct (classList_contains (str "d-none") c) eqn:H;
      eexists; (split; [reflexivity|]); (split; [reflexivity|]);
      cbn [details_classes button_classes button_text];
      (split; [|split; [|split; [|split; [|intros u Hu; destruct (F u Hu) as (F1 & F2 & F3); split]]]]);
      repeat first [rewrite contains_add | rewrite contains_remove];
      repeat rewrite jsstring_eqb_refl;
      rewrite ?H, ?K1, ?K2, ?K3, ?K4, ?K5, ?K6, ?F1, ?F2, ?F3;
      simpl; rewrite ?andb_false_r, ?orb_true_r; reflexivity.
  - destruct (classList_contains (str "d-none") d) eqn:H;
      eexists; (split; [reflexivity|]); (split; [reflexivity|]);
      cbn [details_classes button_classes button_text];
      (split; [|split; [|split; [|split; [|intros u Hu; destruct (F u Hu) as (F1 & F2 & F3); split]]]]);
      repeat first [rewrite contains_add | rewrite contains_remove];
      repeat rewrite jsstring_eqb_refl;
      rewrite ?H, ?K1, ?K2, ?F1, ?F2, ?F3;
      simpl; rewrite ?andb_false_r; reflexivity.
Qed.

(** Any number of clicks. *)
Lemma toggles_invariant (n : nat) : forall st,
  settled st = true ->
  exists st',
    toggles n st = Ok st' /\ settled st' = true
    /\ hidden st' = (if Nat.even n then hidden st else negb (hidden st))
    /\ (forall t, ~ toggled_class t ->
          classList_contains t (details_classes st')
          = classList_contains t (details_classes st)
          /\ classList_contains t (button_classes st')
             = classList_contains t (button_classes st))
    /\ (1 <= n ->
          button_text st' = (if hidden st' then str "Details" else str "Hide Details")
          /\ classList_contains (str "btn-outline-secondary") (button_classes st')
             = hidden st'
          /\ classList_contains (str "btn-secondary") (button_classes st')
             = negb (hidden st')).
Proof.
  induction n as [|n IH]; intros st Hst.
  - exists st. cbn [toggles Nat.even]. split; [reflexivity|]. split; [exact Hst|].
    split; [reflexivity|]. split; [intros; split; reflexivity|]. intros H. lia.
  - destruct (toggleDetails_step st Hst) as (s1 & E1 & N1 & S1 & S2 & S3 & S4 & S5).
    cbn [toggles]. rewrite E1.
    destruct n as [|n].
    + exists s1. cbn [toggles Nat.even]. split; [reflexivity|]. split; [exact N1|].
      split; [exact S1|]. split; [exact S5|]. intros _. auto.
    + destruct (IH s1 N1) as (s2 & E2 & N2 & H1 & H2 & H3). exists s2.
      split; [exact E2|]. split; [exact N2|]. split; [|split].
      * rewrite H1, S1. change (Nat.even (S (S (S n)))) with (Nat.even (S n)).
        rewrite Nat.even_succ, <- Nat.negb_even.
        change (Nat.even (S (S n))) with (Nat.even n).
        destruct (Nat.even n), (hidden st); reflexivity.
      * intros t Ht. destruct (H2 t Ht) as [A B]. destruct (S5 t Ht) as [A' B'].
        split; congruence.
      * intros _. apply H3. lia.
Qed.

(** X17.  A click on the Details button of a list item throws a
    TypeError, and changes nothing, when the item has no element of class
    raw-details.  When the first such element of the item is not inside
    the button (it is the block the card ends with, another element that
    the message carries, or the button itself), any number of clicks
    succeed; the element is hidden or shown according to the parity of
    the number of clicks and to its state before them, and the clicks
    leave every class of the element and of the button other than d-none,
    btn-outline-secondary and btn-secondary as it was.  After the first
    click the caption and the style of the button always tell the state:
    Details and the outline style when the element is hidden, Hide Details
    and the filled style when it is shown.  When the element is inside
    the button, the first click succeeds and, in writing the caption,
    removes the element from the item, which then has no such element or
    one that is not inside the button. *)
Theorem details_follow_clicks (n : nat) (st : details_state) :
  toggles (S n) NoDetails = Throw TypeError
  /\ (settled st = true ->
      exists st',
        toggles n st = Ok st' /\ settled st' = true
        /\ hidden st' = (if Nat.even n then hidden st else negb (hidden st))
        /\ (forall t, ~ toggled_class t ->
              classList_contains t (details_classes st')
              = classList_contains t (details_classes st)
              /\ classList_contains t (button_classes st')
                 = classList_contains t (button_classes st))
        /\ (1 <= n ->
              button_text st' = (if hidden st' then str "Details" else str "Hide Details")
              /\ classList_contains (str "btn-outline-secondary") (button_classes st')
                 = hidden st'
              /\ classList_contains (str "btn-secondary") (button_classes st')
                 = negb (hidden st')))
  /\ (forall d t b next,
        exists st', toggleDetails (Nested d t b next) = Ok st'
                    /\ (st' = NoDetails \/ settled st' = true)).
Proof.
  split; [reflexivity|]. split; [apply toggles_invariant|].
  intros d t b [d'|]; eexists; (split; [reflexivity|]); auto.
Qed.
